(** * arc-bug: the bug tracker's classification and reconciliation core

    A shallow embedding of [db.ts] (the SQLite store), [analyzer.ts] (the
    text matcher and the two AI-backed classifiers), [bot.ts] (marker
    detection, live handlers, history scans, reaction sync, the channel
    commands) and the routes of [server.ts] that write to the store,
    followed by the properties of the specification that are stated about
    them and by further properties of the store and the handlers.

    Conventions of the embedding:
    - a JavaScript string is the list of its UTF-16 code units;
    - Discord snowflakes (message, channel, guild and user ids), which the
      code holds as decimal strings and compares through [BigInt], are
      integers; so are SQLite row ids;
    - an ISO-8601 timestamp is the instant it denotes, in milliseconds;
    - the store is a record of tables, every statement a function on it;
    - Discord and the Anthropic client are oracles gathered in an
      environment record; handlers run to completion one after the other,
      and every [new Date()] of one run reads the same instant [now]. *)

From stdpp Require Import gmap list strings.
From Stdlib Require Import ZArith Lia.
From Stdlib Require Import Sorted.

Local Open Scope Z_scope.

(** ** JavaScript strings *)

Module Js.

Definition str := list Z.

(** Code units of an ASCII literal. *)
Definition lit (s : string) : str :=
  List.map (fun a => Z.of_nat (Ascii.nat_of_ascii a)) (String.list_ascii_of_string s).

(** The two marker glyphs, as they are written in the source:
    U+25B6 U+FE0F and U+2705. *)
Definition PLAY : str := [0x25B6; 0xFE0F].
Definition CHECK : str := [0x2705].

(** WhiteSpace and LineTerminator code units: what [trim] strips and what
    [\s] matches. *)
Definition isWhite (c : Z) : bool :=
  ((9 <=? c) && (c <=? 13)) || (c =? 32) || (c =? 0xA0) || (c =? 0x1680)
  || ((0x2000 <=? c) && (c <=? 0x200A)) || (c =? 0x2028) || (c =? 0x2029)
  || (c =? 0x202F) || (c =? 0x205F) || (c =? 0x3000) || (c =? 0xFEFF).

Fixpoint trimStart (s : str) : str :=
  match s with
  | c :: r => if isWhite c then trimStart r else s
  | [] => []
  end.

Definition trimEnd (s : str) : str := rev (trimStart (rev s)).

Definition trim (s : str) : str := trimEnd (trimStart s).

Fixpoint startsWith (s p : str) : bool :=
  match p, s with
  | [], _ => true
  | a :: p', b :: s' => (a =? b) && startsWith s' p'
  | _ :: _, [] => false
  end.

Fixpoint includes (s sub : str) : bool :=
  startsWith s sub ||
  match s with
  | [] => false
  | _ :: r => includes r sub
  end.

Fixpoint eqb (s t : str) : bool :=
  match s, t with
  | [], [] => true
  | a :: s', b :: t' => (a =? b) && eqb s' t'
  | _, _ => false
  end.

(** *** [String.prototype.toLowerCase]

    The string is read as code points (a high surrogate followed by a low
    one is one code point), every code point is replaced by its lower-case
    mapping in the Unicode Character Database, and the result is written
    back as code units. Two mappings are not one to one: U+0130 gives
    U+0069 U+0307, and U+03A3 gives U+03C2 when it ends a word (it is
    preceded by a cased letter and not followed by one, case-ignorable code
    points being skipped on both sides) and U+03C3 elsewhere. The tables
    are those of Unicode 14.0; later versions add code points to them. *)

Definition isHighSurrogate (c : Z) : bool := (0xD800 <=? c) && (c <=? 0xDBFF).
Definition isLowSurrogate (c : Z) : bool := (0xDC00 <=? c) && (c <=? 0xDFFF).

Fixpoint codePoints (s : str) : list Z :=
  match s with
  | [] => []
  | h :: r =>
      match r with
      | l :: r' =>
          if isHighSurrogate h && isLowSurrogate l
          then (0x10000 + (h - 0xD800) * 0x400 + (l - 0xDC00)) :: codePoints r'
          else h :: codePoints r
      | [] => [h]
      end
  end.

Definition codeUnits (cp : Z) : str :=
  if cp <? 0x10000 then [cp]
  else [0xD800 + (cp - 0x10000) / 0x400; 0xDC00 + (cp - 0x10000) mod 0x400].

(** The simple lower-case mappings: from [first] to [last], every
    [step]-th code point maps to itself plus [delta]. *)
Definition lowerTable : list (Z * Z * Z * Z) :=
  [
   (0x41, 0x5A, 1, 32); (0xC0, 0xD6, 1, 32); (0xD8, 0xDE, 1, 32);
   (0x100, 0x12E, 2, 1); (0x132, 0x136, 2, 1); (0x139, 0x147, 2, 1);
   (0x14A, 0x176, 2, 1); (0x178, 0x178, 1, (-121)); (0x179, 0x17D, 2, 1);
   (0x181, 0x181, 1, 210); (0x182, 0x184, 2, 1); (0x186, 0x186, 1, 206);
   (0x187, 0x187, 1, 1); (0x189, 0x18A, 1, 205); (0x18B, 0x18B, 1, 1);
   (0x18E, 0x18E, 1, 79); (0x18F, 0x18F, 1, 202); (0x190, 0x190, 1, 203);
   (0x191, 0x191, 1, 1); (0x193, 0x193, 1, 205); (0x194, 0x194, 1, 207);
   (0x196, 0x196, 1, 211); (0x197, 0x197, 1, 209); (0x198, 0x198, 1, 1);
   (0x19C, 0x19C, 1, 211); (0x19D, 0x19D, 1, 213); (0x19F, 0x19F, 1, 214);
   (0x1A0, 0x1A4, 2, 1); (0x1A6, 0x1A6, 1, 218); (0x1A7, 0x1A7, 1, 1);
   (0x1A9, 0x1A9, 1, 218); (0x1AC, 0x1AC, 1, 1); (0x1AE, 0x1AE, 1, 218);
   (0x1AF, 0x1AF, 1, 1); (0x1B1, 0x1B2, 1, 217); (0x1B3, 0x1B5, 2, 1);
   (0x1B7, 0x1B7, 1, 219); (0x1B8, 0x1B8, 1, 1); (0x1BC, 0x1BC, 1, 1);
   (0x1C4, 0x1C4, 1, 2); (0x1C5, 0x1C5, 1, 1); (0x1C7, 0x1C7, 1, 2);
   (0x1C8, 0x1C8, 1, 1); (0x1CA, 0x1CA, 1, 2); (0x1CB, 0x1DB, 2, 1);
   (0x1DE, 0x1EE, 2, 1); (0x1F1, 0x1F1, 1, 2); (0x1F2, 0x1F4, 2, 1);
   (0x1F6, 0x1F6, 1, (-97)); (0x1F7, 0x1F7, 1, (-56)); (0x1F8, 0x21E, 2, 1);
   (0x220, 0x220, 1, (-130)); (0x222, 0x232, 2, 1); (0x23A, 0x23A, 1, 10795);
   (0x23B, 0x23B, 1, 1); (0x23D, 0x23D, 1, (-163)); (0x23E, 0x23E, 1, 10792);
   (0x241, 0x241, 1, 1); (0x243, 0x243, 1, (-195)); (0x244, 0x244, 1, 69);
   (0x245, 0x245, 1, 71); (0x246, 0x24E, 2, 1); (0x370, 0x372, 2, 1);
   (0x376, 0x376, 1, 1); (0x37F, 0x37F, 1, 116); (0x386, 0x386, 1, 38);
   (0x388, 0x38A, 1, 37); (0x38C, 0x38C, 1, 64); (0x38E, 0x38F, 1, 63);
   (0x391, 0x3A1, 1, 32); (0x3A3, 0x3AB, 1, 32); (0x3CF, 0x3CF, 1, 8);
   (0x3D8, 0x3EE, 2, 1); (0x3F4, 0x3F4, 1, (-60)); (0x3F7, 0x3F7, 1, 1);
   (0x3F9, 0x3F9, 1, (-7)); (0x3FA, 0x3FA, 1, 1); (0x3FD, 0x3FF, 1, (-130));
   (0x400, 0x40F, 1, 80); (0x410, 0x42F, 1, 32); (0x460, 0x480, 2, 1);
   (0x48A, 0x4BE, 2, 1); (0x4C0, 0x4C0, 1, 15); (0x4C1, 0x4CD, 2, 1);
   (0x4D0, 0x52E, 2, 1); (0x531, 0x556, 1, 48); (0x10A0, 0x10C5, 1, 7264);
   (0x10C7, 0x10C7, 1, 7264); (0x10CD, 0x10CD, 1, 7264);
   (0x13A0, 0x13EF, 1, 38864); (0x13F0, 0x13F5, 1, 8);
   (0x1C90, 0x1CBA, 1, (-3008)); (0x1CBD, 0x1CBF, 1, (-3008));
   (0x1E00, 0x1E94, 2, 1); (0x1E9E, 0x1E9E, 1, (-7615));
   (0x1EA0, 0x1EFE, 2, 1); (0x1F08, 0x1F0F, 1, (-8));
   (0x1F18, 0x1F1D, 1, (-8)); (0x1F28, 0x1F2F, 1, (-8));
   (0x1F38, 0x1F3F, 1, (-8)); (0x1F48, 0x1F4D, 1, (-8));
   (0x1F59, 0x1F5F, 2, (-8)); (0x1F68, 0x1F6F, 1, (-8));
   (0x1F88, 0x1F8F, 1, (-8)); (0x1F98, 0x1F9F, 1, (-8));
   (0x1FA8, 0x1FAF, 1, (-8)); (0x1FB8, 0x1FB9, 1, (-8));
   (0x1FBA, 0x1FBB, 1, (-74)); (0x1FBC, 0x1FBC, 1, (-9));
   (0x1FC8, 0x1FCB, 1, (-86)); (0x1FCC, 0x1FCC, 1, (-9));
   (0x1FD8, 0x1FD9, 1, (-8)); (0x1FDA, 0x1FDB, 1, (-100));
   (0x1FE8, 0x1FE9, 1, (-8)); (0x1FEA, 0x1FEB, 1, (-112));
   (0x1FEC, 0x1FEC, 1, (-7)); (0x1FF8, 0x1FF9, 1, (-128));
   (0x1FFA, 0x1FFB, 1, (-126)); (0x1FFC, 0x1FFC, 1, (-9));
   (0x2126, 0x2126, 1, (-7517)); (0x212A, 0x212A, 1, (-8383));
   (0x212B, 0x212B, 1, (-8262)); (0x2132, 0x2132, 1, 28);
   (0x2160, 0x216F, 1, 16); (0x2183, 0x2183, 1, 1); (0x24B6, 0x24CF, 1, 26);
   (0x2C00, 0x2C2F, 1, 48); (0x2C60, 0x2C60, 1, 1);
   (0x2C62, 0x2C62, 1, (-10743)); (0x2C63, 0x2C63, 1, (-3814));
   (0x2C64, 0x2C64, 1, (-10727)); (0x2C67, 0x2C6B, 2, 1);
   (0x2C6D, 0x2C6D, 1, (-10780)); (0x2C6E, 0x2C6E, 1, (-10749));
   (0x2C6F, 0x2C6F, 1, (-10783)); (0x2C70, 0x2C70, 1, (-10782));
   (0x2C72, 0x2C72, 1, 1); (0x2C75, 0x2C75, 1, 1);
   (0x2C7E, 0x2C7F, 1, (-10815)); (0x2C80, 0x2CE2, 2, 1);
   (0x2CEB, 0x2CED, 2, 1); (0x2CF2, 0x2CF2, 1, 1); (0xA640, 0xA66C, 2, 1);
   (0xA680, 0xA69A, 2, 1); (0xA722, 0xA72E, 2, 1); (0xA732, 0xA76E, 2, 1);
   (0xA779, 0xA77B, 2, 1); (0xA77D, 0xA77D, 1, (-35332));
   (0xA77E, 0xA786, 2, 1); (0xA78B, 0xA78B, 1, 1);
   (0xA78D, 0xA78D, 1, (-42280)); (0xA790, 0xA792, 2, 1);
   (0xA796, 0xA7A8, 2, 1); (0xA7AA, 0xA7AA, 1, (-42308));
   (0xA7AB, 0xA7AB, 1, (-42319)); (0xA7AC, 0xA7AC, 1, (-42315));
   (0xA7AD, 0xA7AD, 1, (-42305)); (0xA7AE, 0xA7AE, 1, (-42308));
   (0xA7B0, 0xA7B0, 1, (-42258)); (0xA7B1, 0xA7B1, 1, (-42282));
   (0xA7B2, 0xA7B2, 1, (-42261)); (0xA7B3, 0xA7B3, 1, 928);
   (0xA7B4, 0xA7C2, 2, 1); (0xA7C4, 0xA7C4, 1, (-48));
   (0xA7C5, 0xA7C5, 1, (-42307)); (0xA7C6, 0xA7C6, 1, (-35384));
   (0xA7C7, 0xA7C9, 2, 1); (0xA7D0, 0xA7D0, 1, 1); (0xA7D6, 0xA7D8, 2, 1);
   (0xA7F5, 0xA7F5, 1, 1); (0xFF21, 0xFF3A, 1, 32); (0x10400, 0x10427, 1, 40);
   (0x104B0, 0x104D3, 1, 40); (0x10570, 0x1057A, 1, 39);
   (0x1057C, 0x1058A, 1, 39); (0x1058C, 0x10592, 1, 39);
   (0x10594, 0x10595, 1, 39); (0x10C80, 0x10CB2, 1, 64);
   (0x118A0, 0x118BF, 1, 32); (0x16E40, 0x16E5F, 1, 32);
   (0x1E900, 0x1E921, 1, 34)
  ].

Definition lowerPoint (c : Z) : Z :=
  match List.find (fun r => match r with
                            | (first, last, step, _) =>
                                (first <=? c) && (c <=? last) && ((c - first) mod step =? 0)
                            end) lowerTable with
  | Some (_, _, _, delta) => c + delta
  | None => c
  end.

Definition inRange (c : Z) (r : Z * Z) : bool := (fst r <=? c) && (c <=? snd r).

(** The code points with the property Case_Ignorable. *)
Definition caseIgnorable : list (Z * Z) :=
  [
   (0x27, 0x27); (0x2E, 0x2E); (0x3A, 0x3A); (0x5E, 0x5E); (0x60, 0x60);
   (0xA8, 0xA8); (0xAD, 0xAD); (0xAF, 0xAF); (0xB4, 0xB4); (0xB7, 0xB8);
   (0x2B0, 0x36F); (0x374, 0x375); (0x37A, 0x37A); (0x384, 0x385);
   (0x387, 0x387); (0x483, 0x489); (0x559, 0x559); (0x55F, 0x55F);
   (0x591, 0x5BD); (0x5BF, 0x5BF); (0x5C1, 0x5C2); (0x5C4, 0x5C5);
   (0x5C7, 0x5C7); (0x5F4, 0x5F4); (0x600, 0x605); (0x610, 0x61A);
   (0x61C, 0x61C); (0x640, 0x640); (0x64B, 0x65F); (0x670, 0x670);
   (0x6D6, 0x6DD); (0x6DF, 0x6E8); (0x6EA, 0x6ED); (0x70F, 0x70F);
   (0x711, 0x711); (0x730, 0x74A); (0x7A6, 0x7B0); (0x7EB, 0x7F5);
   (0x7FA, 0x7FA); (0x7FD, 0x7FD); (0x816, 0x82D); (0x859, 0x85B);
   (0x888, 0x888); (0x890, 0x891); (0x898, 0x89F); (0x8C9, 0x902);
   (0x93A, 0x93A); (0x93C, 0x93C); (0x941, 0x948); (0x94D, 0x94D);
   (0x951, 0x957); (0x962, 0x963); (0x971, 0x971); (0x981, 0x981);
   (0x9BC, 0x9BC); (0x9C1, 0x9C4); (0x9CD, 0x9CD); (0x9E2, 0x9E3);
   (0x9FE, 0x9FE); (0xA01, 0xA02); (0xA3C, 0xA3C); (0xA41, 0xA42);
   (0xA47, 0xA48); (0xA4B, 0xA4D); (0xA51, 0xA51); (0xA70, 0xA71);
   (0xA75, 0xA75); (0xA81, 0xA82); (0xABC, 0xABC); (0xAC1, 0xAC5);
   (0xAC7, 0xAC8); (0xACD, 0xACD); (0xAE2, 0xAE3); (0xAFA, 0xAFF);
   (0xB01, 0xB01); (0xB3C, 0xB3C); (0xB3F, 0xB3F); (0xB41, 0xB44);
   (0xB4D, 0xB4D); (0xB55, 0xB56); (0xB62, 0xB63); (0xB82, 0xB82);
   (0xBC0, 0xBC0); (0xBCD, 0xBCD); (0xC00, 0xC00); (0xC04, 0xC04);
   (0xC3C, 0xC3C); (0xC3E, 0xC40); (0xC46, 0xC48); (0xC4A, 0xC4D);
   (0xC55, 0xC56); (0xC62, 0xC63); (0xC81, 0xC81); (0xCBC, 0xCBC);
   (0xCBF, 0xCBF); (0xCC6, 0xCC6); (0xCCC, 0xCCD); (0xCE2, 0xCE3);
   (0xD00, 0xD01); (0xD3B, 0xD3C); (0xD41, 0xD44); (0xD4D, 0xD4D);
   (0xD62, 0xD63); (0xD81, 0xD81); (0xDCA, 0xDCA); (0xDD2, 0xDD4);
   (0xDD6, 0xDD6); (0xE31, 0xE31); (0xE34, 0xE3A); (0xE46, 0xE4E);
   (0xEB1, 0xEB1); (0xEB4, 0xEBC); (0xEC6, 0xEC6); (0xEC8, 0xECD);
   (0xF18, 0xF19); (0xF35, 0xF35); (0xF37, 0xF37); (0xF39, 0xF39);
   (0xF71, 0xF7E); (0xF80, 0xF84); (0xF86, 0xF87); (0xF8D, 0xF97);
   (0xF99, 0xFBC); (0xFC6, 0xFC6); (0x102D, 0x1030); (0x1032, 0x1037);
   (0x1039, 0x103A); (0x103D, 0x103E); (0x1058, 0x1059); (0x105E, 0x1060);
   (0x1071, 0x1074); (0x1082, 0x1082); (0x1085, 0x1086); (0x108D, 0x108D);
   (0x109D, 0x109D); (0x10FC, 0x10FC); (0x135D, 0x135F); (0x1712, 0x1714);
   (0x1732, 0x1733); (0x1752, 0x1753); (0x1772, 0x1773); (0x17B4, 0x17B5);
   (0x17B7, 0x17BD); (0x17C6, 0x17C6); (0x17C9, 0x17D3); (0x17D7, 0x17D7);
   (0x17DD, 0x17DD); (0x180B, 0x180F); (0x1843, 0x1843); (0x1885, 0x1886);
   (0x18A9, 0x18A9); (0x1920, 0x1922); (0x1927, 0x1928); (0x1932, 0x1932);
   (0x1939, 0x193B); (0x1A17, 0x1A18); (0x1A1B, 0x1A1B); (0x1A56, 0x1A56);
   (0x1A58, 0x1A5E); (0x1A60, 0x1A60); (0x1A62, 0x1A62); (0x1A65, 0x1A6C);
   (0x1A73, 0x1A7C); (0x1A7F, 0x1A7F); (0x1AA7, 0x1AA7); (0x1AB0, 0x1ACE);
   (0x1B00, 0x1B03); (0x1B34, 0x1B34); (0x1B36, 0x1B3A); (0x1B3C, 0x1B3C);
   (0x1B42, 0x1B42); (0x1B6B, 0x1B73); (0x1B80, 0x1B81); (0x1BA2, 0x1BA5);
   (0x1BA8, 0x1BA9); (0x1BAB, 0x1BAD); (0x1BE6, 0x1BE6); (0x1BE8, 0x1BE9);
   (0x1BED, 0x1BED); (0x1BEF, 0x1BF1); (0x1C2C, 0x1C33); (0x1C36, 0x1C37);
   (0x1C78, 0x1C7D); (0x1CD0, 0x1CD2); (0x1CD4, 0x1CE0); (0x1CE2, 0x1CE8);
   (0x1CED, 0x1CED); (0x1CF4, 0x1CF4); (0x1CF8, 0x1CF9); (0x1D2C, 0x1D6A);
   (0x1D78, 0x1D78); (0x1D9B, 0x1DFF); (0x1FBD, 0x1FBD); (0x1FBF, 0x1FC1);
   (0x1FCD, 0x1FCF); (0x1FDD, 0x1FDF); (0x1FED, 0x1FEF); (0x1FFD, 0x1FFE);
   (0x200B, 0x200F); (0x2018, 0x2019); (0x2024, 0x2024); (0x2027, 0x2027);
   (0x202A, 0x202E); (0x2060, 0x2064); (0x2066, 0x206F); (0x2071, 0x2071);
   (0x207F, 0x207F); (0x2090, 0x209C); (0x20D0, 0x20F0); (0x2C7C, 0x2C7D);
   (0x2CEF, 0x2CF1); (0x2D6F, 0x2D6F); (0x2D7F, 0x2D7F); (0x2DE0, 0x2DFF);
   (0x2E2F, 0x2E2F); (0x3005, 0x3005); (0x302A, 0x302D); (0x3031, 0x3035);
   (0x303B, 0x303B); (0x3099, 0x309E); (0x30FC, 0x30FE); (0xA015, 0xA015);
   (0xA4F8, 0xA4FD); (0xA60C, 0xA60C); (0xA66F, 0xA672); (0xA674, 0xA67D);
   (0xA67F, 0xA67F); (0xA69C, 0xA69F); (0xA6F0, 0xA6F1); (0xA700, 0xA721);
   (0xA770, 0xA770); (0xA788, 0xA78A); (0xA7F2, 0xA7F4); (0xA7F8, 0xA7F9);
   (0xA802, 0xA802); (0xA806, 0xA806); (0xA80B, 0xA80B); (0xA825, 0xA826);
   (0xA82C, 0xA82C); (0xA8C4, 0xA8C5); (0xA8E0, 0xA8F1); (0xA8FF, 0xA8FF);
   (0xA926, 0xA92D); (0xA947, 0xA951); (0xA980, 0xA982); (0xA9B3, 0xA9B3);
   (0xA9B6, 0xA9B9); (0xA9BC, 0xA9BD); (0xA9CF, 0xA9CF); (0xA9E5, 0xA9E6);
   (0xAA29, 0xAA2E); (0xAA31, 0xAA32); (0xAA35, 0xAA36); (0xAA43, 0xAA43);
   (0xAA4C, 0xAA4C); (0xAA70, 0xAA70); (0xAA7C, 0xAA7C); (0xAAB0, 0xAAB0);
   (0xAAB2, 0xAAB4); (0xAAB7, 0xAAB8); (0xAABE, 0xAABF); (0xAAC1, 0xAAC1);
   (0xAADD, 0xAADD); (0xAAEC, 0xAAED); (0xAAF3, 0xAAF4); (0xAAF6, 0xAAF6);
   (0xAB5B, 0xAB5F); (0xAB69, 0xAB6B); (0xABE5, 0xABE5); (0xABE8, 0xABE8);
   (0xABED, 0xABED); (0xFB1E, 0xFB1E); (0xFBB2, 0xFBC2); (0xFE00, 0xFE0F);
   (0xFE13, 0xFE13); (0xFE20, 0xFE2F); (0xFE52, 0xFE52); (0xFE55, 0xFE55);
   (0xFEFF, 0xFEFF); (0xFF07, 0xFF07); (0xFF0E, 0xFF0E); (0xFF1A, 0xFF1A);
   (0xFF3E, 0xFF3E); (0xFF40, 0xFF40); (0xFF70, 0xFF70); (0xFF9E, 0xFF9F);
   (0xFFE3, 0xFFE3); (0xFFF9, 0xFFFB); (0x101FD, 0x101FD); (0x102E0, 0x102E0);
   (0x10376, 0x1037A); (0x10780, 0x10785); (0x10787, 0x107B0);
   (0x107B2, 0x107BA); (0x10A01, 0x10A03); (0x10A05, 0x10A06);
   (0x10A0C, 0x10A0F); (0x10A38, 0x10A3A); (0x10A3F, 0x10A3F);
   (0x10AE5, 0x10AE6); (0x10D24, 0x10D27); (0x10EAB, 0x10EAC);
   (0x10F46, 0x10F50); (0x10F82, 0x10F85); (0x11001, 0x11001);
   (0x11038, 0x11046); (0x11070, 0x11070); (0x11073, 0x11074);
   (0x1107F, 0x11081); (0x110B3, 0x110B6); (0x110B9, 0x110BA);
   (0x110BD, 0x110BD); (0x110C2, 0x110C2); (0x110CD, 0x110CD);
   (0x11100, 0x11102); (0x11127, 0x1112B); (0x1112D, 0x11134);
   (0x11173, 0x11173); (0x11180, 0x11181); (0x111B6, 0x111BE);
   (0x111C9, 0x111CC); (0x111CF, 0x111CF); (0x1122F, 0x11231);
   (0x11234, 0x11234); (0x11236, 0x11237); (0x1123E, 0x1123E);
   (0x112DF, 0x112DF); (0x112E3, 0x112EA); (0x11300, 0x11301);
   (0x1133B, 0x1133C); (0x11340, 0x11340); (0x11366, 0x1136C);
   (0x11370, 0x11374); (0x11438, 0x1143F); (0x11442, 0x11444);
   (0x11446, 0x11446); (0x1145E, 0x1145E); (0x114B3, 0x114B8);
   (0x114BA, 0x114BA); (0x114BF, 0x114C0); (0x114C2, 0x114C3);
   (0x115B2, 0x115B5); (0x115BC, 0x115BD); (0x115BF, 0x115C0);
   (0x115DC, 0x115DD); (0x11633, 0x1163A); (0x1163D, 0x1163D);
   (0x1163F, 0x11640); (0x116AB, 0x116AB); (0x116AD, 0x116AD);
   (0x116B0, 0x116B5); (0x116B7, 0x116B7); (0x1171D, 0x1171F);
   (0x11722, 0x11725); (0x11727, 0x1172B); (0x1182F, 0x11837);
   (0x11839, 0x1183A); (0x1193B, 0x1193C); (0x1193E, 0x1193E);
   (0x11943, 0x11943); (0x119D4, 0x119D7); (0x119DA, 0x119DB);
   (0x119E0, 0x119E0); (0x11A01, 0x11A0A); (0x11A33, 0x11A38);
   (0x11A3B, 0x11A3E); (0x11A47, 0x11A47); (0x11A51, 0x11A56);
   (0x11A59, 0x11A5B); (0x11A8A, 0x11A96); (0x11A98, 0x11A99);
   (0x11C30, 0x11C36); (0x11C38, 0x11C3D); (0x11C3F, 0x11C3F);
   (0x11C92, 0x11CA7); (0x11CAA, 0x11CB0); (0x11CB2, 0x11CB3);
   (0x11CB5, 0x11CB6); (0x11D31, 0x11D36); (0x11D3A, 0x11D3A);
   (0x11D3C, 0x11D3D); (0x11D3F, 0x11D45); (0x11D47, 0x11D47);
   (0x11D90, 0x11D91); (0x11D95, 0x11D95); (0x11D97, 0x11D97);
   (0x11EF3, 0x11EF4); (0x13430, 0x13438); (0x16AF0, 0x16AF4);
   (0x16B30, 0x16B36); (0x16B40, 0x16B43); (0x16F4F, 0x16F4F);
   (0x16F8F, 0x16F9F); (0x16FE0, 0x16FE1); (0x16FE3, 0x16FE4);
   (0x1AFF0, 0x1AFF3); (0x1AFF5, 0x1AFFB); (0x1AFFD, 0x1AFFE);
   (0x1BC9D, 0x1BC9E); (0x1BCA0, 0x1BCA3); (0x1CF00, 0x1CF2D);
   (0x1CF30, 0x1CF46); (0x1D167, 0x1D169); (0x1D173, 0x1D182);
   (0x1D185, 0x1D18B); (0x1D1AA, 0x1D1AD); (0x1D242, 0x1D244);
   (0x1DA00, 0x1DA36); (0x1DA3B, 0x1DA6C); (0x1DA75, 0x1DA75);
   (0x1DA84, 0x1DA84); (0x1DA9B, 0x1DA9F); (0x1DAA1, 0x1DAAF);
   (0x1E000, 0x1E006); (0x1E008, 0x1E018); (0x1E01B, 0x1E021);
   (0x1E023, 0x1E024); (0x1E026, 0x1E02A); (0x1E130, 0x1E13D);
   (0x1E2AE, 0x1E2AE); (0x1E2EC, 0x1E2EF); (0x1E8D0, 0x1E8D6);
   (0x1E944, 0x1E94B); (0x1F3FB, 0x1F3FF); (0xE0001, 0xE0001);
   (0xE0020, 0xE007F); (0xE0100, 0xE01EF)
  ].

(** The code points with the property Cased. *)
Definition cased : list (Z * Z) :=
  [
   (0x41, 0x5A); (0x61, 0x7A); (0xAA, 0xAA); (0xB5, 0xB5); (0xBA, 0xBA);
   (0xC0, 0xD6); (0xD8, 0xF6); (0xF8, 0x1BA); (0x1BC, 0x1BF); (0x1C4, 0x293);
   (0x295, 0x2B8); (0x2C0, 0x2C1); (0x2E0, 0x2E4); (0x345, 0x345);
   (0x370, 0x373); (0x376, 0x377); (0x37A, 0x37D); (0x37F, 0x37F);
   (0x386, 0x386); (0x388, 0x38A); (0x38C, 0x38C); (0x38E, 0x3A1);
   (0x3A3, 0x3F5); (0x3F7, 0x481); (0x48A, 0x52F); (0x531, 0x556);
   (0x560, 0x588); (0x10A0, 0x10C5); (0x10C7, 0x10C7); (0x10CD, 0x10CD);
   (0x10D0, 0x10FA); (0x10FD, 0x10FF); (0x13A0, 0x13F5); (0x13F8, 0x13FD);
   (0x1C80, 0x1C88); (0x1C90, 0x1CBA); (0x1CBD, 0x1CBF); (0x1D00, 0x1DBF);
   (0x1E00, 0x1F15); (0x1F18, 0x1F1D); (0x1F20, 0x1F45); (0x1F48, 0x1F4D);
   (0x1F50, 0x1F57); (0x1F59, 0x1F59); (0x1F5B, 0x1F5B); (0x1F5D, 0x1F5D);
   (0x1F5F, 0x1F7D); (0x1F80, 0x1FB4); (0x1FB6, 0x1FBC); (0x1FBE, 0x1FBE);
   (0x1FC2, 0x1FC4); (0x1FC6, 0x1FCC); (0x1FD0, 0x1FD3); (0x1FD6, 0x1FDB);
   (0x1FE0, 0x1FEC); (0x1FF2, 0x1FF4); (0x1FF6, 0x1FFC); (0x2071, 0x2071);
   (0x207F, 0x207F); (0x2090, 0x209C); (0x2102, 0x2102); (0x2107, 0x2107);
   (0x210A, 0x2113); (0x2115, 0x2115); (0x2119, 0x211D); (0x2124, 0x2124);
   (0x2126, 0x2126); (0x2128, 0x2128); (0x212A, 0x212D); (0x212F, 0x2134);
   (0x2139, 0x2139); (0x213C, 0x213F); (0x2145, 0x2149); (0x214E, 0x214E);
   (0x2160, 0x217F); (0x2183, 0x2184); (0x24B6, 0x24E9); (0x2C00, 0x2CE4);
   (0x2CEB, 0x2CEE); (0x2CF2, 0x2CF3); (0x2D00, 0x2D25); (0x2D27, 0x2D27);
   (0x2D2D, 0x2D2D); (0xA640, 0xA66D); (0xA680, 0xA69D); (0xA722, 0xA787);
   (0xA78B, 0xA78E); (0xA790, 0xA7CA); (0xA7D0, 0xA7D1); (0xA7D3, 0xA7D3);
   (0xA7D5, 0xA7D9); (0xA7F5, 0xA7F6); (0xA7F8, 0xA7FA); (0xAB30, 0xAB5A);
   (0xAB5C, 0xAB68); (0xAB70, 0xABBF); (0xFB00, 0xFB06); (0xFB13, 0xFB17);
   (0xFF21, 0xFF3A); (0xFF41, 0xFF5A); (0x10400, 0x1044F); (0x104B0, 0x104D3);
   (0x104D8, 0x104FB); (0x10570, 0x1057A); (0x1057C, 0x1058A);
   (0x1058C, 0x10592); (0x10594, 0x10595); (0x10597, 0x105A1);
   (0x105A3, 0x105B1); (0x105B3, 0x105B9); (0x105BB, 0x105BC);
   (0x10780, 0x10780); (0x10783, 0x10785); (0x10787, 0x107B0);
   (0x107B2, 0x107BA); (0x10C80, 0x10CB2); (0x10CC0, 0x10CF2);
   (0x118A0, 0x118DF); (0x16E40, 0x16E7F); (0x1D400, 0x1D454);
   (0x1D456, 0x1D49C); (0x1D49E, 0x1D49F); (0x1D4A2, 0x1D4A2);
   (0x1D4A5, 0x1D4A6); (0x1D4A9, 0x1D4AC); (0x1D4AE, 0x1D4B9);
   (0x1D4BB, 0x1D4BB); (0x1D4BD, 0x1D4C3); (0x1D4C5, 0x1D505);
   (0x1D507, 0x1D50A); (0x1D50D, 0x1D514); (0x1D516, 0x1D51C);
   (0x1D51E, 0x1D539); (0x1D53B, 0x1D53E); (0x1D540, 0x1D544);
   (0x1D546, 0x1D546); (0x1D54A, 0x1D550); (0x1D552, 0x1D6A5);
   (0x1D6A8, 0x1D6C0); (0x1D6C2, 0x1D6DA); (0x1D6DC, 0x1D6FA);
   (0x1D6FC, 0x1D714); (0x1D716, 0x1D734); (0x1D736, 0x1D74E);
   (0x1D750, 0x1D76E); (0x1D770, 0x1D788); (0x1D78A, 0x1D7A8);
   (0x1D7AA, 0x1D7C2); (0x1D7C4, 0x1D7CB); (0x1DF00, 0x1DF09);
   (0x1DF0B, 0x1DF1E); (0x1E900, 0x1E943); (0x1F130, 0x1F149);
   (0x1F150, 0x1F169); (0x1F170, 0x1F189)
  ].

(** Is the nearest code point that is not case-ignorable a cased one? *)
Fixpoint casedNext (s : list Z) : bool :=
  match s with
  | [] => false
  | c :: r => if List.existsb (inRange c) caseIgnorable then casedNext r
              else List.existsb (inRange c) cased
  end.

(** [before] holds the code points already read, the nearest first. *)
Fixpoint lowerFrom (before s : list Z) : list Z :=
  match s with
  | [] => []
  | c :: r =>
      (if c =? 0x3A3
       then (if casedNext before && negb (casedNext r) then [0x3C2] else [0x3C3])
       else if c =? 0x130 then [0x69; 0x307]
       else [lowerPoint c])
      ++ lowerFrom (c :: before) r
  end.

Definition toLowerCase (s : str) : str :=
  List.flat_map codeUnits (lowerFrom [] (codePoints s)).

(** The letters [A] to [Z] in lower case, other code units as they are:
    how a pattern with the [i] flag compares a code unit with a Basic Latin
    letter of the pattern. *)
Definition lowerAscii (c : Z) : Z :=
  if (65 <=? c) && (c <=? 90) then c + 32 else c.

(** [s.replace(/^p\s*/, '')] for a literal [p]. *)
Definition stripPrefixWs (p s : str) : str :=
  if startsWith s p then trimStart (drop (length p) s) else s.

(** [s.replace(/p\s*/, '')] for a literal [p]: the first occurrence only. *)
Fixpoint stripFirstWs (p s : str) : str :=
  if startsWith s p then trimStart (drop (length p) s)
  else match s with
       | [] => []
       | c :: r => c :: stripFirstWs p r
       end.

(** [s.split(/\s+/)]: the pieces between maximal runs of white space,
    empty first or last pieces included. *)
Fixpoint splitWsFrom (s cur : str) (inWs : bool) : list str :=
  match s with
  | [] => [rev cur]
  | c :: r =>
      if isWhite c
      then (if inWs then splitWsFrom r [] true
            else rev cur :: splitWsFrom r [] true)
      else splitWsFrom r (c :: cur) false
  end.

Definition splitWs (s : str) : list str := splitWsFrom s [] false.

Definition mem (w : str) (l : list str) : bool := List.existsb (eqb w) l.

(** The elements of [new Set(l)], in insertion order. *)
Fixpoint dedup (l : list str) : list str :=
  match l with
  | [] => []
  | w :: r => let d := dedup r in
              w :: List.filter (fun x => negb (eqb w x)) d
  end.

End Js.

(** ** The store ([db.ts]) *)

Definition Snowflake := Z.
Definition Timestamp := Z.

Inductive BugType := TBug | TRequest.
Inductive Status := Open | Fixed.
Inductive AttachmentType := Screenshot | Link | Conversation.

Definition Status_eqb (a b : Status) : bool :=
  match a, b with
  | Open, Open | Fixed, Fixed => true
  | _, _ => false
  end.

Record Reaction := mkReaction {
  emoji : Js.str;
  count : Z;
  users : list Js.str
}.

(** [https://discord.com/channels/${guildId}/${channelId}/${id}], kept as
    its three holes. *)
Record DiscordUrl := mkUrl {
  url_guild : option Snowflake;
  url_channel : Snowflake;
  url_message : Snowflake
}.

Module Bug.
Record t := mk {
  id : Z;
  discord_message_id : Snowflake;
  channel_id : Snowflake;
  channel_name : Js.str;
  author_id : Snowflake;
  author_name : Js.str;
  content : Js.str;
  type : BugType;
  status : Status;
  created_at : Timestamp;
  updated_at : Timestamp;
  discord_url : DiscordUrl;
  reactions : list Reaction
}.

Definition with_id (i : Z) (b : t) : t :=
  mk i (discord_message_id b) (channel_id b) (channel_name b) (author_id b)
     (author_name b) (content b) (type b) (status b) (created_at b)
     (updated_at b) (discord_url b) (reactions b).

Definition with_updated_at (ts : Timestamp) (b : t) : t :=
  mk (id b) (discord_message_id b) (channel_id b) (channel_name b)
     (author_id b) (author_name b) (content b) (type b) (status b)
     (created_at b) ts (discord_url b) (reactions b).

Definition with_status (st : Status) (ts : Timestamp) (b : t) : t :=
  mk (id b) (discord_message_id b) (channel_id b) (channel_name b)
     (author_id b) (author_name b) (content b) (type b) st
     (created_at b) ts (discord_url b) (reactions b).

Definition with_reactions (rs : list Reaction) (b : t) : t :=
  mk (id b) (discord_message_id b) (channel_id b) (channel_name b)
     (author_id b) (author_name b) (content b) (type b) (status b)
     (created_at b) (updated_at b) (discord_url b) rs.
End Bug.

Module BugUpdate.
Record t := mk {
  id : Z;
  bug_id : Z;
  discord_message_id : Snowflake;
  author_id : Snowflake;
  author_name : Js.str;
  content : Js.str;
  created_at : Timestamp;
  discord_url : DiscordUrl;
  reactions : list Reaction;
  attachment_type : option AttachmentType;
  attachment_url : option Js.str;
  attachment_data : option Js.str
}.

Definition with_id (i : Z) (u : t) : t :=
  mk i (bug_id u) (discord_message_id u) (author_id u) (author_name u)
     (content u) (created_at u) (discord_url u) (reactions u)
     (attachment_type u) (attachment_url u) (attachment_data u).

Definition with_reactions (rs : list Reaction) (u : t) : t :=
  mk (id u) (bug_id u) (discord_message_id u) (author_id u) (author_name u)
     (content u) (created_at u) (discord_url u) rs
     (attachment_type u) (attachment_url u) (attachment_data u).

(** [x || null] on an optional string column: the empty string is stored
    as NULL. *)
Definition orNull (o : option Js.str) : option Js.str :=
  match o with
  | Some [] => None
  | _ => o
  end.

(** The row [INSERT INTO bug_updates] writes for [u]. *)
Definition stored (u : t) : t :=
  mk (id u) (bug_id u) (discord_message_id u) (author_id u) (author_name u)
     (content u) (created_at u) (discord_url u) (reactions u)
     (attachment_type u) (orNull (attachment_url u))
     (orNull (attachment_data u)).
End BugUpdate.

(** The tables, each in rowid order, with the AUTOINCREMENT counters of
    [sqlite_sequence] and the connection's [foreign_keys] pragma (the
    schema declares [bug_updates.bug_id REFERENCES bugs(id)]; whether it is
    enforced is a property of the connection). *)
Record Database := mkDb {
  bugs : list Bug.t;
  bugs_seq : Z;
  bug_updates : list BugUpdate.t;
  bug_updates_seq : Z;
  scan_state : gmap Snowflake (Snowflake * Timestamp);
  monitored_channels : list Snowflake;
  foreign_keys : bool
}.

Definition set_bugs (bs : list Bug.t) (d : Database) : Database :=
  mkDb bs (bugs_seq d) (bug_updates d) (bug_updates_seq d) (scan_state d)
       (monitored_channels d) (foreign_keys d).

Definition set_bug_updates (us : list BugUpdate.t) (d : Database) : Database :=
  mkDb (bugs d) (bugs_seq d) us (bug_updates_seq d) (scan_state d)
       (monitored_channels d) (foreign_keys d).

(** A statement either completes, with the value returned to the caller
    and the store it leaves, or throws. *)
Inductive Result (A : Type) :=
| Ok (a : A) (d : Database)
| Throw.
Arguments Ok {A} a d.
Arguments Throw {A}.

Definition getBugById (d : Database) (i : Z) : option Bug.t :=
  List.find (fun b => Bug.id b =? i) (bugs d).

Definition getBugByMessageId (d : Database) (messageId : Snowflake) : option Bug.t :=
  List.find (fun b => Bug.discord_message_id b =? messageId) (bugs d).

(** [result?.bug_id || null]: a row whose [bug_id] is 0 reads as null. *)
Definition getBugIdFromUpdateMessage (d : Database) (discordMessageId : Snowflake)
  : option Z :=
  match List.find (fun u => BugUpdate.discord_message_id u =? discordMessageId)
                  (bug_updates d) with
  | Some u => if BugUpdate.bug_id u =? 0 then None else Some (BugUpdate.bug_id u)
  | None => None
  end.

(** [INSERT INTO bugs]: the UNIQUE constraint on [discord_message_id]
    makes the statement fail with SQLITE_CONSTRAINT_UNIQUE, which [addBug]
    turns into [null]; otherwise the row gets the next rowid and is read
    back by [getBugById]. *)
Definition addBug (d : Database) (bug : Bug.t) : Result (option Bug.t) :=
  if List.existsb (fun b => Bug.discord_message_id b =? Bug.discord_message_id bug)
                  (bugs d)
  then Ok None d
  else
    let rowid := bugs_seq d + 1 in
    let d' := mkDb (bugs d ++ [Bug.with_id rowid bug]) rowid (bug_updates d)
                   (bug_updates_seq d) (scan_state d) (monitored_channels d)
                   (foreign_keys d) in
    Ok (getBugById d' rowid) d'.

(** [UPDATE bugs SET updated_at = ? WHERE id = ?] *)
Definition touchBug (ts : Timestamp) (bugId : Z) (bs : list Bug.t) : list Bug.t :=
  List.map (fun b => if Bug.id b =? bugId then Bug.with_updated_at ts b else b) bs.

(** [INSERT INTO bug_updates] then the [updated_at] bump of the owning bug.
    The UNIQUE index is checked while the row is written, the foreign key
    when the statement ends: a duplicate message id gives [null] whatever
    the [bug_id]; a dangling [bug_id] under an enforcing connection is an
    error that [addBugUpdate] rethrows. Nothing is written in either case. *)
Definition addBugUpdate (d : Database) (update : BugUpdate.t)
  : Result (option BugUpdate.t) :=
  if List.existsb (fun u => BugUpdate.discord_message_id u
                            =? BugUpdate.discord_message_id update)
                  (bug_updates d)
  then Ok None d
  else if foreign_keys d
          && negb (List.existsb (fun b => Bug.id b =? BugUpdate.bug_id update) (bugs d))
  then Throw
  else
    let rowid := bug_updates_seq d + 1 in
    let d' := mkDb (touchBug (BugUpdate.created_at update)
                             (BugUpdate.bug_id update) (bugs d))
                   (bugs_seq d)
                   (bug_updates d ++ [BugUpdate.stored (BugUpdate.with_id rowid update)])
                   rowid (scan_state d) (monitored_channels d) (foreign_keys d) in
    Ok (Some (BugUpdate.with_id rowid update)) d'.

Definition updateUpdateReactions (d : Database) (discordMessageId : Snowflake)
    (rs : list Reaction) : Database :=
  set_bug_updates
    (List.map (fun u => if BugUpdate.discord_message_id u =? discordMessageId
                        then BugUpdate.with_reactions rs u else u)
              (bug_updates d)) d.

Definition updateBugReactions (d : Database) (discordMessageId : Snowflake)
    (rs : list Reaction) : Database :=
  set_bugs
    (List.map (fun b => if Bug.discord_message_id b =? discordMessageId
                        then Bug.with_reactions rs b else b)
              (bugs d)) d.

(** [UPDATE bugs SET status = ?, updated_at = ? WHERE id = ?], the second
    parameter being [new Date()], here [now]. *)
Definition updateBugStatus (now : Timestamp) (d : Database) (bugId : Z)
    (st : Status) : Database :=
  set_bugs
    (List.map (fun b => if Bug.id b =? bugId then Bug.with_status st now b else b)
              (bugs d)) d.

(** [ORDER BY key DESC] and [ASC]; rows with equal keys stay in rowid
    order. *)
Fixpoint insertDesc {A} (key : A -> Z) (x : A) (l : list A) : list A :=
  match l with
  | [] => [x]
  | y :: r => if key y <=? key x then x :: l else y :: insertDesc key x r
  end.

Definition orderByDesc {A} (key : A -> Z) (l : list A) : list A :=
  List.fold_right (insertDesc key) [] l.

Fixpoint insertAsc {A} (key : A -> Z) (x : A) (l : list A) : list A :=
  match l with
  | [] => [x]
  | y :: r => if key x <=? key y then x :: l else y :: insertAsc key x r
  end.

Definition orderByAsc {A} (key : A -> Z) (l : list A) : list A :=
  List.fold_right (insertAsc key) [] l.

Definition getBugUpdates (d : Database) (bugId : Z) : list BugUpdate.t :=
  orderByAsc BugUpdate.created_at
    (List.filter (fun u => BugUpdate.bug_id u =? bugId) (bug_updates d)).

Definition getOpenBugs (d : Database) : list Bug.t :=
  orderByDesc Bug.updated_at
    (List.filter (fun b => Status_eqb (Bug.status b) Open) (bugs d)).

Definition getRecentlyActiveBugs (d : Database) (channelId : Snowflake)
    (limit : nat) : list Bug.t :=
  take limit
    (orderByDesc Bug.updated_at
       (List.filter (fun b => (Bug.channel_id b =? channelId)
                              && Status_eqb (Bug.status b) Open) (bugs d))).

(** [INSERT ... ON CONFLICT(channel_id) DO UPDATE]: an unconditional
    overwrite of the channel's row. *)
Definition saveScanState (now : Timestamp) (d : Database) (channelId : Snowflake)
    (lastMessageId : Snowflake) : Database :=
  mkDb (bugs d) (bugs_seq d) (bug_updates d) (bug_updates_seq d)
       (<[channelId := (lastMessageId, now)]> (scan_state d))
       (monitored_channels d) (foreign_keys d).

Definition getScanState (d : Database) (channelId : Snowflake)
  : option (Snowflake * Timestamp) :=
  scan_state d !! channelId.

Definition getAllMonitoredChannelIds (d : Database) : list Snowflake :=
  monitored_channels d.

(** ** The analyzer ([analyzer.ts]) *)

Inductive Confidence := High | Medium | Low.

Definition isLow (c : Confidence) : bool :=
  match c with Low => true | _ => false end.

(** The [reasoning] field of both results is only ever logged and is left
    out. *)
Record MatchResult := mkMatch {
  match_bugId : option Z;
  match_confidence : Confidence
}.

Record AddToBugResult := mkAdd {
  shouldAdd : bool;
  add_bugId : option Z;
  add_confidence : Confidence
}.

(** What one [client.messages.create] request comes to, seen from the
    [try] block around it: the request or [JSON.parse] throws, the answer
    holds no [{...}], or it parses. A parsed object gives the truthiness of
    [shouldAdd], [bugId ?? null] and the [confidence] field ([None] when it
    is missing or falsy). *)
Inductive Reply (A : Type) :=
| Rejected
| NoJson
| Json (parsed : A).
Arguments Rejected {A}.
Arguments NoJson {A}.
Arguments Json {A} parsed.

Record ParsedMatch := mkParsedMatch {
  pm_bugId : option Z;
  pm_confidence : option Confidence
}.

Record ParsedAdd := mkParsedAdd {
  pa_shouldAdd : bool;
  pa_bugId : option Z;
  pa_confidence : option Confidence
}.

(** The Anthropic client behind a [MessageAnalyzer], as the answers it
    gives to the two prompts; the prompts are functions of the arguments
    listed. *)
Record MessageAnalyzer := mkAnalyzer {
  ask_match : Js.str -> list (Z * Js.str * Js.str) -> Reply ParsedMatch;
  ask_add : Js.str -> Js.str -> list (Z * Js.str * Js.str)
            -> list (Js.str * Js.str * option Z) -> Reply ParsedAdd
}.

(** Both classifiers return their result and the number of requests sent
    to the client on the way. *)
Definition shouldAddToBug (a : MessageAnalyzer) (messageContent messageAuthor : Js.str)
    (recentBugs : list (Z * Js.str * Js.str))
    (recentMessages : list (Js.str * Js.str * option Z)) : AddToBugResult * nat :=
  match recentBugs with
  | [] => (mkAdd false None High, 0%nat)
  | _ =>
      match ask_add a messageContent messageAuthor recentBugs recentMessages with
      | Json p => (mkAdd (pa_shouldAdd p) (pa_bugId p)
                         (default Medium (pa_confidence p)), 1%nat)
      | NoJson => (mkAdd false None Low, 1%nat)
      | Rejected => (mkAdd false None Low, 1%nat)
      end
  end.

Definition matchCompletionToBug (a : MessageAnalyzer) (completionText : Js.str)
    (openBugs : list (Z * Js.str * Js.str)) : MatchResult * nat :=
  match openBugs with
  | [] => (mkMatch None High, 0%nat)
  | [b] => (mkMatch (Some (fst (fst b))) Medium, 0%nat)
  | _ =>
      match ask_match a completionText openBugs with
      | Json p => (mkMatch (pm_bugId p) (default Medium (pm_confidence p)), 1%nat)
      | NoJson => (mkMatch None Low, 1%nat)
      | Rejected => (mkMatch None Low, 1%nat)
      end
  end.

(** [.replace(/^▶️\s*/, '').replace(/^bug:\s*/i, '').trim()]. Under the
    [i] flag a letter of [bug] matches itself and its capital, and no other
    code unit. *)
Definition afterPrefix (s : Js.str) : Js.str :=
  let s1 := Js.stripPrefixWs Js.PLAY s in
  let s2 := if Js.startsWith (List.map Js.lowerAscii (take 4 s1)) (Js.lit "bug:")
            then Js.trimStart (drop 4 s1) else s1 in
  Js.trim s2.

Definition longWords (s : Js.str) : list Js.str :=
  List.filter (fun w => (2 <? Z.of_nat (length w))) (Js.splitWs s).

(** [matches / Math.max(textWords.length, bugWords.size) > 0.7] on word
    counts: the quotient of two integers below 2^50 exceeds the double 0.7
    exactly when ten times the first exceeds seven times the second. *)
Definition highOverlap (textWords bugWords : list Js.str) : bool :=
  let matches := Z.of_nat (length (List.filter (fun w => Js.mem w bugWords) textWords)) in
  let larger := Z.max (Z.of_nat (length textWords)) (Z.of_nat (length bugWords)) in
  7 * larger <? 10 * matches.

(** The body of the [for] loop of [findExactOrCloseMatch]: does this bug
    make the function return? *)
Definition closeMatch (normalizedText : Js.str) (bugContent : Js.str) : bool :=
  let normalizedBug := Js.toLowerCase bugContent in
  if Js.includes normalizedBug normalizedText || Js.includes normalizedText normalizedBug
  then true
  else
    let bugTextAfterPrefix := afterPrefix normalizedBug in
    let completionTextClean := afterPrefix normalizedText in
    if Js.eqb bugTextAfterPrefix completionTextClean then true
    else
      let bugWords := Js.dedup (longWords bugTextAfterPrefix) in
      let textWords := longWords completionTextClean in
      (0 <? Z.of_nat (length textWords)) && (0 <? Z.of_nat (length bugWords))
      && highOverlap textWords bugWords.

Definition findExactOrCloseMatch (text : Js.str) (bs : list (Z * Js.str)) : option Z :=
  let normalizedText := Js.trim (Js.toLowerCase text) in
  option_map fst (List.find (fun b => closeMatch normalizedText (snd b)) bs).

(** ** The Discord side *)

(** A reaction of [message.reactions.cache]: [emoji.name] (absent for
    some emojis), [emoji.toString()], the count and what
    [reaction.users.fetch] gives ([None] when it rejects). *)
Record MessageReaction := mkMessageReaction {
  emoji_name : option Js.str;
  emoji_toString : Js.str;
  reaction_count : Z;
  reaction_users : option (list Js.str)
}.

Module Message.
Record t := mk {
  id : Snowflake;
  channelId : Snowflake;
  guildId : option Snowflake;
  author_id : Snowflake;
  author_username : Js.str;
  author_bot : bool;
  content : Js.str;
  reference : option Snowflake;   (* message.reference?.messageId *)
  createdTimestamp : Timestamp;   (* also message.createdAt *)
  reactions : list MessageReaction
}.
End Message.

Record TextChannel := mkChannel {
  channel_name : Js.str;
  isTextBased : bool
}.

(** The calls the bot makes on the discord.js client. [None] stands for a
    rejected promise ([channels_fetch] also for a null channel: every call
    site treats the two alike). Lists are in the order of the returned
    collection. *)
Record Client := mkClient {
  channels_fetch : Snowflake -> option TextChannel;
  messages_fetch : Snowflake -> Snowflake -> option Message.t;
  messages_after : Snowflake -> option Snowflake -> option (list Message.t);
  messages_before : Snowflake -> nat -> option Snowflake -> option (list Message.t);
  messages_last : Snowflake -> option (option Message.t)
}.

(** ** The bot ([bot.ts]) *)

Record RecentMessage := mkRecent {
  recent_id : Snowflake;
  recent_author : Js.str;
  recent_authorId : Snowflake;
  recent_content : Js.str;
  recent_bugId : option Z;
  recent_timestamp : Timestamp
}.

(** What is fixed when the bot is constructed. *)
Record Env := mkEnv {
  config_channelIds : option (list Snowflake);
  analyzer : option MessageAnalyzer;
  client : Client
}.

(** What the bot mutates: the store and the per-channel cache; [requests]
    counts the calls made to the Anthropic client so far. *)
Record Bot := mkBot {
  db : Database;
  recentMessages : gmap Snowflake (list RecentMessage);
  requests : nat
}.

Definition set_db (d : Database) (s : Bot) : Bot :=
  mkBot d (recentMessages s) (requests s).

(** A handler either runs to its end or lets an exception escape; what it
    wrote before stays written. *)
Inductive Outcome (A : Type) :=
| Done (a : A) (s : Bot)
| Raised (s : Bot).
Arguments Done {A} a s.
Arguments Raised {A} s.

Definition bind {A B} (o : Outcome A) (k : A -> Bot -> Outcome B) : Outcome B :=
  match o with
  | Done a s => k a s
  | Raised s => Raised s
  end.

Definition final {A} (o : Outcome A) : Bot :=
  match o with
  | Done _ s => s
  | Raised s => s
  end.

Definition MAX_RECENT_MESSAGES : nat := 10.

Definition getMonitoredChannelIds (e : Env) (d : Database) : list Snowflake :=
  match getAllMonitoredChannelIds d, config_channelIds e with
  | [], Some ids => ids
  | dbChannels, _ => dbChannels
  end.

Definition isMonitoredChannel (e : Env) (d : Database) (channelId : Snowflake) : bool :=
  List.existsb (Z.eqb channelId) (getMonitoredChannelIds e d).

Definition isNewBugReport (content : Js.str) : bool :=
  Js.startsWith (Js.trim content) Js.PLAY.

Definition isCompletionMarker (content : Js.str) : bool :=
  Js.includes (Js.trim content) Js.CHECK.

Definition bugKeywords : list Js.str :=
  List.map Js.lit ["bug"; "issue"; "broken"; "error"; "crash"; "fail"; "problem";
                   "not working"; "doesn't work"; "doesnt work"]%string.

Definition detectType (content : Js.str) : BugType :=
  if List.existsb (Js.includes (Js.toLowerCase content)) bugKeywords
  then TBug else TRequest.

Definition extractReactions (message : Message.t) : list Reaction :=
  List.map (fun r =>
              mkReaction (match emoji_name r with
                          | Some (c :: n) => c :: n
                          | _ => emoji_toString r
                          end)
                         (reaction_count r)
                         (default [] (reaction_users r)))
           (Message.reactions message).

Definition hasCheckReaction (rs : list Reaction) : bool :=
  List.existsb (fun r => Js.eqb (emoji r) Js.CHECK
                         || Js.eqb (emoji r) (Js.lit "white_check_mark")) rs.

Definition discordUrl (message : Message.t) : DiscordUrl :=
  mkUrl (Message.guildId message) (Message.channelId message) (Message.id message).

Definition addToRecentMessages (channelId : Snowflake) (message : Message.t)
    (bugId : option Z) (s : Bot) : Bot :=
  let recent := default [] (recentMessages s !! channelId) in
  let pushed := recent ++ [mkRecent (Message.id message) (Message.author_username message)
                                    (Message.author_id message) (Message.content message)
                                    bugId (Message.createdTimestamp message)] in
  let kept := if (MAX_RECENT_MESSAGES <? length pushed)%nat then drop 1 pushed else pushed in
  mkBot (db s) (<[channelId := kept]> (recentMessages s)) (requests s).

(** The row a [▶️] message becomes; its [id] is assigned by the insert. *)
Definition bugOfMessage (message : Message.t) (channelName : Js.str)
    (st : Status) : Bug.t :=
  Bug.mk 0 (Message.id message) (Message.channelId message) channelName
         (Message.author_id message) (Message.author_username message)
         (Message.content message) (detectType (Message.content message)) st
         (Message.createdTimestamp message) (Message.createdTimestamp message)
         (discordUrl message) (extractReactions message).

(** The row a message becomes when it is appended to a bug's thread. *)
Definition updateOfMessage (message : Message.t) (bugId : Z) : BugUpdate.t :=
  BugUpdate.mk 0 bugId (Message.id message) (Message.author_id message)
               (Message.author_username message) (Message.content message)
               (Message.createdTimestamp message) (discordUrl message)
               (extractReactions message) None None None.

Definition isOpen (b : Bug.t) : bool := Status_eqb (Bug.status b) Open.

(** [if (n)] on a number or null. *)
Definition truthy (o : option Z) : option Z :=
  match o with
  | Some n => if n =? 0 then None else Some n
  | None => None
  end.

Definition createBug (e : Env) (message : Message.t) (s : Bot) : Outcome unit :=
  let channelName :=
    match channels_fetch (client e) (Message.channelId message) with
    | Some ch => match channel_name ch with
                 | [] => Js.lit "unknown"
                 | n => n
                 end
    | None => Js.lit "unknown"
    end in
  match addBug (db s) (bugOfMessage message channelName Open) with
  | Ok _ d => Done tt (set_db d s)
  | Throw => Raised s
  end.

(** The two lookups that [handleCompletion], [handleReactionAdd] and the
    completion branch of [scanExistingMessages] each spell out for a
    message id: a bug posted as that message, if open, is marked fixed;
    failing that, the bug owning an update posted as that message, if
    open, is marked fixed. [None] when neither applied. *)
Definition closeReferenced (now : Timestamp) (d : Database) (messageId : Snowflake)
  : option Database :=
  let viaUpdate :=
    match getBugIdFromUpdateMessage d messageId with
    | Some bugId =>
        match getBugById d bugId with
        | Some relatedBug =>
            if isOpen relatedBug then Some (updateBugStatus now d bugId Fixed) else None
        | None => None
        end
    | None => None
    end in
  match getBugByMessageId d messageId with
  | Some bug => if isOpen bug then Some (updateBugStatus now d (Bug.id bug) Fixed)
                else viaUpdate
  | None => viaUpdate
  end.

Definition briefs (bs : list Bug.t) : list (Z * Js.str * Js.str) :=
  List.map (fun b => (Bug.id b, Bug.content b, Bug.author_name b)) bs.

Definition contents (bs : list Bug.t) : list (Z * Js.str) :=
  List.map (fun b => (Bug.id b, Bug.content b)) bs.

Definition markFixed (now : Timestamp) (bugId : Z) (s : Bot) : Bot :=
  set_db (updateBugStatus now (db s) bugId Fixed) s.

(** [handleCompletion] past its reply branch: the standalone matching. *)
Definition matchStandalone (e : Env) (now : Timestamp) (message : Message.t)
    (s : Bot) : Outcome unit :=
  let completionText := Js.trim (Js.stripFirstWs Js.CHECK (Message.content message)) in
  let openBugs := getOpenBugs (db s) in
  let onlyOpenBug (s : Bot) :=
    match openBugs with
    | [only] => Done tt (markFixed now (Bug.id only) s)
    | _ => Done tt s
    end in
  match openBugs with
  | [] => Done tt s
  | _ =>
      match analyzer e with
      | Some a =>
          match truthy (findExactOrCloseMatch completionText (contents openBugs)) with
          | Some exactMatch => Done tt (markFixed now exactMatch s)
          | None =>
              let (result, sent) := matchCompletionToBug a completionText (briefs openBugs) in
              let s := mkBot (db s) (recentMessages s) (requests s + sent) in
              match truthy (match_bugId result) with
              | Some bugId =>
                  if negb (isLow (match_confidence result))
                  then Done tt (markFixed now bugId s)
                  else onlyOpenBug s
              | None => onlyOpenBug s
              end
          end
      | None => onlyOpenBug s
      end
  end.

Definition handleCompletion (e : Env) (now : Timestamp) (message : Message.t)
    (s : Bot) : Outcome unit :=
  match Message.reference message with
  | Some refMessageId =>
      match closeReferenced now (db s) refMessageId with
      | Some d => Done tt (set_db d s)
      | None => matchStandalone e now message s
      end
  | None => matchStandalone e now message s
  end.

(** The bug a reply target belongs to, as [handleReply] and both scans
    look it up: the bug posted as that message, else the bug that
    [getBugById] finds for the update posted as that message. *)
Definition resolveReply (d : Database) (refMessageId : Snowflake) : option Bug.t :=
  match getBugByMessageId d refMessageId with
  | Some bug => Some bug
  | None =>
      match getBugIdFromUpdateMessage d refMessageId with
      | Some bugId => getBugById d bugId
      | None => None
      end
  end.

Definition handleReply (e : Env) (message : Message.t) (s : Bot) : Outcome bool :=
  match Message.reference message with
  | None => Done false s
  | Some refMessageId =>
      match resolveReply (db s) refMessageId with
      | None => Done false s
      | Some bug =>
          match addBugUpdate (db s) (updateOfMessage message (Bug.id bug)) with
          | Ok (Some _) d =>
              Done true (addToRecentMessages (Message.channelId message) message
                                             (Some (Bug.id bug)) (set_db d s))
          | Ok None d => Done true (set_db d s)
          | Throw => Raised s
          end
      end
  end.

Definition handleContextMessage (e : Env) (message : Message.t) (s : Bot)
  : Outcome unit :=
  let cacheOnly (s : Bot) :=
    Done tt (addToRecentMessages (Message.channelId message) message None s) in
  match analyzer e with
  | None => cacheOnly s
  | Some a =>
      let recentBugs := getRecentlyActiveBugs (db s) (Message.channelId message) 5 in
      match recentBugs with
      | [] => cacheOnly s
      | _ =>
          let channelRecent := default [] (recentMessages s !! Message.channelId message) in
          let (result, sent) :=
            shouldAddToBug a (Message.content message) (Message.author_username message)
              (briefs recentBugs)
              (List.map (fun m => (recent_author m, recent_content m, recent_bugId m))
                        channelRecent) in
          let s := mkBot (db s) (recentMessages s) (requests s + sent) in
          match (if shouldAdd result then truthy (add_bugId result) else None) with
          | Some bugId =>
              match List.find (fun b => Bug.id b =? bugId) recentBugs with
              | Some targetBug =>
                  match addBugUpdate (db s) (updateOfMessage message bugId) with
                  | Ok (Some _) d =>
                      Done tt (addToRecentMessages (Message.channelId message) message
                                                   (Some bugId) (set_db d s))
                  | Ok None d => cacheOnly (set_db d s)
                  | Throw => Raised s
                  end
              | None => cacheOnly s
              end
          | None => cacheOnly s
          end
      end
  end.

(** The [messageCreate] and [messageUpdate] handler. *)
Definition handleMessage (e : Env) (now : Timestamp) (message : Message.t)
    (s : Bot) : Outcome unit :=
  if Message.author_bot message then Done tt s
  else if negb (isMonitoredChannel e (db s) (Message.channelId message)) then Done tt s
  else if isNewBugReport (Message.content message) then
    bind (createBug e message s)
         (fun _ s => Done tt (addToRecentMessages (Message.channelId message) message None s))
  else if isCompletionMarker (Message.content message) then
    handleCompletion e now message s
  else
    match Message.reference message with
    | Some _ =>
        bind (handleReply e message s)
             (fun handled s => if handled then Done tt s
                               else handleContextMessage e message s)
    | None => handleContextMessage e message s
    end.

(** [updateMessageReactions]: the first monitored channel in which the
    message can be fetched decides; a failed fetch moves on to the next. *)
Fixpoint updateReactionsIn (e : Env) (messageId : Snowflake)
    (channelIds : list Snowflake) (d : Database) : Database :=
  match channelIds with
  | [] => d
  | channelId :: rest =>
      match channels_fetch (client e) channelId,
            messages_fetch (client e) channelId messageId with
      | Some _, Some message =>
          let reactions := extractReactions message in
          match getBugByMessageId d messageId with
          | Some _ => updateBugReactions d messageId reactions
          | None => updateUpdateReactions d messageId reactions
          end
      | _, _ => updateReactionsIn e messageId rest d
      end
  end.

Definition updateMessageReactions (e : Env) (messageId : Snowflake) (s : Bot) : Bot :=
  set_db (updateReactionsIn e messageId (getMonitoredChannelIds e (db s)) (db s)) s.

Definition isCheckName (emojiName : Js.str) : bool :=
  Js.eqb emojiName Js.CHECK || Js.eqb emojiName (Js.lit "white_check_mark").

(** [emojiName] is [reaction.emoji.name || ''], [messageId] is
    [reaction.message.id]. *)
Definition handleReactionAdd (e : Env) (now : Timestamp) (emojiName : Js.str)
    (messageId : Snowflake) (s : Bot) : Bot :=
  match (if isCheckName emojiName then closeReferenced now (db s) messageId else None) with
  | Some d => set_db d s
  | None => updateMessageReactions e messageId s
  end.

(** The [messageReactionAdd] and [messageReactionRemove] listeners. *)
Definition onMessageReactionAdd (e : Env) (now : Timestamp) (emojiName : Js.str)
    (channelId messageId : Snowflake) (s : Bot) : Bot :=
  if isMonitoredChannel e (db s) channelId
  then handleReactionAdd e now emojiName messageId s else s.

Definition onMessageReactionRemove (e : Env) (channelId messageId : Snowflake)
    (s : Bot) : Bot :=
  if isMonitoredChannel e (db s) channelId
  then updateMessageReactions e messageId s else s.

(** ** Reaction sync *)

(** The inner loop of [syncReactionsOnOpenBugs] over the updates of one
    bug. *)
Fixpoint syncUpdates (e : Env) (now : Timestamp) (bug : Bug.t)
    (updates : list BugUpdate.t) (d : Database) : Database :=
  match updates with
  | [] => d
  | update :: rest =>
      match messages_fetch (client e) (Bug.channel_id bug)
                           (BugUpdate.discord_message_id update) with
      | Some updateMessage =>
          let reactions := extractReactions updateMessage in
          if hasCheckReaction reactions
          then updateUpdateReactions (updateBugStatus now d (Bug.id bug) Fixed)
                                     (BugUpdate.discord_message_id update) reactions
          else syncUpdates e now bug rest
                 (updateUpdateReactions d (BugUpdate.discord_message_id update) reactions)
      | None => syncUpdates e now bug rest d
      end
  end.

Definition syncBug (e : Env) (now : Timestamp) (bug : Bug.t) (d : Database) : Database :=
  match channels_fetch (client e) (Bug.channel_id bug) with
  | None => d
  | Some channel =>
      if negb (isTextBased channel) then d
      else
        match messages_fetch (client e) (Bug.channel_id bug)
                             (Bug.discord_message_id bug) with
        | Some bugMessage =>
            let reactions := extractReactions bugMessage in
            if hasCheckReaction reactions
            then updateBugReactions (updateBugStatus now d (Bug.id bug) Fixed)
                                    (Bug.discord_message_id bug) reactions
            else
              let d := updateBugReactions d (Bug.discord_message_id bug) reactions in
              syncUpdates e now bug (getBugUpdates d (Bug.id bug)) d
        | None => syncUpdates e now bug (getBugUpdates d (Bug.id bug)) d
        end
  end.

Definition syncReactionsOnOpenBugs (e : Env) (now : Timestamp) (s : Bot) : Bot :=
  set_db (List.fold_left (fun d bug => syncBug e now bug d) (getOpenBugs (db s)) (db s)) s.

(** ** History scans *)

Definition statusFromReactions (message : Message.t) : Status :=
  if hasCheckReaction (extractReactions message) then Fixed else Open.

Definition sortOldestFirst (messages : list Message.t) : list Message.t :=
  orderByAsc Message.createdTimestamp messages.

(** One turn of a scan loop either goes on to the next message or lets
    an exception escape to the [catch] around the channel; the counters and
    what was written so far stay. *)
Inductive Step (A : Type) :=
| Next (a : A) (d : Database)
| Abort (a : A) (d : Database).
Arguments Next {A} a d.
Arguments Abort {A} a d.

Fixpoint forEach {A M} (body : M -> A -> Database -> Step A) (ms : list M)
    (a : A) (d : Database) : Step A :=
  match ms with
  | [] => Next a d
  | m :: rest =>
      match body m a d with
      | Next a d => forEach body rest a d
      | Abort a d => Abort a d
      end
  end.

Definition stepDb {A} (r : Step A) : Database :=
  match r with
  | Next _ d => d
  | Abort _ d => d
  end.

(** *** [scanChannelHistory], run when a channel is added *)

Record HistoryStats := mkHistoryStats {
  h_bugs : Z;
  h_updates : Z
}.

(** One turn of the [for] loop over a batch. *)
Definition historyMessage (now : Timestamp) (channelName : Js.str)
    (message : Message.t) (st : HistoryStats) (d : Database)
  : Step HistoryStats :=
  if Message.author_bot message then Next st d
  else if isNewBugReport (Message.content message) then
    match addBug d (bugOfMessage message channelName (statusFromReactions message)) with
    | Ok (Some _) d => Next (mkHistoryStats (h_bugs st + 1) (h_updates st)) d
    | Ok None d => Next st d
    | Throw => Abort st d
    end
  else
    match Message.reference message with
    | Some refMessageId =>
        match resolveReply d refMessageId with
        | Some bug =>
            let d := if isCompletionMarker (Message.content message) && isOpen bug
                     then updateBugStatus now d (Bug.id bug) Fixed else d in
            match addBugUpdate d (updateOfMessage message (Bug.id bug)) with
            | Ok (Some _) d => Next (mkHistoryStats (h_bugs st) (h_updates st + 1)) d
            | Ok None d => Next st d
            | Throw => Abort st d
            end
        | None => Next st d
        end
    | None => Next st d
    end.

(** The [while (totalScanned < maxMessages)] loop. Every turn that goes on
    adds at least one to [totalScanned]: [fuel] turns are enough as soon as
    [maxMessages - totalScanned <= fuel]. *)
Fixpoint historyPages (fuel : nat) (e : Env) (now : Timestamp)
    (channelId : Snowflake) (channelName : Js.str) (maxMessages totalScanned : Z)
    (lastMessageId : option Snowflake) (st : HistoryStats) (d : Database)
  : HistoryStats * Database :=
  match fuel with
  | O => (st, d)
  | S fuel =>
      if totalScanned <? maxMessages then
        let batchSize := Z.min 100 (maxMessages - totalScanned) in
        match messages_before (client e) channelId (Z.to_nat batchSize) lastMessageId with
        | None => (st, d)
        | Some [] => (st, d)
        | Some messages =>
            let sortedMessages := sortOldestFirst messages in
            match forEach (historyMessage now channelName) sortedMessages st d with
            | Abort st d => (st, d)
            | Next st d =>
                let size := Z.of_nat (length messages) in
                if size <? batchSize then (st, d)
                else historyPages fuel e now channelId channelName maxMessages
                                  (totalScanned + size)
                                  (option_map Message.id (head sortedMessages)) st d
            end
        end
      else (st, d)
  end.

Definition scanChannelHistory (e : Env) (now : Timestamp) (channelId : Snowflake)
    (maxMessages : Z) (s : Bot) : HistoryStats * Bot :=
  match channels_fetch (client e) channelId with
  | None => (mkHistoryStats 0 0, s)
  | Some channel =>
      if negb (isTextBased channel) then (mkHistoryStats 0 0, s)
      else
        let (st, d) := historyPages (Z.to_nat maxMessages) e now channelId
                         (channel_name channel) maxMessages 0 None
                         (mkHistoryStats 0 0) (db s) in
        (st, set_db d s)
  end.

(** *** [scanExistingMessages], the resumable backfill *)

Record ScanStats := mkScanStats {
  bugsFound : Z;
  updatesFound : Z;
  bugsFixed : Z;
  totalScanned : Z;
  newestMessageId : option Snowflake
}.

Definition noStats : ScanStats := mkScanStats 0 0 0 0 None.

(** [totalScanned++] and the tracking of the newest id seen. *)
Definition seen (message : Message.t) (st : ScanStats) : ScanStats :=
  mkScanStats (bugsFound st) (updatesFound st) (bugsFixed st) (totalScanned st + 1)
    (match newestMessageId st with
     | Some newest => if newest <? Message.id message
                      then Some (Message.id message) else Some newest
     | None => Some (Message.id message)
     end).

Definition foundBug (fixedToo : bool) (st : ScanStats) : ScanStats :=
  mkScanStats (bugsFound st + 1) (updatesFound st)
              (if fixedToo then bugsFixed st + 1 else bugsFixed st)
              (totalScanned st) (newestMessageId st).

Definition foundUpdate (st : ScanStats) : ScanStats :=
  mkScanStats (bugsFound st) (updatesFound st + 1) (bugsFixed st)
              (totalScanned st) (newestMessageId st).

Definition foundFixed (st : ScanStats) : ScanStats :=
  mkScanStats (bugsFound st) (updatesFound st) (bugsFixed st + 1)
              (totalScanned st) (newestMessageId st).

(** One turn of the [for] loop over a batch. *)
Definition scanMessage (now : Timestamp) (channelName : Js.str)
    (message : Message.t) (st : ScanStats) (d : Database) : Step ScanStats :=
  let st := seen message st in
  if Message.author_bot message then Next st d
  else if isNewBugReport (Message.content message) then
    match addBug d (bugOfMessage message channelName (statusFromReactions message)) with
    | Ok (Some _) d =>
        Next (foundBug (hasCheckReaction (extractReactions message)) st) d
    | Ok None d => Next st d
    | Throw => Abort st d
    end
  else if isCompletionMarker (Message.content message) then
    match Message.reference message with
    | Some refMessageId =>
        match closeReferenced now d refMessageId with
        | Some d => Next (foundFixed st) d
        | None => Next st d
        end
    | None => Next st d
    end
  else
    match Message.reference message with
    | Some refMessageId =>
        match resolveReply d refMessageId with
        | Some bug =>
            match addBugUpdate d (updateOfMessage message (Bug.id bug)) with
            | Ok (Some _) d => Next (foundUpdate st) d
            | Ok None d => Next st d
            | Throw => Abort st d
            end
        | None => Next st d
        end
    | None => Next st d
    end.

(** The [while (hasMore)] loop. Nothing bounds the number of full pages a
    client may keep returning: the loop is run on [fuel] pages and [None]
    means that it was still going. *)
Fixpoint scanPages (fuel : nat) (e : Env) (now : Timestamp)
    (channelId : Snowflake) (channelName : Js.str) (afterId : option Snowflake)
    (st : ScanStats) (d : Database) : option (Step ScanStats) :=
  match fuel with
  | O => None
  | S fuel =>
      match messages_after (client e) channelId afterId with
      | None => Some (Abort st d)
      | Some [] => Some (Next st d)
      | Some messages =>
          let sortedMessages := sortOldestFirst messages in
          match forEach (scanMessage now channelName) sortedMessages st d with
          | Abort st d => Some (Abort st d)
          | Next st d =>
              if (length messages <? 100)%nat then Some (Next st d)
              else scanPages fuel e now channelId channelName
                             (option_map Message.id (last sortedMessages)) st d
          end
      end
  end.

Definition DISCORD_EPOCH : Z := 1420070400000.

Definition dateToSnowflake (date : Timestamp) : Snowflake :=
  Z.shiftl (date - DISCORD_EPOCH) 22.

Record ScanOptions := mkScanOptions {
  sinceDate : option Timestamp;
  resumeFromSaved : bool
}.

Definition startingPoint (opts : ScanOptions) (d : Database) (channelId : Snowflake)
  : option Snowflake :=
  let afterId := if resumeFromSaved opts
                 then option_map fst (getScanState d channelId) else None in
  match afterId with
  | Some a => Some a
  | None => option_map dateToSnowflake (sinceDate opts)
  end.

(** The body of the [for] loop over the monitored channels. *)
Definition scanChannel (fuel : nat) (e : Env) (now : Timestamp) (opts : ScanOptions)
    (channelId : Snowflake) (d : Database) : option Database :=
  match channels_fetch (client e) channelId with
  | None => Some d
  | Some channel =>
      if negb (isTextBased channel) then Some d
      else
        match scanPages fuel e now channelId (channel_name channel)
                        (startingPoint opts d channelId) noStats d with
        | None => None
        | Some (Abort _ d) => Some d
        | Some (Next st d) =>
            Some (match newestMessageId st with
                  | Some newest => saveScanState now d channelId newest
                  | None => d
                  end)
        end
  end.

Fixpoint scanChannels (fuel : nat) (e : Env) (now : Timestamp) (opts : ScanOptions)
    (channelIds : list Snowflake) (d : Database) : option Database :=
  match channelIds with
  | [] => Some d
  | channelId :: rest =>
      match scanChannel fuel e now opts channelId d with
      | Some d => scanChannels fuel e now opts rest d
      | None => None
      end
  end.

Definition scanExistingMessages (fuel : nat) (e : Env) (now : Timestamp)
    (opts : ScanOptions) (s : Bot) : option Bot :=
  option_map (fun d => set_db d s)
    (scanChannels fuel e now opts (getMonitoredChannelIds e (db s)) (db s)).

(** *** [saveCurrentPosition], run at shutdown *)

Definition savePosition (e : Env) (now : Timestamp) (channelId : Snowflake)
    (d : Database) : Database :=
  match channels_fetch (client e) channelId with
  | None => d
  | Some channel =>
      if negb (isTextBased channel) then d
      else match messages_last (client e) channelId with
           | Some (Some lastMessage) =>
               saveScanState now d channelId (Message.id lastMessage)
           | _ => d
           end
  end.

Definition saveCurrentPosition (e : Env) (now : Timestamp) (s : Bot) : Bot :=
  set_db (List.fold_left (fun d channelId => savePosition e now channelId d)
                         (getMonitoredChannelIds e (db s)) (db s)) s.

(** ** Notions used in the statements *)

(** The message is the originating message of a bug, respectively the
    message of an update: the two UNIQUE columns. *)
Definition bugTracked (d : Database) (messageId : Snowflake) : Prop :=
  exists b, In b (bugs d) /\ Bug.discord_message_id b = messageId.

Definition updateTracked (d : Database) (messageId : Snowflake) : Prop :=
  exists u, In u (bug_updates d) /\ BugUpdate.discord_message_id u = messageId.

Definition statusOf (d : Database) (bugId : Z) : option Status :=
  option_map Bug.status (getBugById d bugId).

(** The class of a text, in the order in which [handleMessage] and both
    scans test for the two markers. *)
Inductive Marker := NewIssue | Completion | Plain.

Definition classify (content : Js.str) : Marker :=
  if isNewBugReport content then NewIssue
  else if isCompletionMarker content then Completion
  else Plain.

(** The store an insert into [bugs] leaves when the message id is new. *)
Definition withBug (d : Database) (bug : Bug.t) : Database :=
  mkDb (bugs d ++ [Bug.with_id (bugs_seq d + 1) bug]) (bugs_seq d + 1) (bug_updates d)
       (bug_updates_seq d) (scan_state d) (monitored_channels d) (foreign_keys d).

(** The store an insert into [bug_updates] leaves when it goes through. *)
Definition withUpdate (d : Database) (update : BugUpdate.t) : Database :=
  mkDb (touchBug (BugUpdate.created_at update) (BugUpdate.bug_id update) (bugs d))
       (bugs_seq d)
       (bug_updates d
          ++ [BugUpdate.stored (BugUpdate.with_id (bug_updates_seq d + 1) update)])
       (bug_updates_seq d + 1) (scan_state d) (monitored_channels d) (foreign_keys d).

Definition bugExists (d : Database) (bugId : Z) : Prop :=
  exists b, In b (bugs d) /\ Bug.id b = bugId.

(** A step from [d] to [d'] records the message as fixed: when the message
    was not tracked, exactly one row was appended, it is the row of that
    message and it is fixed; and no row of that message other than the
    ones already there is open. *)
Definition recordedFixed (d d' : Database) (messageId : Snowflake) : Prop :=
  (~ bugTracked d messageId ->
   exists b, bugs d' = bugs d ++ [b] /\ getBugByMessageId d' messageId = Some b
             /\ Bug.status b = Fixed) /\
  (forall b, In b (bugs d') -> Bug.discord_message_id b = messageId ->
             Bug.status b = Open -> In b (bugs d)).

(** A message the live handler does not drop. *)
Definition accepted (e : Env) (s : Bot) (message : Message.t) : Prop :=
  Message.author_bot message = false
  /\ isMonitoredChannel e (db s) (Message.channelId message) = true.

(** [content.replace(/✅\s*/, '').trim()], as [handleCompletion] computes
    it. *)
Definition completionText (message : Message.t) : Js.str :=
  Js.trim (Js.stripFirstWs Js.CHECK (Message.content message)).

(** What [handleContextMessage] offers the ambient classifier: the
    recently active bugs of the channel and the cached messages. *)
Definition candidates (s : Bot) (message : Message.t) : list Bug.t :=
  getRecentlyActiveBugs (db s) (Message.channelId message) 5.

Definition recentContext (s : Bot) (message : Message.t)
  : list (Js.str * Js.str * option Z) :=
  List.map (fun m => (recent_author m, recent_content m, recent_bugId m))
           (default [] (recentMessages s !! Message.channelId message)).

(** The verdict of the ambient classifier on a message: the id it names,
    when it answers [shouldAdd] with the id of one of the bugs it was
    offered. *)
Definition verdict (e : Env) (s : Bot) (message : Message.t) : option Z :=
  match analyzer e with
  | None => None
  | Some a =>
      let result := fst (shouldAddToBug a (Message.content message)
                           (Message.author_username message)
                           (briefs (candidates s message)) (recentContext s message)) in
      match add_bugId result with
      | Some bugId =>
          if shouldAdd result
             && List.existsb (fun b => Bug.id b =? bugId) (candidates s message)
          then Some bugId else None
      | None => None
      end
  end.

(** What the cache holds of a message, with the bug it was attached to. *)
Definition cacheEntry (message : Message.t) (bugId : option Z) : RecentMessage :=
  mkRecent (Message.id message) (Message.author_username message)
           (Message.author_id message) (Message.content message) bugId
           (Message.createdTimestamp message).

(** From [s] to [s'] the message was recorded in the cache of its channel:
    it is the newest entry there, behind the entries the channel had, less
    the oldest of them when they were ten or more; the cache of every other
    channel is as it was. *)
Definition recorded (s s' : Bot) (message : Message.t) (bugId : option Z) : Prop :=
  let before := default [] (recentMessages s !! Message.channelId message) in
  recentMessages s' !! Message.channelId message
  = Some ((if (MAX_RECENT_MESSAGES <=? length before)%nat then drop 1 before else before)
          ++ [cacheEntry message bugId])
  /\ forall channelId, channelId <> Message.channelId message ->
                       recentMessages s' !! channelId = recentMessages s !! channelId.

Definition cachedOnly (s s' : Bot) (message : Message.t) : Prop :=
  db s' = db s /\ recorded s s' message None.

Definition attachedTo (s s' : Bot) (message : Message.t) (bugId : Z) : Prop :=
  db s' = withUpdate (db s) (updateOfMessage message bugId)
  /\ recorded s s' message (Some bugId).

Definition stepStats {A} (r : Step A) : A :=
  match r with
  | Next a _ => a
  | Abort a _ => a
  end.

(** The client returns only messages newer than the [after] cursor. *)
Definition honoursAfter (c : Client) (channelId : Snowflake) : Prop :=
  forall cursor messages m,
    messages_after c channelId (Some cursor) = Some messages ->
    In m messages -> cursor < Message.id m.

(** The newest id a scan has seen so far, if any, is above [old]. *)
Definition newestAbove (old : Snowflake) (st : ScanStats) : Prop :=
  forall n, newestMessageId st = Some n -> old < n.

(** The statements the core issues on the store. Every status write is a
    write of [Fixed]; every insert into [bug_updates] names a bug that
    exists. *)
Inductive write : Database -> Database -> Prop :=
| write_bug d bug r d' :
    addBug d bug = Ok r d' -> write d d'
| write_update d update r d' :
    bugExists d (BugUpdate.bug_id update) ->
    addBugUpdate d update = Ok r d' -> write d d'
| write_fixed now d bugId :
    write d (updateBugStatus now d bugId Fixed)
| write_bug_reactions d messageId rs :
    write d (updateBugReactions d messageId rs)
| write_update_reactions d messageId rs :
    write d (updateUpdateReactions d messageId rs)
| write_scan_state now d channelId messageId :
    write d (saveScanState now d channelId messageId).

Inductive writes : Database -> Database -> Prop :=
| writes_refl d : writes d d
| writes_step d1 d2 d3 : write d1 d2 -> writes d2 d3 -> writes d1 d3.

(** PRIMARY KEY AUTOINCREMENT on both [id] columns, UNIQUE on both
    [discord_message_id] columns, and the reference from
    [bug_updates.bug_id] to [bugs.id]. *)
Record db_wf (d : Database) : Prop := mk_db_wf {
  wf_bugs_seq : 0 <= bugs_seq d;
  wf_bug_ids : forall b, In b (bugs d) -> 1 <= Bug.id b <= bugs_seq d;
  wf_bug_id_unique : NoDup (List.map Bug.id (bugs d));
  wf_bug_message_unique : NoDup (List.map Bug.discord_message_id (bugs d));
  wf_updates_seq : 0 <= bug_updates_seq d;
  wf_update_ids : forall u, In u (bug_updates d) -> 1 <= BugUpdate.id u <= bug_updates_seq d;
  wf_update_id_unique : NoDup (List.map BugUpdate.id (bug_updates d));
  wf_update_message_unique :
    NoDup (List.map BugUpdate.discord_message_id (bug_updates d));
  wf_update_owner : forall u, In u (bug_updates d) -> bugExists d (BugUpdate.bug_id u)
}.

(** The watermark of [channelId] in [d'] is at least the one in [d]. *)
Definition watermarkKept (d d' : Database) (channelId : Snowflake) : Prop :=
  forall old t, getScanState d channelId = Some (old, t) ->
                exists new t', getScanState d' channelId = Some (new, t') /\ old <= new.

(** ** A small server to run the handlers on *)

Module Demo.
Definition channel : Snowflake := 7.

Definition post (i : Z) (text : Js.str) (ref : option Snowflake) : Message.t :=
  Message.mk i channel (Some 1) 50 (Js.lit "ann") false text ref (1000 + i) [].

(** A Discord in which [channel] holds [history], newest first. *)
Definition discord (history : list Message.t) : Client :=
  mkClient (fun _ => Some (mkChannel (Js.lit "bugs") true))
           (fun _ i => List.find (fun m => Message.id m =? i) history)
           (fun _ after =>
              Some (List.filter (fun m => match after with
                                          | Some c => c <? Message.id m
                                          | None => true
                                          end) history))
           (fun _ limit before =>
              Some (take limit
                      (List.filter (fun m => match before with
                                             | Some c => Message.id m <? c
                                             | None => true
                                             end) history)))
           (fun _ => Some (head history)).

Definition noAI : Env := mkEnv None None (discord []).

Definition fresh : Bot := mkBot (mkDb [] 0 [] 0 ∅ [channel] true) ∅ 0.

Definition run (e : Env) (now : Timestamp) (ms : list Message.t) (s : Bot) : Bot :=
  List.fold_left (fun s m => final (handleMessage e now m s)) ms s.

Definition issue : Message.t :=
  post 100 (Js.PLAY ++ Js.lit " login button is broken on mobile") None.
Definition reply : Message.t := post 101 (Js.lit "same here on android") (Some 100).
Definition replyToReply : Message.t := post 102 (Js.lit "and on ios") (Some 101).
Definition deeper : Message.t := post 103 (Js.lit "since tuesday") (Some 102).
Definition doneReply : Message.t :=
  post 104 (Js.CHECK ++ Js.lit " fixed in the latest build") (Some 100).
Definition issueReply : Message.t :=
  post 105 (Js.PLAY ++ Js.lit " logout is broken too") (Some 100).
Definition replyEdited : Message.t :=
  post 101 (Js.PLAY ++ Js.lit " android crash on start") (Some 100).
Definition issue2 : Message.t :=
  post 110 (Js.PLAY ++ Js.lit " export to csv fails") None.
Definition doneExport : Message.t := post 120 (Js.CHECK ++ Js.lit " export to csv") None.
Definition doneVague : Message.t := post 121 (Js.CHECK ++ Js.lit " all sorted") None.
Definition chatter : Message.t := post 122 (Js.lit "lunch anyone") None.

Definition issue3 : Message.t := post 111 (Js.PLAY ++ Js.lit " dark mode please") None.
Definition wordy : Message.t :=
  post 300 (Js.PLAY ++ Js.lit " please fix login page now") None.
Definition terse : Message.t := post 301 (Js.PLAY ++ Js.lit " login page fix") None.
Definition doneFix : Message.t := post 302 (Js.CHECK ++ Js.lit " fix login page") None.
Definition doneLogin : Message.t := post 123 (Js.CHECK ++ Js.lit " login button") None.
Definition hello : Message.t := post 150 (Js.lit "hello") None.
Definition bye : Message.t := post 200 (Js.lit "bye") None.
Definition checked : Message.t :=
  Message.mk 130 channel (Some 1) 50 (Js.lit "ann") false
             (Js.PLAY ++ Js.lit " tooltip is cut off") None 1130
             [mkMessageReaction (Some Js.CHECK) Js.CHECK 1 (Some [Js.lit "bob"])].

Definition tracked : Bot := run noAI 5000 [issue] fresh.
Definition threaded : Bot := run noAI 5000 [issue; reply; replyToReply; deeper] fresh.
Definition edited : Bot := run noAI 5000 [issue; reply; replyEdited] fresh.
Definition twoOpen : Bot := run noAI 5000 [issue; issue2] fresh.
Definition oneClosed : Bot := run noAI 6000 [issue; issue2; issue3; doneReply] fresh.
Definition reworded : Bot := run noAI 5000 [wordy; terse] fresh.

Definition nthBug (n : nat) (s : Bot) : Bug.t :=
  List.nth n (bugs (db s)) (bugOfMessage issue [] Open).
Definition nthUpdate (n : nat) (s : Bot) : BugUpdate.t :=
  List.nth n (bug_updates (db s)) (updateOfMessage issue 0).

(** A classifier that names bug 1 on every request, with high
    confidence. *)
Definition alwaysBug1 : MessageAnalyzer :=
  mkAnalyzer (fun _ _ => Json (mkParsedMatch (Some 1) (Some High)))
             (fun _ _ _ _ => Json (mkParsedAdd true (Some 1) (Some High))).

Definition withAI : Env := mkEnv None (Some alwaysBug1) (discord []).

Definition busy : Env := mkEnv None None (discord [bye; hello]).
End Demo.

(** ** The store, continued: edits, deletion, listings, statistics *)

Definition BugType_eqb (a b : BugType) : bool :=
  match a, b with
  | TBug, TBug | TRequest, TRequest => true
  | _, _ => false
  end.

(** The [updates] argument of [updateBug]; a field left [undefined] is
    [None]. *)
Record BugEdit := mkBugEdit {
  edit_content : option Js.str;
  edit_type : option BugType;
  edit_status : option Status
}.

(** [UPDATE bugs SET content = ?, type = ?, status = ?, updated_at = ?] with
    the assignments of the fields that are given. *)
Definition applyEdit (now : Timestamp) (updates : BugEdit) (b : Bug.t) : Bug.t :=
  Bug.mk (Bug.id b) (Bug.discord_message_id b) (Bug.channel_id b) (Bug.channel_name b)
         (Bug.author_id b) (Bug.author_name b)
         (default (Bug.content b) (edit_content updates))
         (default (Bug.type b) (edit_type updates))
         (default (Bug.status b) (edit_status updates))
         (Bug.created_at b) now (Bug.discord_url b) (Bug.reactions b).

(** With no field given nothing is written, not even [updated_at]. *)
Definition updateBug (now : Timestamp) (d : Database) (bugId : Z) (updates : BugEdit)
  : option Bug.t * Database :=
  match edit_content updates, edit_type updates, edit_status updates with
  | None, None, None => (getBugById d bugId, d)
  | _, _, _ =>
      let d' := set_bugs
                  (List.map (fun b => if Bug.id b =? bugId
                                      then applyEdit now updates b else b)
                            (bugs d)) d in
      (getBugById d' bugId, d')
  end.

(** [DELETE FROM bug_updates WHERE bug_id = ?] then
    [DELETE FROM bugs WHERE id = ?]. The AUTOINCREMENT counters stay. *)
Definition deleteBug (d : Database) (bugId : Z) : bool * Database :=
  match getBugById d bugId with
  | None => (false, d)
  | Some _ =>
      (true,
       mkDb (List.filter (fun b => negb (Bug.id b =? bugId)) (bugs d)) (bugs_seq d)
            (List.filter (fun u => negb (BugUpdate.bug_id u =? bugId)) (bug_updates d))
            (bug_updates_seq d) (scan_state d) (monitored_channels d) (foreign_keys d))
  end.

(** The first DELETE has one [?] for each bug of the channel, and a
    statement takes at most [maxVariables] parameters
    (SQLITE_MAX_VARIABLE_NUMBER of the build): beyond that preparing it
    throws, before anything is deleted. The value returned is the
    [changes] of the second DELETE. *)
Definition deleteBugsByChannel (maxVariables : nat) (d : Database)
    (channelId : Snowflake) : Result Z :=
  let bugIds := List.map Bug.id
                  (List.filter (fun b => Bug.channel_id b =? channelId) (bugs d)) in
  match bugIds with
  | [] => Ok 0 d
  | _ =>
      if (maxVariables <? length bugIds)%nat then Throw
      else
        let updates := List.filter
                         (fun u => negb (List.existsb (Z.eqb (BugUpdate.bug_id u)) bugIds))
                         (bug_updates d) in
        let kept := List.filter (fun b => negb (Bug.channel_id b =? channelId)) (bugs d) in
        Ok (Z.of_nat (length (bugs d) - length kept))
           (mkDb kept (bugs_seq d) updates (bug_updates_seq d) (scan_state d)
                 (monitored_channels d) (foreign_keys d))
  end.

(** The [options] of [getAllBugs]. Each filter is applied [if] its field
    is truthy: [None] is a field that is [undefined] or, for [channelId],
    the empty string; for [limit], [NaN]. *)
Record BugQuery := mkBugQuery {
  query_status : option Status;
  query_type : option BugType;
  query_channelId : option Snowflake;
  query_limit : option Z
}.

Definition selected (options : BugQuery) (b : Bug.t) : bool :=
  match query_status options with
  | Some st => Status_eqb (Bug.status b) st
  | None => true
  end
  && match query_type options with
     | Some ty => BugType_eqb (Bug.type b) ty
     | None => true
     end
  && match query_channelId options with
     | Some channelId => Bug.channel_id b =? channelId
     | None => true
     end.

(** [ORDER BY created_at DESC], then [LIMIT ?] when [options.limit] is
    truthy: a limit of 0 is no limit, and so is, to SQLite, a negative
    one. *)
Definition getAllBugs (d : Database) (options : BugQuery) : list Bug.t :=
  let rows := orderByDesc Bug.created_at (List.filter (selected options) (bugs d)) in
  match query_limit options with
  | Some n => if n =? 0 then rows
              else if n <? 0 then rows
              else take (Z.to_nat n) rows
  | None => rows
  end.

Definition getTotalUpdateCount (d : Database) : Z :=
  Z.of_nat (length (bug_updates d)).

Module Stats.
Record counts := mkCounts {
  total : Z;
  open : Z;
  fixed : Z
}.

Record t := mk {
  all : counts;          (* the fields total, open and fixed of the result *)
  bugs : counts;
  requests : counts
}.
End Stats.

(** [SUM(CASE WHEN p THEN 1 ELSE 0 END)], read through [|| 0]. *)
Definition sumWhen (p : Bug.t -> bool) (d : Database) : Z :=
  Z.of_nat (length (List.filter p (bugs d))).

Definition getStats (d : Database) : Stats.t :=
  let isType ty (b : Bug.t) := BugType_eqb (Bug.type b) ty in
  let hasStatus st (b : Bug.t) := Status_eqb (Bug.status b) st in
  Stats.mk
    (Stats.mkCounts (Z.of_nat (length (bugs d)))
                    (sumWhen (hasStatus Open) d) (sumWhen (hasStatus Fixed) d))
    (Stats.mkCounts (sumWhen (isType TBug) d)
                    (sumWhen (fun b => isType TBug b && hasStatus Open b) d)
                    (sumWhen (fun b => isType TBug b && hasStatus Fixed b) d))
    (Stats.mkCounts (sumWhen (isType TRequest) d)
                    (sumWhen (fun b => isType TRequest b && hasStatus Open b) d)
                    (sumWhen (fun b => isType TRequest b && hasStatus Fixed b) d)).

(** *** Monitored channels

    Of a row of [monitored_channels] the store of this embedding keeps the
    [channel_id], the column under the UNIQUE constraint and the one that
    [getAllMonitoredChannelIds] and [isChannelMonitored] read. *)

Definition set_monitored_channels (cs : list Snowflake) (d : Database) : Database :=
  mkDb (bugs d) (bugs_seq d) (bug_updates d) (bug_updates_seq d) (scan_state d)
       cs (foreign_keys d).

Definition isChannelMonitored (d : Database) (channelId : Snowflake) : bool :=
  List.existsb (fun c => c =? channelId) (monitored_channels d).

(** [false] on SQLITE_CONSTRAINT_UNIQUE. *)
Definition addMonitoredChannel (d : Database) (channelId : Snowflake)
  : bool * Database :=
  if List.existsb (fun c => c =? channelId) (monitored_channels d)
  then (false, d)
  else (true, set_monitored_channels (monitored_channels d ++ [channelId]) d).

(** [result.changes > 0] *)
Definition removeMonitoredChannel (d : Database) (channelId : Snowflake)
  : bool * Database :=
  let kept := List.filter (fun c => negb (c =? channelId)) (monitored_channels d) in
  ((length kept <? length (monitored_channels d))%nat, set_monitored_channels kept d).

(** ** The channel commands ([bot.ts]) *)

(** What the three channel commands read of the interaction:
    [interaction.options.get('channel')?.channel], by its id, and
    [interaction.guildId]; [delivered] tells whether [interaction.reply]
    resolves. *)
Record Interaction := mkInteraction {
  option_channel : option Snowflake;
  interaction_guildId : option Snowflake;
  delivered : bool
}.

(** The replies, by the sentence sent. *)
Inductive CommandReply :=
| InvalidChannel
| NowMonitoring (scan : HistoryStats)
| AlreadyMonitored
| StoppedMonitoring
| WasNotMonitored
| RemovedAndDeleted (bugsDeleted : Z)
| NothingRecorded.

(** [await interaction.reply(...)]: a rejection leaves the handler. *)
Definition reply (interaction : Interaction) (r : CommandReply) (s : Bot)
  : Outcome CommandReply :=
  if delivered interaction then Done r s else Raised s.

(** The scan of the last 300 messages starts once the first reply is out
    (a rejected reply leaves the handler with the channel added and not
    scanned); its counts go into the follow-up, which [NowMonitoring]
    carries. *)
Definition handleAddChannel (e : Env) (now : Timestamp) (interaction : Interaction)
    (s : Bot) : Outcome CommandReply :=
  match option_channel interaction, interaction_guildId interaction with
  | Some channelId, Some _ =>
      let (success, d) := addMonitoredChannel (db s) channelId in
      let s := set_db d s in
      if success then
        if delivered interaction then
          let (stats, s) := scanChannelHistory e now channelId 300 s in
          Done (NowMonitoring stats) s
        else Raised s
      else reply interaction AlreadyMonitored s
  | _, _ => reply interaction InvalidChannel s
  end.

Definition handleRemoveChannel (interaction : Interaction) (s : Bot)
  : Outcome CommandReply :=
  match option_channel interaction with
  | None => reply interaction InvalidChannel s
  | Some channelId =>
      let (success, d) := removeMonitoredChannel (db s) channelId in
      reply interaction (if success then StoppedMonitoring else WasNotMonitored)
            (set_db d s)
  end.

Definition handleDeleteChannel (maxVariables : nat) (interaction : Interaction)
    (s : Bot) : Outcome CommandReply :=
  match option_channel interaction with
  | None => reply interaction InvalidChannel s
  | Some channelId =>
      let (wasMonitored, d) := removeMonitoredChannel (db s) channelId in
      match deleteBugsByChannel maxVariables d channelId with
      | Throw => Raised (set_db d s)
      | Ok bugsDeleted d =>
          reply interaction
                (if wasMonitored || (0 <? bugsDeleted)
                 then RemovedAndDeleted bugsDeleted else NothingRecorded)
                (set_db d s)
      end
  end.

(** ** The dashboard server ([server.ts]): the routes that write *)

Record ServerConfig := mkServerConfig {
  apiSecret : option Js.str;
  adminPassword : option Js.str;
  dashboardPassword : option Js.str
}.

(** A field of [req.body] as far as the routes tell values apart: a
    string, or a value of another type, [null] included. A field that is
    absent is [None]. *)
Inductive BodyField :=
| IsString (s : Js.str)
| NotString.

(** What these routes read of a request whose body is a JSON object: two
    headers, [parseInt(req.params.id)] ([None] when it is [NaN]) and three
    fields of the body. *)
Record Request := mkRequest {
  authorization : option Js.str;
  x_admin_password : option Js.str;
  params_id : option Z;
  body_content : option BodyField;
  body_type : option BodyField;
  body_status : option BodyField
}.

(** The answers, by status code and error message; [Success] is
    [{ success: true }] and [BugJson] the bug as JSON. *)
Inductive Response :=
| Success
| BugJson (bug : Bug.t)
| Unauthorized
| InvalidStatus
| InvalidType
| EmptyContent
| BugNotFound.

(** [if (!config.x)]: a secret that is not set or is the empty string is
    no secret. *)
Definition configured (secret : option Js.str) : option Js.str :=
  match secret with
  | Some (c :: r) => Some (c :: r)
  | _ => None
  end.

Definition headerIs (header : option Js.str) (value : Js.str) : bool :=
  match header with
  | Some given => Js.eqb given value
  | None => false
  end.

Definition checkAdminAuth (config : ServerConfig) (req : Request) : bool :=
  match configured (adminPassword config) with
  | None => true
  | Some password => headerIs (x_admin_password req) password
  end.

(** [config.apiSecret && botAuth === `Bearer ${config.apiSecret}`] *)
Definition isBotAuthed (config : ServerConfig) (req : Request) : bool :=
  match configured (apiSecret config) with
  | None => false
  | Some secret => headerIs (authorization req) (Js.lit "Bearer " ++ secret)
  end.

(** [['open', 'fixed'].includes(status)] and [['bug', 'request'].includes(type)] *)
Definition statusOfField (field : option BodyField) : option Status :=
  match field with
  | Some (IsString s) => if Js.eqb s (Js.lit "open") then Some Open
                         else if Js.eqb s (Js.lit "fixed") then Some Fixed
                         else None
  | _ => None
  end.

Definition typeOfField (field : option BodyField) : option BugType :=
  match field with
  | Some (IsString s) => if Js.eqb s (Js.lit "bug") then Some TBug
                         else if Js.eqb s (Js.lit "request") then Some TRequest
                         else None
  | _ => None
  end.

(** [PATCH /api/bugs/:id]. An id that is [NaN] matches no row. *)
Definition patchBugStatus (config : ServerConfig) (now : Timestamp) (req : Request)
    (d : Database) : Response * Database :=
  if negb (isBotAuthed config req) && negb (checkAdminAuth config req)
  then (Unauthorized, d)
  else
    match statusOfField (body_status req) with
    | None => (InvalidStatus, d)
    | Some status =>
        (Success,
         match params_id req with
         | Some bugId => updateBugStatus now d bugId status
         | None => d
         end)
    end.

(** [PUT /api/admin/bugs/:id]: the three fields are checked in turn, each
    only when it is given, and the edit is made once all have passed. *)
Definition putAdminBug (config : ServerConfig) (now : Timestamp) (req : Request)
    (d : Database) : Response * Database :=
  if negb (checkAdminAuth config req) then (Unauthorized, d)
  else
    let content :=
      match body_content req with
      | None => Some None
      | Some (IsString c) => match Js.trim c with
                             | [] => None
                             | trimmed => Some (Some trimmed)
                             end
      | Some NotString => None
      end in
    match content with
    | None => (EmptyContent, d)
    | Some content =>
        match body_type req, typeOfField (body_type req) with
        | Some _, None => (InvalidType, d)
        | _, type =>
            match body_status req, statusOfField (body_status req) with
            | Some _, None => (InvalidStatus, d)
            | _, status =>
                let (bug, d) :=
                  match params_id req with
                  | Some bugId => updateBug now d bugId (mkBugEdit content type status)
                  | None => (None, d)
                  end in
                match bug with
                | Some bug => (BugJson bug, d)
                | None => (BugNotFound, d)
                end
            end
        end
    end.

(** [DELETE /api/admin/bugs/:id] *)
Definition deleteAdminBug (config : ServerConfig) (req : Request) (d : Database)
  : Response * Database :=
  if negb (checkAdminAuth config req) then (Unauthorized, d)
  else
    let (deleted, d) := match params_id req with
                        | Some bugId => deleteBug d bugId
                        | None => (false, d)
                        end in
    (if deleted then Success else BugNotFound, d).

(** ** Notions used in the further statements *)

(** An answer that reports a failure. *)
Definition refused (r : Response) : bool :=
  match r with
  | Success | BugJson _ => false
  | _ => true
  end.

(** The counter of [getStats] for a status and a type, [None] being any. *)
Definition counter (st : option Status) (ty : option BugType) (s : Stats.t) : Z :=
  let c := match ty with
           | None => Stats.all s
           | Some TBug => Stats.bugs s
           | Some TRequest => Stats.requests s
           end in
  match st with
  | None => Stats.total c
  | Some Open => Stats.open c
  | Some Fixed => Stats.fixed c
  end.

(** No channel's cache of recent messages is longer than the bound. *)
Definition cacheBounded (s : Bot) : Prop :=
  forall channelId recent,
    recentMessages s !! channelId = Some recent ->
    (length recent <= MAX_RECENT_MESSAGES)%nat.

(** A bug row and an update row without what the core rewrites on rows
    that exist: the status, [updated_at] and the reactions of a bug, the
    reactions of an update. *)
Definition report (b : Bug.t) : Bug.t :=
  Bug.with_reactions [] (Bug.with_status Open 0 b).

Definition posting (u : BugUpdate.t) : BugUpdate.t :=
  BugUpdate.with_reactions [] u.

(** From [d] to [d'] rows were only added, at the end of their tables,
    and the rows of [d] kept what they report. *)
Definition appendOnly (d d' : Database) : Prop :=
  (exists added, List.map report (bugs d') = List.map report (bugs d) ++ added)
  /\ (exists added, List.map posting (bug_updates d')
                    = List.map posting (bug_updates d) ++ added).

(** What a scan of [scanExistingMessages] has counted so far, against the
    store: taken off the rows and the fixed bugs, the counters leave what
    was there when the scan began. *)
Definition balance (st : ScanStats) (d : Database) : Z * Z * Z :=
  (Z.of_nat (length (bugs d)) - bugsFound st,
   Z.of_nat (length (bug_updates d)) - updatesFound st,
   counter (Some Fixed) None (getStats d) - bugsFixed st).

(** The order of a listing by [key], newest first and oldest first. *)
Definition descending {A} (key : A -> Z) (a b : A) : Prop := key b <= key a.
Definition ascending {A} (key : A -> Z) (a b : A) : Prop := key a <= key b.

(** ** Further inputs to run the statements on *)

Module Sample.
Definition side : Snowflake := 8.

(** A message in the side channel. *)
Definition aside (i : Z) (text : Js.str) (ref : option Snowflake) : Message.t :=
  Message.mk i side (Some 1) 51 (Js.lit "bob") false text ref (1000 + i) [].

Definition slow : Message.t := aside 300 (Js.PLAY ++ Js.lit " search is slow") None.
Definition slowToo : Message.t := aside 301 (Js.lit "very slow here") (Some 300).
Definition bare : Message.t := Demo.post 125 (Js.lit " " ++ Js.CHECK ++ Js.lit "  ") None.

(** The first issue of the main channel, seen with a done reaction. *)
Definition issueChecked : Message.t :=
  Message.mk 100 Demo.channel (Some 1) 50 (Js.lit "ann") false
             (Message.content Demo.issue) None 1100
             [mkMessageReaction (Some Js.CHECK) Js.CHECK 1 (Some [Js.lit "bob"])].

(** A bot on both channels, and one whose store lists no channel and whose
    configuration names the main channel. *)
Definition both : Bot :=
  mkBot (mkDb [] 0 [] 0 ∅ [Demo.channel; side] true) ∅ 0.
Definition unlisted : Bot := mkBot (mkDb [] 0 [] 0 ∅ [] true) ∅ 0.
Definition envOnly : Env := mkEnv (Some [Demo.channel]) None (Demo.discord []).

(** Two bugs and a reply in the main channel, a bug and a reply in the
    side channel. *)
Definition board : Bot :=
  Demo.run Demo.noAI 5000 [Demo.issue; Demo.reply; slow; slowToo; Demo.issue2] both.

Definition reacted : Env := mkEnv None None (Demo.discord [issueChecked]).
Definition archive : Env :=
  mkEnv None None (Demo.discord [Demo.doneReply; Demo.reply; Demo.issue]).

(** A server with an admin password and a bot secret, and a request to
    reopen bug 1 that bears neither. *)
Definition locked : ServerConfig :=
  mkServerConfig (Some (Js.lit "s3cret")) (Some (Js.lit "hunter2")) None.
Definition reopen : Request :=
  mkRequest None None (Some 1) None None (Some (IsString (Js.lit "open"))).

(** Ten messages with no marker and no reply, which fill the cache of the
    main channel. *)
Definition note (i : Z) : Message.t := Demo.post (400 + i) (Js.lit "noted") None.
Definition crowded : Bot :=
  Demo.run Demo.noAI 5000 (List.map note [1; 2; 3; 4; 5; 6; 7; 8; 9; 10]) Demo.fresh.

Definition report2 : Bug.t := bugOfMessage Demo.issue2 (Js.lit "bugs") Open.
Definition report1 : Bug.t := bugOfMessage Demo.issue (Js.lit "bugs") Open.
End Sample.

(** ** Proof automation *)

(** Case analysis on a scrutinee of the goal that holds no [match] itself. *)
Ltac break_match :=
  match goal with
  | |- context [match ?x with _ => _ end] =>
      lazymatch x with
      | context [match _ with _ => _ end] => fail
      | _ => destruct x eqn:?
      end
  end.

(** * Properties *)

Section ListFacts.
Context {A : Type}.

Lemma existsb_In_true (f : A -> bool) (l : list A) (x : A) :
  In x l -> f x = true -> List.existsb f l = true.
Proof. intros Hin Hf. apply List.existsb_exists. eauto. Qed.

Lemma find_none_iff (f : A -> bool) (l : list A) :
  List.find f l = None <-> forall x, In x l -> f x = false.
Proof.
  split; [apply List.find_none|].
  induction l as [|a l IH]; simpl; intros H; [reflexivity|].
  rewrite (H a) by auto. apply IH. auto.
Qed.

Lemma find_app_some (f : A -> bool) (l l' : list A) (x : A) :
  List.find f l = Some x -> List.find f (l ++ l') = Some x.
Proof. induction l as [|a l IH]; simpl; [discriminate|]. destruct (f a); auto. Qed.

Lemma find_app_none (f : A -> bool) (l l' : list A) :
  List.find f l = None -> List.find f (l ++ l') = List.find f l'.
Proof. induction l as [|a l IH]; simpl; [reflexivity|]. destruct (f a); [discriminate|auto]. Qed.

Lemma find_map_preserving (f : A -> bool) (g : A -> A) (l : list A) :
  (forall x, f (g x) = f x) ->
  List.find f (List.map g l) = option_map g (List.find f l).
Proof.
  intros Hg. induction l as [|a l IH]; simpl; [reflexivity|].
  rewrite Hg. destruct (f a); [reflexivity|exact IH].
Qed.

Lemma In_insertDesc (key : A -> Z) (x y : A) (l : list A) :
  In y (insertDesc key x l) <-> y = x \/ In y l.
Proof.
  induction l as [|a l IH]; simpl; [intuition|].
  destruct (key a <=? key x); simpl; rewrite ?IH; intuition.
Qed.

Lemma In_orderByDesc (key : A -> Z) (y : A) (l : list A) :
  In y (orderByDesc key l) <-> In y l.
Proof.
  unfold orderByDesc. induction l as [|a l IH]; simpl; [reflexivity|].
  rewrite In_insertDesc, IH. intuition.
Qed.

Lemma In_insertAsc (key : A -> Z) (x y : A) (l : list A) :
  In y (insertAsc key x l) <-> y = x \/ In y l.
Proof.
  induction l as [|a l IH]; simpl; [intuition|].
  destruct (key x <=? key a); simpl; rewrite ?IH; intuition.
Qed.

Lemma In_orderByAsc (key : A -> Z) (y : A) (l : list A) :
  In y (orderByAsc key l) <-> In y l.
Proof.
  unfold orderByAsc. induction l as [|a l IH]; simpl; [reflexivity|].
  rewrite In_insertAsc, IH. intuition.
Qed.
End ListFacts.

Lemma Js_eqb_eq (s t : Js.str) : Js.eqb s t = true <-> s = t.
Proof.
  revert t. induction s as [|a s IH]; intros [|b t]; simpl; try (split; congruence).
  rewrite andb_true_iff, Z.eqb_eq, IH. split; [intros [-> ->]; reflexivity|].
  intros [= -> ->]. auto.
Qed.

Lemma Status_eqb_eq (a b : Status) : Status_eqb a b = true <-> a = b.
Proof. destruct a, b; simpl; split; congruence. Qed.

Lemma classify_NewIssue c : classify c = NewIssue <-> isNewBugReport c = true.
Proof. unfold classify. destruct (isNewBugReport c), (isCompletionMarker c); split; congruence. Qed.

Lemma classify_Completion c :
  classify c = Completion <-> isNewBugReport c = false /\ isCompletionMarker c = true.
Proof.
  unfold classify. destruct (isNewBugReport c), (isCompletionMarker c);
    intuition congruence.
Qed.

Lemma classify_Plain c :
  classify c = Plain <-> isNewBugReport c = false /\ isCompletionMarker c = false.
Proof.
  unfold classify. destruct (isNewBugReport c), (isCompletionMarker c);
    intuition congruence.
Qed.

(** *** Facts about the statements of the store *)

Lemma existsb_find {A} (f : A -> bool) (l : list A) :
  List.existsb f l = match List.find f l with Some _ => true | None => false end.
Proof. induction l as [|a l IH]; simpl; [reflexivity|]. destruct (f a); auto. Qed.

Lemma bugTracked_find d messageId :
  bugTracked d messageId <-> getBugByMessageId d messageId <> None.
Proof.
  unfold bugTracked, getBugByMessageId. split.
  - intros (b & Hin & Hid) Hnone.
    apply (List.find_none _ _ Hnone) in Hin. simpl in Hin.
    apply Z.eqb_neq in Hin. contradiction.
  - destruct (List.find _ _) as [b|] eqn:Hf; [intros _|congruence].
    apply List.find_some in Hf as [Hin Hid]. apply Z.eqb_eq in Hid. eauto.
Qed.

Lemma addBug_tracked d bug :
  bugTracked d (Bug.discord_message_id bug) -> addBug d bug = Ok None d.
Proof.
  intros (b & Hin & Hid). unfold addBug.
  rewrite (existsb_In_true _ _ b Hin); [reflexivity|]. now apply Z.eqb_eq.
Qed.

Lemma addBug_cases d bug :
  (bugTracked d (Bug.discord_message_id bug) /\ addBug d bug = Ok None d) \/
  (~ bugTracked d (Bug.discord_message_id bug) /\
   addBug d bug = Ok (getBugById (withBug d bug) (bugs_seq d + 1)) (withBug d bug)).
Proof.
  destruct (getBugByMessageId d (Bug.discord_message_id bug)) as [b|] eqn:Hf.
  - left. assert (bugTracked d (Bug.discord_message_id bug)) as Ht
      by (apply bugTracked_find; congruence).
    split; [exact Ht|]. now apply addBug_tracked.
  - right. split; [rewrite bugTracked_find; congruence|].
    unfold addBug. rewrite existsb_find.
    unfold getBugByMessageId in Hf. rewrite Hf. reflexivity.
Qed.

Lemma addBug_never_throws d bug : addBug d bug <> Throw.
Proof. destruct (addBug_cases d bug) as [[_ ->]|[_ ->]]; discriminate. Qed.

Lemma getBugByMessageId_withBug d bug :
  ~ bugTracked d (Bug.discord_message_id bug) ->
  getBugByMessageId (withBug d bug) (Bug.discord_message_id bug)
  = Some (Bug.with_id (bugs_seq d + 1) bug).
Proof.
  intros Hn. unfold getBugByMessageId, withBug. simpl.
  rewrite find_app_none.
  - simpl. now rewrite Z.eqb_refl.
  - destruct (List.find _ _) eqn:Hf; [|reflexivity].
    exfalso. apply Hn. apply bugTracked_find. unfold getBugByMessageId. congruence.
Qed.

Lemma statusOf_withBug d bug i st :
  statusOf d i = Some st -> statusOf (withBug d bug) i = Some st.
Proof.
  unfold statusOf, getBugById, withBug. simpl.
  destruct (List.find _ (bugs d)) as [b|] eqn:Hf; [|discriminate].
  intros H. now rewrite (find_app_some _ _ _ _ Hf).
Qed.

Lemma updateTracked_find d messageId :
  updateTracked d messageId <->
  List.find (fun u => BugUpdate.discord_message_id u =? messageId) (bug_updates d) <> None.
Proof.
  unfold updateTracked. split.
  - intros (u & Hin & Hid) Hnone.
    apply (List.find_none _ _ Hnone) in Hin. simpl in Hin.
    apply Z.eqb_neq in Hin. contradiction.
  - destruct (List.find _ _) as [u|] eqn:Hf; [intros _|congruence].
    apply List.find_some in Hf as [Hin Hid]. apply Z.eqb_eq in Hid. eauto.
Qed.

Lemma bugExists_find d i : bugExists d i <-> getBugById d i <> None.
Proof.
  unfold bugExists, getBugById. split.
  - intros (b & Hin & Hid) Hnone.
    apply (List.find_none _ _ Hnone) in Hin. simpl in Hin.
    apply Z.eqb_neq in Hin. contradiction.
  - destruct (List.find _ _) as [b|] eqn:Hf; [intros _|congruence].
    apply List.find_some in Hf as [Hin Hid]. apply Z.eqb_eq in Hid. eauto.
Qed.

Lemma addBugUpdate_tracked d update :
  updateTracked d (BugUpdate.discord_message_id update) ->
  addBugUpdate d update = Ok None d.
Proof.
  intros (u & Hin & Hid). unfold addBugUpdate.
  rewrite (existsb_In_true _ _ u Hin); [reflexivity|]. now apply Z.eqb_eq.
Qed.

Lemma addBugUpdate_untracked d update :
  ~ updateTracked d (BugUpdate.discord_message_id update) ->
  bugExists d (BugUpdate.bug_id update) ->
  addBugUpdate d update
  = Ok (Some (BugUpdate.with_id (bug_updates_seq d + 1) update)) (withUpdate d update).
Proof.
  intros Hn (b & Hin & Hid). unfold addBugUpdate.
  rewrite existsb_find.
  destruct (List.find _ (bug_updates d)) eqn:Hf.
  { exfalso. apply Hn, updateTracked_find. congruence. }
  rewrite (existsb_In_true _ (bugs d) b Hin) by now apply Z.eqb_eq.
  rewrite andb_false_r. reflexivity.
Qed.

Lemma addBugUpdate_cases d update :
  addBugUpdate d update = Ok None d
  \/ addBugUpdate d update = Throw
  \/ addBugUpdate d update
     = Ok (Some (BugUpdate.with_id (bug_updates_seq d + 1) update)) (withUpdate d update).
Proof.
  unfold addBugUpdate. destruct (List.existsb _ (bug_updates d)); [auto|].
  destruct (_ && _); auto.
Qed.

Lemma getBugById_touchBug ts bugId bs i :
  List.find (fun b => Bug.id b =? i) (touchBug ts bugId bs)
  = option_map (fun b => if Bug.id b =? bugId then Bug.with_updated_at ts b else b)
               (List.find (fun b => Bug.id b =? i) bs).
Proof.
  unfold touchBug. apply find_map_preserving.
  intros b. destruct (Bug.id b =? bugId); reflexivity.
Qed.

Lemma statusOf_withUpdate d update i :
  statusOf (withUpdate d update) i = statusOf d i.
Proof.
  unfold statusOf, getBugById, withUpdate. simpl.
  rewrite getBugById_touchBug.
  destruct (List.find _ (bugs d)) as [b|]; simpl; [|reflexivity].
  destruct (Bug.id b =? _); reflexivity.
Qed.

Lemma statusOf_addBug d bug r d' i st :
  addBug d bug = Ok r d' -> statusOf d i = Some st -> statusOf d' i = Some st.
Proof.
  destruct (addBug_cases d bug) as [[_ ->]|[_ ->]]; intros [= _ <-]; auto.
  apply statusOf_withBug.
Qed.

Lemma statusOf_addBugUpdate d update r d' i :
  addBugUpdate d update = Ok r d' -> statusOf d' i = statusOf d i.
Proof.
  destruct (addBugUpdate_cases d update) as [->|[->| ->]]; intros [= _ <-];
    auto using statusOf_withUpdate.
Qed.

Lemma getBugById_updateBugStatus now d bugId st i :
  getBugById (updateBugStatus now d bugId st) i
  = option_map (fun b => if Bug.id b =? bugId then Bug.with_status st now b else b)
               (getBugById d i).
Proof.
  unfold getBugById, updateBugStatus. simpl. apply find_map_preserving.
  intros b. destruct (Bug.id b =? bugId); reflexivity.
Qed.

Lemma statusOf_updateBugStatus now d bugId st i :
  statusOf (updateBugStatus now d bugId st) i
  = if i =? bugId then option_map (fun _ => st) (statusOf d i) else statusOf d i.
Proof.
  unfold statusOf. rewrite getBugById_updateBugStatus.
  destruct (getBugById d i) as [b|] eqn:Hf; simpl; [|destruct (i =? bugId); reflexivity].
  apply List.find_some in Hf as [_ Hid]. apply Z.eqb_eq in Hid. subst i.
  destruct (Bug.id b =? bugId); reflexivity.
Qed.

Lemma hasCheckReaction_In rs :
  (exists r, In r rs /\ emoji r = Js.CHECK) -> hasCheckReaction rs = true.
Proof.
  intros (r & Hin & He). unfold hasCheckReaction.
  apply (existsb_In_true _ _ r Hin). rewrite He. reflexivity.
Qed.

Lemma addBug_recordedFixed d bug r d' :
  Bug.status bug = Fixed ->
  addBug d bug = Ok r d' ->
  recordedFixed d d' (Bug.discord_message_id bug).
Proof.
  intros Hfix Hadd.
  destruct (addBug_cases d bug) as [[Ht He]|[Hn He]];
    rewrite He in Hadd; injection Hadd as _ <-.
  - split; [contradiction|auto].
  - split.
    + intros _. eexists. split; [reflexivity|].
      split; [now apply getBugByMessageId_withBug|exact Hfix].
    + intros b Hin _ Hopen. simpl in Hin. apply in_app_or in Hin as [Hin|[<-|[]]]; [exact Hin|].
      simpl in Hopen. congruence.
Qed.

Lemma handleMessage_completion e now message s :
  accepted e s message ->
  classify (Message.content message) = Completion ->
  handleMessage e now message s = handleCompletion e now message s.
Proof.
  intros [Hb Hm] Hc. apply classify_Completion in Hc as [Hn Hc].
  unfold handleMessage. now rewrite Hb, Hm, Hn, Hc.
Qed.

Lemma handleMessage_plain e now message s :
  accepted e s message ->
  classify (Message.content message) = Plain ->
  handleMessage e now message s =
  match Message.reference message with
  | Some _ => bind (handleReply e message s)
                   (fun handled s => if handled then Done tt s
                                     else handleContextMessage e message s)
  | None => handleContextMessage e message s
  end.
Proof.
  intros [Hb Hm] Hc. apply classify_Plain in Hc as [Hn Hc].
  unfold handleMessage. now rewrite Hb, Hm, Hn, Hc.
Qed.

Lemma getOpenBugs_In d b : In b (getOpenBugs d) <-> In b (bugs d) /\ Bug.status b = Open.
Proof.
  unfold getOpenBugs. rewrite In_orderByDesc, List.filter_In, Status_eqb_eq. reflexivity.
Qed.

Lemma In_bugExists d b : In b (bugs d) -> bugExists d (Bug.id b).
Proof. intros H. exists b. auto. Qed.

Lemma statusOf_markFixed now d bugId :
  bugExists d bugId -> statusOf (updateBugStatus now d bugId Fixed) bugId = Some Fixed.
Proof.
  intros H. apply bugExists_find in H.
  rewrite statusOf_updateBugStatus, Z.eqb_refl. unfold statusOf.
  destruct (getBugById d bugId); [reflexivity|contradiction].
Qed.

Lemma findExactOrCloseMatch_singleton text b :
  findExactOrCloseMatch text (contents [b]) = Some (Bug.id b)
  \/ findExactOrCloseMatch text (contents [b]) = None.
Proof.
  unfold findExactOrCloseMatch. simpl. destruct (closeMatch _ _); simpl; auto.
Qed.

Lemma bot_requests_add_0 (s : Bot) :
  mkBot (db s) (recentMessages s) (requests s + 0) = s.
Proof. destruct s. simpl. now rewrite Nat.add_0_r. Qed.

Lemma find_app_hit {A} (f : A -> bool) (pre post : list A) (y : A) :
  (forall x, In x pre -> f x = false) -> f y = true ->
  List.find f (pre ++ y :: post) = Some y.
Proof.
  intros Hpre Hy. rewrite find_app_none by now apply find_none_iff.
  simpl. now rewrite Hy.
Qed.

Lemma find_contents (f : Js.str -> bool) (pre post : list Bug.t) (y : Bug.t) :
  (forall x, In x pre -> f (Bug.content x) = false) -> f (Bug.content y) = true ->
  List.find (fun b => f (snd b)) (contents (pre ++ y :: post))
  = Some (Bug.id y, Bug.content y).
Proof.
  intros Hpre Hy. unfold contents. rewrite List.map_app. simpl.
  apply find_app_hit; [|exact Hy].
  intros x Hin. apply List.in_map_iff in Hin as (b & <- & Hin). simpl. auto.
Qed.

Lemma set_db_same (s : Bot) : set_db (db s) s = s.
Proof. now destruct s. Qed.

Lemma resolveReply_bugExists d refMessageId bug :
  resolveReply d refMessageId = Some bug -> In bug (bugs d).
Proof.
  unfold resolveReply, getBugByMessageId, getBugById.
  destruct (List.find _ (bugs d)) as [b|] eqn:Hf.
  - intros [= <-]. now apply List.find_some in Hf.
  - destruct (getBugIdFromUpdateMessage d refMessageId) as [j|]; [|discriminate].
    intros H. now apply List.find_some in H.
Qed.

Lemma closeReferenced_resolved now d refMessageId bug :
  resolveReply d refMessageId = Some bug -> isOpen bug = true ->
  closeReferenced now d refMessageId = Some (updateBugStatus now d (Bug.id bug) Fixed).
Proof.
  unfold resolveReply, closeReferenced.
  destruct (getBugByMessageId d refMessageId) as [b|].
  - intros [= ->] ->. reflexivity.
  - destruct (getBugIdFromUpdateMessage d refMessageId) as [j|]; [|discriminate].
    intros Hj Hopen. rewrite Hj, Hopen.
    unfold getBugById in Hj. apply List.find_some in Hj as [_ Hid].
    apply Z.eqb_eq in Hid. now rewrite Hid.
Qed.

Lemma getRecentlyActiveBugs_In d channelId limit b :
  In b (getRecentlyActiveBugs d channelId limit) -> In b (bugs d).
Proof.
  unfold getRecentlyActiveBugs. intros H.
  assert (In b (orderByDesc Bug.updated_at
                  (List.filter (fun b => (Bug.channel_id b =? channelId)
                                         && Status_eqb (Bug.status b) Open) (bugs d)))) as H'.
  { revert H. generalize (orderByDesc Bug.updated_at
       (List.filter (fun b => (Bug.channel_id b =? channelId)
                              && Status_eqb (Bug.status b) Open) (bugs d))).
    intros l. revert limit. induction l as [|x l IH]; intros [|n]; simpl; try tauto.
    intros [->|H]; eauto. }
  apply In_orderByDesc, List.filter_In in H'. tauto.
Qed.

Lemma addToRecentMessages_recorded message bugId s s0 :
  recentMessages s0 = recentMessages s ->
  recorded s (addToRecentMessages (Message.channelId message) message bugId s0)
           message bugId.
Proof.
  intros Hsame. unfold recorded, addToRecentMessages. cbn [recentMessages].
  rewrite Hsame. split; [|intros c Hc; now rewrite lookup_insert_ne by congruence].
  rewrite lookup_insert_eq. f_equal. fold (cacheEntry message bugId).
  generalize (default [] (recentMessages s !! Message.channelId message)) as before.
  intros before. rewrite length_app. cbn [length].
  destruct before as [|m before]; [reflexivity|]. cbn [length app].
  destruct (MAX_RECENT_MESSAGES <=? S (length before))%nat eqn:Hfull.
  - apply Nat.leb_le in Hfull.
    assert ((MAX_RECENT_MESSAGES <? S (length before) + 1)%nat = true) as ->
      by (apply Nat.ltb_lt; lia).
    reflexivity.
  - apply Nat.leb_gt in Hfull.
    assert ((MAX_RECENT_MESSAGES <? S (length before) + 1)%nat = false) as ->
      by (apply Nat.ltb_ge; lia).
    reflexivity.
Qed.

Lemma handleContextMessage_spec e message s :
  exists s',
    handleContextMessage e message s = Done tt s'
    /\ (cachedOnly s s' message
        \/ exists bugId, verdict e s message = Some bugId
                         /\ attachedTo s s' message bugId)
    /\ (verdict e s message = None -> cachedOnly s s' message).
Proof.
  unfold handleContextMessage, verdict, candidates, recentContext.
  destruct (analyzer e) as [a|];
    [|eexists; split; [reflexivity|split; [left|intros _]; (split; [reflexivity|now apply addToRecentMessages_recorded])]].
  destruct (getRecentlyActiveBugs (db s) (Message.channelId message) 5)
    as [|c cs] eqn:Hcand;
    [eexists; split; [reflexivity|split; [left|intros _]; (split; [reflexivity|now apply addToRecentMessages_recorded])]|].
  rewrite <- Hcand.
  destruct (shouldAddToBug a _ _ _ _) as [result sent]. simpl fst.
  destruct (shouldAdd result);
    [|eexists; split; [reflexivity|split; [left|intros _]; (split; [reflexivity|now apply addToRecentMessages_recorded])]].
  destruct (add_bugId result) as [bugId|]; simpl truthy;
    [|eexists; split; [reflexivity|split; [left|intros _]; (split; [reflexivity|now apply addToRecentMessages_recorded])]].
  destruct (bugId =? 0);
    [eexists; split; [reflexivity|split; [left|intros _]; (split; [reflexivity|now apply addToRecentMessages_recorded])]|].
  rewrite existsb_find.
  destruct (List.find _ _) as [target|] eqn:Hfind;
    [|eexists; split; [reflexivity|split; [left|intros _]; (split; [reflexivity|now apply addToRecentMessages_recorded])]].
  apply List.find_some in Hfind as [Hin Hid]. apply Z.eqb_eq in Hid.
  apply getRecentlyActiveBugs_In in Hin.
  simpl db.
  destruct (addBugUpdate_cases (db s) (updateOfMessage message bugId)) as [Hr|[Hr|Hr]].
  - rewrite Hr. eexists. split; [reflexivity|].
    split; [left|intros [=]]; (split; [reflexivity|now apply addToRecentMessages_recorded]).
  - exfalso. unfold addBugUpdate in Hr.
    destruct (List.existsb _ (bug_updates (db s))); [discriminate|].
    rewrite (existsb_In_true _ (bugs (db s)) target Hin) in Hr
      by (simpl; now apply Z.eqb_eq).
    rewrite andb_false_r in Hr. discriminate.
  - rewrite Hr. eexists. split; [reflexivity|].
    split; [right; exists bugId; split; [reflexivity|(split; [reflexivity|now apply addToRecentMessages_recorded])]|intros [=]].
Qed.

(** *** The watermark *)

Lemma scan_state_addBug d bug r d' :
  addBug d bug = Ok r d' -> scan_state d' = scan_state d.
Proof. destruct (addBug_cases d bug) as [[_ ->]|[_ ->]]; now intros [= _ <-]. Qed.

Lemma scan_state_addBugUpdate d update r d' :
  addBugUpdate d update = Ok r d' -> scan_state d' = scan_state d.
Proof.
  destruct (addBugUpdate_cases d update) as [->|[->| ->]]; now intros [= _ <-].
Qed.

Lemma scan_state_closeReferenced now d messageId d' :
  closeReferenced now d messageId = Some d' -> scan_state d' = scan_state d.
Proof.
  unfold closeReferenced. intros H.
  destruct (getBugByMessageId d messageId) as [b|]; [destruct (isOpen b)|];
    try (now injection H as <-);
    (destruct (getBugIdFromUpdateMessage d messageId) as [j|]; [|discriminate];
     destruct (getBugById d j) as [rb|]; [|discriminate];
     destruct (isOpen rb); [|discriminate]; now injection H as <-).
Qed.

Lemma scanMessage_watermark now channelName message st d :
  scan_state (stepDb (scanMessage now channelName message st d)) = scan_state d
  /\ newestMessageId (stepStats (scanMessage now channelName message st d))
     = newestMessageId (seen message st).
Proof.
  unfold scanMessage.
  destruct (Message.author_bot message); [split; reflexivity|].
  destruct (isNewBugReport _).
  { destruct (addBug d _) as [[b|] d'|] eqn:Ha; simpl;
      (split; [|reflexivity]); solve [eapply scan_state_addBug; eassumption|reflexivity]. }
  destruct (isCompletionMarker _).
  { destruct (Message.reference message) as [ref|]; [|split; reflexivity].
    destruct (closeReferenced now d ref) as [d'|] eqn:Hc; [|split; reflexivity].
    split; [eapply scan_state_closeReferenced; eauto|reflexivity]. }
  destruct (Message.reference message) as [ref|]; [|split; reflexivity].
  destruct (resolveReply d ref) as [bug|]; [|split; reflexivity].
  destruct (addBugUpdate d _) as [[u|] d'|] eqn:Ha; simpl;
    (split; [|reflexivity]);
    solve [eapply scan_state_addBugUpdate; eassumption|reflexivity].
Qed.

Lemma newestAbove_seen old message st :
  old < Message.id message -> newestAbove old st -> newestAbove old (seen message st).
Proof.
  intros Hlt Hst n. unfold seen. simpl.
  destruct (newestMessageId st) as [k|] eqn:Hk.
  - destruct (k <? Message.id message); intros [= <-]; [exact Hlt|]. now apply Hst.
  - now intros [= <-].
Qed.

Lemma forEach_scan_watermark now channelName old messages st d :
  (forall m, In m messages -> old < Message.id m) ->
  newestAbove old st ->
  scan_state (stepDb (forEach (scanMessage now channelName) messages st d)) = scan_state d
  /\ newestAbove old (stepStats (forEach (scanMessage now channelName) messages st d)).
Proof.
  revert st d. induction messages as [|m ms IH]; intros st d Hall Hst; simpl; [auto|].
  destruct (scanMessage_watermark now channelName m st d) as [Hs Hn].
  assert (newestAbove old (stepStats (scanMessage now channelName m st d))) as Hst'.
  { intros n. rewrite Hn. apply newestAbove_seen; [apply Hall; now left|exact Hst]. }
  destruct (scanMessage now channelName m st d) as [st' d'|st' d']; simpl in *.
  - destruct (IH st' d') as [IH1 IH2];
      [intros x Hx; apply Hall; now right|exact Hst'|].
    split; [congruence|exact IH2].
  - auto.
Qed.

Lemma forEach_scan_state now channelName messages st d :
  scan_state (stepDb (forEach (scanMessage now channelName) messages st d)) = scan_state d.
Proof.
  revert st d. induction messages as [|m ms IH]; intros st d; simpl; [reflexivity|].
  destruct (scanMessage_watermark now channelName m st d) as [Hs _].
  destruct (scanMessage now channelName m st d) as [st' d'|st' d']; simpl in *; [|exact Hs].
  rewrite IH. exact Hs.
Qed.

Lemma scanPages_scan_state fuel e now channelId channelName afterId st d r :
  scanPages fuel e now channelId channelName afterId st d = Some r ->
  scan_state (stepDb r) = scan_state d.
Proof.
  revert afterId st d. induction fuel as [|fuel IH]; intros afterId st d; simpl; [discriminate|].
  destruct (messages_after (client e) channelId afterId) as [[|m ms]|];
    try (now intros [= <-]).
  pose proof (forEach_scan_state now channelName (sortOldestFirst (m :: ms)) st d) as Hs.
  destruct (forEach _ _ st d) as [st' d'|st' d']; simpl in Hs.
  - destruct (length (m :: ms) <? 100)%nat; [now intros [= <-]|].
    intros H. apply IH in H. congruence.
  - now intros [= <-].
Qed.

Lemma last_In {A} (l : list A) (x : A) : last l = Some x -> In x l.
Proof.
  induction l as [|a [|b l] IH]; simpl; [discriminate|intros [= ->]; auto|].
  intros H. right. apply IH. exact H.
Qed.

Lemma last_nonempty {A} (l : list A) : l <> [] -> exists x, last l = Some x.
Proof.
  induction l as [|a [|b l] IH]; [congruence|eauto|].
  intros _. destruct IH as [x Hx]; [discriminate|]. exists x. exact Hx.
Qed.

Lemma scanPages_newestAbove fuel e now channelId channelName old cursor st d r :
  honoursAfter (client e) channelId ->
  old <= cursor ->
  newestAbove old st ->
  scanPages fuel e now channelId channelName (Some cursor) st d = Some r ->
  newestAbove old (stepStats r).
Proof.
  intros Hhon. revert cursor st d.
  induction fuel as [|fuel IH]; intros cursor st d Hle Hst; simpl; [discriminate|].
  destruct (messages_after (client e) channelId (Some cursor)) as [[|m ms]|] eqn:Hfetch;
    try (now intros [= <-]).
  assert (forall x, In x (sortOldestFirst (m :: ms)) -> cursor < Message.id x) as Hall.
  { intros x Hx. apply In_orderByAsc in Hx. eapply Hhon; eauto. }
  destruct (forEach_scan_watermark now channelName old (sortOldestFirst (m :: ms)) st d)
    as [_ Hnew]; [intros x Hx; specialize (Hall x Hx); lia|exact Hst|].
  destruct (forEach _ _ st d) as [st' d'|st' d']; simpl in Hnew; [|now intros [= <-]].
  destruct (length (m :: ms) <? 100)%nat; [now intros [= <-]|].
  destruct (last_nonempty (sortOldestFirst (m :: ms))) as [x Hx].
  { intros Hnil. assert (In m (sortOldestFirst (m :: ms))) as Hm
      by (apply In_orderByAsc; now left).
    rewrite Hnil in Hm. destruct Hm. }
  rewrite Hx. simpl. apply IH; [|exact Hnew].
  apply last_In in Hx. specialize (Hall x Hx). lia.
Qed.

Lemma historyPages_fuel fuel fuel' e now channelId channelName maxMessages total
      lastMessageId st d :
  maxMessages - total <= Z.of_nat fuel ->
  maxMessages - total <= Z.of_nat fuel' ->
  historyPages fuel e now channelId channelName maxMessages total lastMessageId st d
  = historyPages fuel' e now channelId channelName maxMessages total lastMessageId st d.
Proof.
  revert fuel' total lastMessageId st d.
  induction fuel as [|fuel IH]; intros [|fuel'] total lastMessageId st d H H'; simpl;
    try reflexivity.
  - destruct (total <? maxMessages) eqn:Hlt; [apply Z.ltb_lt in Hlt; lia|reflexivity].
  - destruct (total <? maxMessages) eqn:Hlt; [apply Z.ltb_lt in Hlt; lia|reflexivity].
  - destruct (total <? maxMessages) eqn:Hlt; [|reflexivity]. apply Z.ltb_lt in Hlt.
    destruct (messages_before _ _ _ _) as [[|m ms]|]; try reflexivity.
    destruct (forEach _ _ st d) as [st' d'|st' d']; [|reflexivity].
    destruct (_ <? _) eqn:Hsize; [reflexivity|]. apply Z.ltb_ge in Hsize.
    apply IH; lia.
Qed.

Lemma watermarkKept_refl d channelId : watermarkKept d d channelId.
Proof. intros old t H. exists old, t. split; [exact H|lia]. Qed.

Lemma watermarkKept_trans d1 d2 d3 channelId :
  watermarkKept d1 d2 channelId -> watermarkKept d2 d3 channelId ->
  watermarkKept d1 d3 channelId.
Proof.
  intros H12 H23 old t H. destruct (H12 old t H) as (mid & t' & Hmid & Hle).
  destruct (H23 mid t' Hmid) as (new & t'' & Hnew & Hle'). exists new, t''.
  split; [exact Hnew|lia].
Qed.

Lemma scanChannel_watermarkKept fuel e now opts scanned d d' channelId :
  resumeFromSaved opts = true ->
  honoursAfter (client e) scanned ->
  scanChannel fuel e now opts scanned d = Some d' ->
  watermarkKept d d' channelId.
Proof.
  intros Hres Hhon. unfold scanChannel.
  destruct (channels_fetch (client e) scanned) as [channel|];
    [|intros [= <-]; apply watermarkKept_refl].
  destruct (negb (isTextBased channel)); [intros [= <-]; apply watermarkKept_refl|].
  destruct (scanPages _ _ _ _ _ _ _ _) as [r|] eqn:Hscan; [|discriminate].
  pose proof (scanPages_scan_state _ _ _ _ _ _ _ _ _ Hscan) as Hstate.
  destruct r as [st d1|st d1]; simpl in Hstate; intros [= <-];
    intros old t Hold; unfold getScanState in *.
  - destruct (newestMessageId st) as [newest|] eqn:Hnew;
      [|rewrite Hstate; exists old, t; split; [exact Hold|lia]].
    simpl. rewrite Hstate.
    destruct (decide (scanned = channelId)) as [->|Hne].
    + rewrite lookup_insert_eq. exists newest, now. split; [reflexivity|].
      unfold startingPoint, getScanState in Hscan. rewrite Hres, Hold in Hscan.
      simpl in Hscan.
      apply (scanPages_newestAbove _ _ _ _ _ old) in Hscan;
        [|exact Hhon|lia|intros n [=]].
      specialize (Hscan newest Hnew). simpl in Hscan. lia.
    + rewrite lookup_insert_ne by exact Hne. exists old, t. split; [exact Hold|lia].
  - rewrite Hstate. exists old, t. split; [exact Hold|lia].
Qed.

(** In resume mode, against a client that honours the [after] cursor, a
    completed [scanExistingMessages] leaves the watermark of every channel
    at least where it was. *)
Lemma scanExistingMessages_watermarkKept fuel e now opts s s' channelId :
  resumeFromSaved opts = true ->
  (forall scanned, honoursAfter (client e) scanned) ->
  scanExistingMessages fuel e now opts s = Some s' ->
  watermarkKept (db s) (db s') channelId.
Proof.
  intros Hres Hhon. unfold scanExistingMessages.
  generalize (getMonitoredChannelIds e (db s)). intros l.
  destruct (scanChannels fuel e now opts l (db s)) as [d'|] eqn:Hs; [|discriminate].
  intros [= <-]. simpl. revert Hs. generalize (db s). clear s.
  induction l as [|c l IH]; intros d; simpl;
    [intros [= <-]; apply watermarkKept_refl|].
  destruct (scanChannel fuel e now opts c d) as [d1|] eqn:Hc; [|discriminate].
  intros H. eapply watermarkKept_trans; [|apply IH, H].
  eapply scanChannel_watermarkKept; eauto.
Qed.

(** *** Writes, and what every write preserves *)

Lemma writes_one d d' : write d d' -> writes d d'.
Proof. intros H. eapply writes_step; [exact H|apply writes_refl]. Qed.

Lemma writes_trans d1 d2 d3 : writes d1 d2 -> writes d2 d3 -> writes d1 d3.
Proof.
  induction 1 as [|a b c Hab Hbc IH]; [auto|].
  intros Hc. eapply writes_step; eauto.
Qed.

Lemma bugExists_updateBugStatus now d bugId st i :
  bugExists d i -> bugExists (updateBugStatus now d bugId st) i.
Proof.
  rewrite !bugExists_find, getBugById_updateBugStatus.
  destruct (getBugById d i); simpl; congruence.
Qed.

Lemma closeReferenced_writes now d messageId d' :
  closeReferenced now d messageId = Some d' -> writes d d'.
Proof.
  unfold closeReferenced. intros H.
  destruct (getBugByMessageId d messageId) as [b|]; [destruct (isOpen b)|];
    try (injection H as <-; apply writes_one, write_fixed);
    (destruct (getBugIdFromUpdateMessage d messageId) as [j|]; [|discriminate];
     destruct (getBugById d j) as [rb|]; [|discriminate];
     destruct (isOpen rb); [|discriminate]; injection H as <-;
     apply writes_one, write_fixed).
Qed.

Lemma addBug_writes d bug :
  match addBug d bug with
  | Ok _ d' => writes d d'
  | Throw => False
  end.
Proof.
  destruct (addBug d bug) eqn:Ha; [|now apply addBug_never_throws in Ha].
  eapply writes_one, write_bug; eauto.
Qed.

Lemma addBugUpdate_writes d update :
  bugExists d (BugUpdate.bug_id update) ->
  match addBugUpdate d update with
  | Ok _ d' => writes d d'
  | Throw => False
  end.
Proof.
  intros Hex. destruct (addBugUpdate d update) eqn:Ha.
  - eapply writes_one, write_update; eauto.
  - destruct Hex as (b & Hin & Hid). unfold addBugUpdate in Ha.
    destruct (List.existsb _ (bug_updates d)); [discriminate|].
    rewrite (existsb_In_true _ (bugs d) b Hin) in Ha by now apply Z.eqb_eq.
    rewrite andb_false_r in Ha. discriminate.
Qed.

Lemma createBug_writes e message s :
  exists s', createBug e message s = Done tt s' /\ writes (db s) (db s').
Proof.
  unfold createBug.
  match goal with |- context [addBug ?d ?b] => pose proof (addBug_writes d b) as H end.
  destruct (addBug _ _) as [r d'|]; [|contradiction]. eauto.
Qed.

Lemma matchStandalone_writes e now message s :
  exists s', matchStandalone e now message s = Done tt s' /\ writes (db s) (db s').
Proof.
  unfold matchStandalone.
  assert (forall s0 : Bot, db s0 = db s ->
            exists s', match getOpenBugs (db s) with
                       | [only] => Done tt (markFixed now (Bug.id only) s0)
                       | _ => Done tt s0
                       end = Done tt s' /\ writes (db s) (db s')) as Hfallback.
  { intros s0 H0. destruct (getOpenBugs (db s)) as [|only [|]]; eexists;
      (split; [reflexivity|]); simpl; rewrite ?H0;
      solve [apply writes_refl|apply writes_one, write_fixed]. }
  destruct (getOpenBugs (db s)) as [|b0 rest] eqn:Hopen;
    [eexists; split; [reflexivity|apply writes_refl]|].
  destruct (analyzer e) as [a|]; [|now apply Hfallback].
  destruct (truthy (findExactOrCloseMatch _ _)) as [exactMatch|].
  { eexists; split; [reflexivity|apply writes_one, write_fixed]. }
  destruct (matchCompletionToBug a _ _) as [result sent].
  destruct (truthy (match_bugId result)) as [bugId|]; [|now apply Hfallback].
  destruct (negb (isLow (match_confidence result))); [|now apply Hfallback].
  eexists; split; [reflexivity|apply writes_one, write_fixed].
Qed.

Lemma handleCompletion_writes e now message s :
  exists s', handleCompletion e now message s = Done tt s' /\ writes (db s) (db s').
Proof.
  unfold handleCompletion.
  destruct (Message.reference message) as [ref|]; [|apply matchStandalone_writes].
  destruct (closeReferenced now (db s) ref) as [d'|] eqn:Hc; [|apply matchStandalone_writes].
  eexists; split; [reflexivity|]. simpl. eapply closeReferenced_writes; eauto.
Qed.

Lemma handleReply_writes e message s :
  exists handled s', handleReply e message s = Done handled s' /\ writes (db s) (db s').
Proof.
  unfold handleReply.
  destruct (Message.reference message) as [ref|];
    [|do 2 eexists; split; [reflexivity|apply writes_refl]].
  destruct (resolveReply (db s) ref) as [bug|] eqn:Hres;
    [|do 2 eexists; split; [reflexivity|apply writes_refl]].
  pose proof (addBugUpdate_writes (db s) (updateOfMessage message (Bug.id bug))) as H.
  destruct (addBugUpdate _ _) as [[u|] d'|];
    try (do 2 eexists; split; [reflexivity|]; simpl; apply H, In_bugExists;
         eapply resolveReply_bugExists; eauto).
  exfalso. apply H, In_bugExists. eapply resolveReply_bugExists; eauto.
Qed.

Lemma handleContextMessage_writes e message s :
  exists s', handleContextMessage e message s = Done tt s' /\ writes (db s) (db s').
Proof.
  unfold handleContextMessage.
  destruct (analyzer e) as [a|]; [|eexists; split; [reflexivity|apply writes_refl]].
  destruct (getRecentlyActiveBugs (db s) (Message.channelId message) 5)
    as [|c cs] eqn:Hcand; [eexists; split; [reflexivity|apply writes_refl]|].
  rewrite <- Hcand.
  destruct (shouldAddToBug a _ _ _ _) as [result sent].
  destruct (if shouldAdd result then truthy (add_bugId result) else None) as [bugId|];
    [|eexists; split; [reflexivity|apply writes_refl]].
  destruct (List.find _ _) as [target|] eqn:Hfind;
    [|eexists; split; [reflexivity|apply writes_refl]].
  apply List.find_some in Hfind as [Hin Hid]. apply Z.eqb_eq in Hid.
  apply getRecentlyActiveBugs_In in Hin. simpl db.
  pose proof (addBugUpdate_writes (db s) (updateOfMessage message bugId)) as H.
  destruct (addBugUpdate _ _) as [[u|] d'|];
    try (eexists; split; [reflexivity|]; simpl; apply H; exists target; auto).
  exfalso. apply H. exists target. auto.
Qed.

Lemma handleMessage_writes e now message s :
  exists s', handleMessage e now message s = Done tt s' /\ writes (db s) (db s').
Proof.
  unfold handleMessage.
  destruct (Message.author_bot message); [eexists; split; [reflexivity|apply writes_refl]|].
  destruct (negb _); [eexists; split; [reflexivity|apply writes_refl]|].
  destruct (isNewBugReport _).
  { destruct (createBug_writes e message s) as (s' & -> & Hw). simpl. eauto. }
  destruct (isCompletionMarker _); [apply handleCompletion_writes|].
  destruct (Message.reference message) as [ref|]; [|apply handleContextMessage_writes].
  destruct (handleReply_writes e message s) as (handled & s1 & -> & Hw1). simpl.
  destruct handled; [eauto|].
  destruct (handleContextMessage_writes e message s1) as (s2 & -> & Hw2).
  eexists; split; [reflexivity|]. eapply writes_trans; eauto.
Qed.

Lemma updateReactionsIn_writes e messageId channelIds d :
  writes d (updateReactionsIn e messageId channelIds d).
Proof.
  induction channelIds as [|c cs IH]; simpl; [apply writes_refl|].
  destruct (channels_fetch (client e) c); [|exact IH].
  destruct (messages_fetch (client e) c messageId); [|exact IH].
  destruct (getBugByMessageId d messageId);
    apply writes_one; [apply write_bug_reactions|apply write_update_reactions].
Qed.

Lemma onMessageReactionAdd_writes e now emojiName channelId messageId s :
  writes (db s) (db (onMessageReactionAdd e now emojiName channelId messageId s)).
Proof.
  unfold onMessageReactionAdd, handleReactionAdd.
  destruct (isMonitoredChannel e (db s) channelId); [|apply writes_refl].
  destruct (isCheckName emojiName);
    [destruct (closeReferenced now (db s) messageId) eqn:Hc|]; simpl;
    solve [eapply closeReferenced_writes; eauto|apply updateReactionsIn_writes].
Qed.

Lemma onMessageReactionRemove_writes e channelId messageId s :
  writes (db s) (db (onMessageReactionRemove e channelId messageId s)).
Proof.
  unfold onMessageReactionRemove.
  destruct (isMonitoredChannel e (db s) channelId); [|apply writes_refl].
  apply updateReactionsIn_writes.
Qed.

Lemma syncUpdates_writes e now bug updates d :
  writes d (syncUpdates e now bug updates d).
Proof.
  revert d. induction updates as [|u us IH]; intros d; simpl; [apply writes_refl|].
  destruct (messages_fetch _ _ _) as [m|]; [|apply IH].
  destruct (hasCheckReaction _).
  - eapply writes_step; [apply write_fixed|apply writes_one, write_update_reactions].
  - eapply writes_step; [apply write_update_reactions|apply IH].
Qed.

Lemma syncBug_writes e now bug d : writes d (syncBug e now bug d).
Proof.
  unfold syncBug.
  destruct (channels_fetch _ _) as [channel|]; [|apply writes_refl].
  destruct (negb _); [apply writes_refl|].
  destruct (messages_fetch _ _ _) as [m|]; [|apply syncUpdates_writes].
  destruct (hasCheckReaction _).
  - eapply writes_step; [apply write_fixed|apply writes_one, write_bug_reactions].
  - eapply writes_step; [apply write_bug_reactions|apply syncUpdates_writes].
Qed.

Lemma syncReactionsOnOpenBugs_writes e now s :
  writes (db s) (db (syncReactionsOnOpenBugs e now s)).
Proof.
  unfold syncReactionsOnOpenBugs. simpl.
  generalize (getOpenBugs (db s)). intros l. generalize (db s).
  induction l as [|b l IH]; intros d; simpl; [apply writes_refl|].
  eapply writes_trans; [apply syncBug_writes|apply IH].
Qed.

Lemma historyMessage_writes now channelName message st d :
  writes d (stepDb (historyMessage now channelName message st d)).
Proof.
  unfold historyMessage.
  destruct (Message.author_bot message); [apply writes_refl|].
  destruct (isNewBugReport _).
  { match goal with |- context [addBug ?d ?b] => pose proof (addBug_writes d b) as H end.
    destruct (addBug _ _) as [[b|] d'|]; simpl; solve [exact H|apply writes_refl]. }
  destruct (Message.reference message) as [ref|]; [|apply writes_refl].
  destruct (resolveReply d ref) as [bug|] eqn:Hres; [|apply writes_refl].
  apply resolveReply_bugExists, In_bugExists in Hres.
  set (d1 := if isCompletionMarker (Message.content message) && isOpen bug
             then updateBugStatus now d (Bug.id bug) Fixed else d).
  assert (writes d d1) as Hw1
    by (unfold d1; destruct (_ && _); [apply writes_one, write_fixed|apply writes_refl]).
  assert (bugExists d1 (Bug.id bug)) as Hex
    by (unfold d1; destruct (_ && _); [now apply bugExists_updateBugStatus|exact Hres]).
  pose proof (addBugUpdate_writes d1 (updateOfMessage message (Bug.id bug)) Hex) as H.
  destruct (addBugUpdate _ _) as [[u|] d'|]; simpl;
    solve [eapply writes_trans; eauto|exact Hw1].
Qed.

Lemma scanMessage_writes now channelName message st d :
  writes d (stepDb (scanMessage now channelName message st d)).
Proof.
  unfold scanMessage.
  destruct (Message.author_bot message); [apply writes_refl|].
  destruct (isNewBugReport _).
  { match goal with |- context [addBug ?d ?b] => pose proof (addBug_writes d b) as H end.
    destruct (addBug _ _) as [[b|] d'|]; simpl; solve [exact H|apply writes_refl]. }
  destruct (isCompletionMarker _).
  { destruct (Message.reference message) as [ref|]; [|apply writes_refl].
    destruct (closeReferenced now d ref) eqn:Hc; [|apply writes_refl].
    simpl. eapply closeReferenced_writes; eauto. }
  destruct (Message.reference message) as [ref|]; [|apply writes_refl].
  destruct (resolveReply d ref) as [bug|] eqn:Hres; [|apply writes_refl].
  apply resolveReply_bugExists, In_bugExists in Hres.
  pose proof (addBugUpdate_writes d (updateOfMessage message (Bug.id bug)) Hres) as H.
  destruct (addBugUpdate _ _) as [[u|] d'|]; simpl; solve [exact H|apply writes_refl].
Qed.

Lemma forEach_writes {A M} (body : M -> A -> Database -> Step A) ms a d :
  (forall m a d, writes d (stepDb (body m a d))) ->
  writes d (stepDb (forEach body ms a d)).
Proof.
  intros Hbody. revert a d. induction ms as [|m ms IH]; intros a d; simpl;
    [apply writes_refl|].
  specialize (Hbody m a d).
  destruct (body m a d) as [a' d'|a' d']; simpl in *; [|exact Hbody].
  eapply writes_trans; [exact Hbody|apply IH].
Qed.

Lemma historyPages_writes fuel e now channelId channelName maxMessages total
      lastMessageId st d :
  writes d (snd (historyPages fuel e now channelId channelName maxMessages total
                              lastMessageId st d)).
Proof.
  revert total lastMessageId st d.
  induction fuel as [|fuel IH]; intros total lastMessageId st d; simpl; [apply writes_refl|].
  destruct (total <? maxMessages); [|apply writes_refl].
  destruct (messages_before _ _ _ _) as [[|m ms]|]; try apply writes_refl.
  pose proof (forEach_writes (historyMessage now channelName)
                (sortOldestFirst (m :: ms)) st d
                (historyMessage_writes now channelName)) as Hw.
  destruct (forEach _ _ st d) as [st' d'|st' d']; simpl in Hw; [|exact Hw].
  destruct (_ <? _); [exact Hw|].
  eapply writes_trans; [exact Hw|apply IH].
Qed.

Lemma scanChannelHistory_writes e now channelId maxMessages s :
  writes (db s) (db (snd (scanChannelHistory e now channelId maxMessages s))).
Proof.
  unfold scanChannelHistory.
  destruct (channels_fetch _ _) as [channel|]; [|apply writes_refl].
  destruct (negb _); [apply writes_refl|].
  pose proof (historyPages_writes (Z.to_nat maxMessages) e now channelId
                (channel_name channel) maxMessages 0 None (mkHistoryStats 0 0) (db s)) as H.
  destruct (historyPages _ _ _ _ _ _ _ _ _ _) as [st d]. exact H.
Qed.

Lemma scanPages_writes fuel e now channelId channelName afterId st d r :
  scanPages fuel e now channelId channelName afterId st d = Some r ->
  writes d (stepDb r).
Proof.
  revert afterId st d. induction fuel as [|fuel IH]; intros afterId st d; simpl;
    [discriminate|].
  destruct (messages_after _ _ _) as [[|m ms]|];
    try (intros [= <-]; apply writes_refl).
  pose proof (forEach_writes (scanMessage now channelName)
                (sortOldestFirst (m :: ms)) st d
                (scanMessage_writes now channelName)) as Hw.
  destruct (forEach _ _ st d) as [st' d'|st' d']; simpl in Hw;
    [|intros [= <-]; exact Hw].
  destruct (_ <? _)%nat; [intros [= <-]; exact Hw|].
  intros H. eapply writes_trans; [exact Hw|eapply IH; eauto].
Qed.

Lemma scanChannel_writes fuel e now opts channelId d d' :
  scanChannel fuel e now opts channelId d = Some d' -> writes d d'.
Proof.
  unfold scanChannel.
  destruct (channels_fetch _ _) as [channel|]; [|intros [= <-]; apply writes_refl].
  destruct (negb _); [intros [= <-]; apply writes_refl|].
  destruct (scanPages _ _ _ _ _ _ _ _) as [r|] eqn:Hscan; [|discriminate].
  apply scanPages_writes in Hscan.
  destruct r as [st d1|st d1]; simpl in Hscan; intros [= <-]; [|exact Hscan].
  destruct (newestMessageId st); [|exact Hscan].
  eapply writes_trans; [exact Hscan|apply writes_one, write_scan_state].
Qed.

Lemma scanExistingMessages_writes fuel e now opts s s' :
  scanExistingMessages fuel e now opts s = Some s' -> writes (db s) (db s').
Proof.
  unfold scanExistingMessages.
  generalize (getMonitoredChannelIds e (db s)). intros l.
  destruct (scanChannels fuel e now opts l (db s)) as [d'|] eqn:Hs; [|discriminate].
  intros [= <-]. simpl. revert Hs. generalize (db s). clear s.
  induction l as [|c l IH]; intros d; simpl; [intros [= <-]; apply writes_refl|].
  destruct (scanChannel fuel e now opts c d) as [d1|] eqn:Hc; [|discriminate].
  intros H. eapply writes_trans; [eapply scanChannel_writes; eauto|apply IH, H].
Qed.

Lemma saveCurrentPosition_writes e now s :
  writes (db s) (db (saveCurrentPosition e now s)).
Proof.
  unfold saveCurrentPosition. simpl.
  generalize (getMonitoredChannelIds e (db s)). intros l. generalize (db s).
  induction l as [|c l IH]; intros d; simpl; [apply writes_refl|].
  eapply writes_trans; [|apply IH].
  unfold savePosition.
  destruct (channels_fetch _ _) as [channel|]; [|apply writes_refl].
  destruct (negb _); [apply writes_refl|].
  destruct (messages_last _ _) as [[m|]|]; try apply writes_refl.
  apply writes_one, write_scan_state.
Qed.

(** *** The constraints of the schema *)

Lemma NoDup_snoc {A} (l : list A) (x : A) : NoDup l -> ~ In x l -> NoDup (l ++ [x]).
Proof.
  intros Hl Hx. apply NoDup_app. split; [exact Hl|]. split.
  - intros y Hy Hy'. apply list_elem_of_In in Hy. apply list_elem_of_In in Hy'.
    destruct Hy' as [<-|[]]. contradiction.
  - apply NoDup_singleton.
Qed.

Lemma find_unique {A} (key : A -> Z) (l : list A) (x : A) :
  NoDup (List.map key l) -> In x l ->
  List.find (fun y => key y =? key x) l = Some x.
Proof.
  induction l as [|a l IH]; simpl; [contradiction|].
  intros Hnd Hin. apply NoDup_cons in Hnd as [Ha Hnd].
  destruct Hin as [->|Hin]; [now rewrite Z.eqb_refl|].
  destruct (key a =? key x) eqn:Hk; [|auto].
  exfalso. apply Ha. apply Z.eqb_eq in Hk. rewrite Hk.
  apply list_elem_of_In, List.in_map, Hin.
Qed.

Lemma map_map_key {A B} (key : A -> B) (g : A -> A) (l : list A) :
  (forall x, key (g x) = key x) -> List.map key (List.map g l) = List.map key l.
Proof. intros H. rewrite List.map_map. apply List.map_ext. exact H. Qed.

Lemma bugExists_map (g : Bug.t -> Bug.t) (bs : list Bug.t) i :
  (forall b, Bug.id (g b) = Bug.id b) ->
  (exists b, In b bs /\ Bug.id b = i) ->
  exists b, In b (List.map g bs) /\ Bug.id b = i.
Proof.
  intros Hg (b & Hin & Hid). exists (g b). split; [now apply List.in_map|].
  now rewrite Hg.
Qed.

Lemma db_wf_map_bugs (g : Bug.t -> Bug.t) d :
  (forall b, Bug.id (g b) = Bug.id b) ->
  (forall b, Bug.discord_message_id (g b) = Bug.discord_message_id b) ->
  db_wf d -> db_wf (set_bugs (List.map g (bugs d)) d).
Proof.
  intros Hid Hmsg [H1 H2 H3 H4 H5 H6 H7 H8 H9].
  constructor; simpl; auto.
  - intros b Hin. apply List.in_map_iff in Hin as (b0 & <- & Hin). rewrite Hid. auto.
  - now rewrite map_map_key.
  - now rewrite map_map_key.
  - intros u Hu. apply bugExists_map; auto. now apply H9.
Qed.

Lemma db_wf_updateBugStatus now d bugId st :
  db_wf d -> db_wf (updateBugStatus now d bugId st).
Proof.
  apply db_wf_map_bugs; intros b; destruct (Bug.id b =? bugId); reflexivity.
Qed.

Lemma db_wf_updateBugReactions d messageId rs :
  db_wf d -> db_wf (updateBugReactions d messageId rs).
Proof.
  apply db_wf_map_bugs; intros b; destruct (Bug.discord_message_id b =? messageId);
    reflexivity.
Qed.

Lemma db_wf_updateUpdateReactions d messageId rs :
  db_wf d -> db_wf (updateUpdateReactions d messageId rs).
Proof.
  intros [H1 H2 H3 H4 H5 H6 H7 H8 H9].
  set (g := fun u => if BugUpdate.discord_message_id u =? messageId
                     then BugUpdate.with_reactions rs u else u).
  assert (forall u, BugUpdate.id (g u) = BugUpdate.id u) as Gid
    by (intros u; unfold g; destruct (_ =? _); reflexivity).
  assert (forall u, BugUpdate.discord_message_id (g u) = BugUpdate.discord_message_id u)
    as Gmsg by (intros u; unfold g; destruct (_ =? _); reflexivity).
  assert (forall u, BugUpdate.bug_id (g u) = BugUpdate.bug_id u) as Gbug
    by (intros u; unfold g; destruct (_ =? _); reflexivity).
  constructor; simpl; auto; fold g.
  - intros u Hin. apply List.in_map_iff in Hin as (u0 & <- & Hin). rewrite Gid. auto.
  - now rewrite map_map_key.
  - now rewrite map_map_key.
  - intros u Hin. apply List.in_map_iff in Hin as (u0 & <- & Hin). rewrite Gbug.
    now apply H9.
Qed.

Lemma db_wf_saveScanState now d channelId messageId :
  db_wf d -> db_wf (saveScanState now d channelId messageId).
Proof. intros [H1 H2 H3 H4 H5 H6 H7 H8 H9]. constructor; simpl; auto. Qed.

Lemma db_wf_withBug d bug :
  ~ bugTracked d (Bug.discord_message_id bug) -> db_wf d -> db_wf (withBug d bug).
Proof.
  intros Hnew [H1 H2 H3 H4 H5 H6 H7 H8 H9].
  constructor; simpl; auto; try lia.
  - intros b Hin. apply List.in_app_or in Hin as [Hin|[<-|[]]]; simpl; [|lia].
    specialize (H2 b Hin). lia.
  - rewrite List.map_app. simpl. apply NoDup_snoc; [exact H3|].
    intros Hin. apply List.in_map_iff in Hin as (b & Hid & Hin).
    specialize (H2 b Hin). lia.
  - rewrite List.map_app. simpl. apply NoDup_snoc; [exact H4|].
    intros Hin. apply List.in_map_iff in Hin as (b & Hid & Hin).
    apply Hnew. exists b. auto.
  - intros u Hu. destruct (H9 u Hu) as (b & Hin & Hid).
    exists b. split; [apply List.in_or_app; now left|exact Hid].
Qed.

Lemma db_wf_withUpdate d update :
  ~ updateTracked d (BugUpdate.discord_message_id update) ->
  bugExists d (BugUpdate.bug_id update) ->
  db_wf d -> db_wf (withUpdate d update).
Proof.
  intros Hnew Hex [H1 H2 H3 H4 H5 H6 H7 H8 H9].
  assert (forall ts j b, Bug.id (if Bug.id b =? j then Bug.with_updated_at ts b else b)
                         = Bug.id b) as Gid
    by (intros ts j b; destruct (_ =? _); reflexivity).
  assert (forall ts j b,
             Bug.discord_message_id (if Bug.id b =? j then Bug.with_updated_at ts b else b)
             = Bug.discord_message_id b) as Gmsg
    by (intros ts j b; destruct (_ =? _); reflexivity).
  constructor; simpl; auto; try lia; unfold touchBug.
  - intros b Hin. apply List.in_map_iff in Hin as (b0 & <- & Hin). rewrite Gid. auto.
  - rewrite map_map_key; auto.
  - rewrite map_map_key; auto.
  - intros u Hin. apply List.in_app_or in Hin as [Hin|[<-|[]]]; simpl; [|lia].
    specialize (H6 u Hin). lia.
  - rewrite List.map_app. simpl. apply NoDup_snoc; [exact H7|].
    intros Hin. apply List.in_map_iff in Hin as (u & Hid & Hin).
    specialize (H6 u Hin). lia.
  - rewrite List.map_app. simpl. apply NoDup_snoc; [exact H8|].
    intros Hin. apply List.in_map_iff in Hin as (u & Hid & Hin).
    apply Hnew. exists u. auto.
  - intros u Hin. apply bugExists_map; [apply Gid|].
    apply List.in_app_or in Hin as [Hin|[<-|[]]]; [now apply H9|exact Hex].
Qed.

Lemma write_db_wf d d' : write d d' -> db_wf d -> db_wf d'.
Proof.
  intros Hw Hwf. destruct Hw as [d bug r d' Ha|d update r d' Hex Ha|now d i|d m rs|d m rs|now d c m].
  - destruct (addBug_cases d bug) as [[_ He]|[Hn He]]; rewrite He in Ha;
      injection Ha as _ <-; [exact Hwf|now apply db_wf_withBug].
  - unfold addBugUpdate in Ha. rewrite existsb_find in Ha.
    destruct (List.find _ (bug_updates d)) eqn:Hf; [now injection Ha as _ <-|].
    destruct (_ && _); [discriminate|]. injection Ha as _ <-.
    apply db_wf_withUpdate; auto. rewrite updateTracked_find. congruence.
  - now apply db_wf_updateBugStatus.
  - now apply db_wf_updateBugReactions.
  - now apply db_wf_updateUpdateReactions.
  - now apply db_wf_saveScanState.
Qed.

Lemma writes_db_wf d d' : writes d d' -> db_wf d -> db_wf d'.
Proof. induction 1; eauto using write_db_wf. Qed.

Lemma statusOf_map_bugs (g : Bug.t -> Bug.t) d i :
  (forall b, Bug.id (g b) = Bug.id b) ->
  (forall b, Bug.status (g b) = Bug.status b) ->
  statusOf (set_bugs (List.map g (bugs d)) d) i = statusOf d i.
Proof.
  intros Hid Hst. unfold statusOf, getBugById. simpl.
  rewrite find_map_preserving by (intros b; now rewrite Hid).
  destruct (List.find _ (bugs d)); simpl; [now rewrite Hst|reflexivity].
Qed.

Lemma write_keeps_fixed d d' i :
  write d d' -> statusOf d i = Some Fixed -> statusOf d' i = Some Fixed.
Proof.
  intros Hw Hfix. destruct Hw as [d bug r d' Ha|d update r d' Hex Ha|now d j|d m rs|d m rs|now d c m].
  - eapply statusOf_addBug; eauto.
  - now rewrite (statusOf_addBugUpdate _ _ _ _ i Ha).
  - rewrite statusOf_updateBugStatus, Hfix. now destruct (i =? j).
  - unfold updateBugReactions. rewrite statusOf_map_bugs; [exact Hfix| |];
      intros b; destruct (_ =? _); reflexivity.
  - exact Hfix.
  - exact Hfix.
Qed.

Lemma writes_keep_fixed d d' i :
  writes d d' -> statusOf d i = Some Fixed -> statusOf d' i = Some Fixed.
Proof. induction 1; eauto using write_keeps_fixed. Qed.

(** ** Across all entry points *)

(** No entry point of the core turns a fixed bug back into an open one:
    live messages, reactions added or removed, the reaction sync, both
    history scans and the save at shutdown all leave a fixed bug fixed. *)
Theorem fixed_stays_fixed (e : Env) (now : Timestamp) (i : Z) (s : Bot) :
  statusOf (db s) i = Some Fixed ->
  (forall message, statusOf (db (final (handleMessage e now message s))) i = Some Fixed) /\
  (forall emojiName channelId messageId,
      statusOf (db (onMessageReactionAdd e now emojiName channelId messageId s)) i
      = Some Fixed) /\
  (forall channelId messageId,
      statusOf (db (onMessageReactionRemove e channelId messageId s)) i = Some Fixed) /\
  statusOf (db (syncReactionsOnOpenBugs e now s)) i = Some Fixed /\
  (forall channelId maxMessages,
      statusOf (db (snd (scanChannelHistory e now channelId maxMessages s))) i
      = Some Fixed) /\
  (forall fuel opts s',
      scanExistingMessages fuel e now opts s = Some s' ->
      statusOf (db s') i = Some Fixed) /\
  statusOf (db (saveCurrentPosition e now s)) i = Some Fixed.
Proof.
  intros Hfix. repeat match goal with |- _ /\ _ => split end.
  - intros message. destruct (handleMessage_writes e now message s) as (s' & -> & Hw).
    simpl. eapply writes_keep_fixed; eauto.
  - intros. eapply writes_keep_fixed; [apply onMessageReactionAdd_writes|exact Hfix].
  - intros. eapply writes_keep_fixed; [apply onMessageReactionRemove_writes|exact Hfix].
  - eapply writes_keep_fixed; [apply syncReactionsOnOpenBugs_writes|exact Hfix].
  - intros. eapply writes_keep_fixed; [apply scanChannelHistory_writes|exact Hfix].
  - intros fuel opts s' Hs. eapply writes_keep_fixed;
      [eapply scanExistingMessages_writes; eauto|exact Hfix].
  - eapply writes_keep_fixed; [apply saveCurrentPosition_writes|exact Hfix].
Qed.

(** The schema's constraints hold after every entry point. *)
Theorem entry_points_keep_schema (e : Env) (now : Timestamp) (s : Bot) :
  db_wf (db s) ->
  (forall message, db_wf (db (final (handleMessage e now message s)))) /\
  (forall emojiName channelId messageId,
      db_wf (db (onMessageReactionAdd e now emojiName channelId messageId s))) /\
  (forall channelId messageId,
      db_wf (db (onMessageReactionRemove e channelId messageId s))) /\
  db_wf (db (syncReactionsOnOpenBugs e now s)) /\
  (forall channelId maxMessages,
      db_wf (db (snd (scanChannelHistory e now channelId maxMessages s)))) /\
  (forall fuel opts s',
      scanExistingMessages fuel e now opts s = Some s' -> db_wf (db s')) /\
  db_wf (db (saveCurrentPosition e now s)).
Proof.
  intros Hwf. repeat match goal with |- _ /\ _ => split end.
  - intros message. destruct (handleMessage_writes e now message s) as (s' & -> & Hw).
    simpl. eapply writes_db_wf; eauto.
  - intros. eapply writes_db_wf; [apply onMessageReactionAdd_writes|exact Hwf].
  - intros. eapply writes_db_wf; [apply onMessageReactionRemove_writes|exact Hwf].
  - eapply writes_db_wf; [apply syncReactionsOnOpenBugs_writes|exact Hwf].
  - intros. eapply writes_db_wf; [apply scanChannelHistory_writes|exact Hwf].
  - intros fuel opts s' Hs. eapply writes_db_wf;
      [eapply scanExistingMessages_writes; eauto|exact Hwf].
  - eapply writes_db_wf; [apply saveCurrentPosition_writes|exact Hwf].
Qed.

(** ** The runs used below *)

Lemma run_keeps_schema e now ms s : db_wf (db s) -> db_wf (db (Demo.run e now ms s)).
Proof.
  unfold Demo.run. revert s. induction ms as [|m ms IH]; intros s Hwf; simpl; [exact Hwf|].
  apply IH. now apply (entry_points_keep_schema e now s Hwf).
Qed.

Lemma fresh_schema : db_wf (db Demo.fresh).
Proof. constructor; simpl; try lia; try constructor; intros ? []. Qed.


(** ** The claims *)

(** C1. Inserting a Bug, or a BugUpdate, whose Discord message id is
    already in its table is a silent no-op: [addBug], respectively
    [addBugUpdate], returns null without throwing and leaves the store as
    it was: no row is added, no counter moves, and the [updated_at] of the
    owning bug is not touched. So it is in both modes: live, [createBug] and
    [handleReply] end normally with the bot as it was; in either scan, the
    step on a new-issue message or on a plain reply leaves the store as it
    was. *)
Theorem duplicate_insert_is_noop :
  (forall d bug,
      bugTracked d (Bug.discord_message_id bug) -> addBug d bug = Ok None d) /\
  (forall d update,
      updateTracked d (BugUpdate.discord_message_id update) ->
      addBugUpdate d update = Ok None d) /\
  (forall e message s,
      bugTracked (db s) (Message.id message) -> createBug e message s = Done tt s) /\
  (forall e message s refMessageId bug,
      Message.reference message = Some refMessageId ->
      resolveReply (db s) refMessageId = Some bug ->
      updateTracked (db s) (Message.id message) ->
      handleReply e message s = Done true s) /\
  (forall now channelName message d,
      classify (Message.content message) = NewIssue ->
      bugTracked d (Message.id message) ->
      (forall st, stepDb (scanMessage now channelName message st d) = d) /\
      (forall st, stepDb (historyMessage now channelName message st d) = d)) /\
  (forall now channelName message d refMessageId bug,
      classify (Message.content message) = Plain ->
      Message.reference message = Some refMessageId ->
      resolveReply d refMessageId = Some bug ->
      updateTracked d (Message.id message) ->
      (forall st, stepDb (scanMessage now channelName message st d) = d) /\
      (forall st, stepDb (historyMessage now channelName message st d) = d)).
Proof.
  repeat match goal with |- _ /\ _ => split end.
  - intros d bug. apply addBug_tracked.
  - intros d update. apply addBugUpdate_tracked.
  - intros e message s Htracked. unfold createBug.
    rewrite addBug_tracked by exact Htracked. now rewrite set_db_same.
  - intros e message s ref bug Href Hres Htracked. unfold handleReply.
    rewrite Href, Hres, addBugUpdate_tracked by exact Htracked.
    now rewrite set_db_same.
  - intros now channelName message d Hc Htracked.
    apply classify_NewIssue in Hc.
    split; intros st; unfold scanMessage, historyMessage; rewrite Hc;
      (destruct (Message.author_bot message); [reflexivity|]);
      now rewrite addBug_tracked.
  - intros now channelName message d ref bug Hc Href Hres Htracked.
    apply classify_Plain in Hc as [Hn Hc].
    split; intros st; unfold scanMessage, historyMessage; rewrite Hn, ?Hc, Href, Hres;
      (destruct (Message.author_bot message); [reflexivity|]);
      simpl; now rewrite addBugUpdate_tracked.
Qed.

Lemma duplicate_insert_is_noop_witness :
  addBug (db Demo.threaded) (bugOfMessage Demo.issue (Js.lit "bugs") Open)
  = Ok None (db Demo.threaded)
  /\ addBugUpdate (db Demo.threaded) (updateOfMessage Demo.reply 1)
     = Ok None (db Demo.threaded)
  /\ handleReply Demo.noAI Demo.reply Demo.threaded = Done true Demo.threaded.
Proof.
  destruct duplicate_insert_is_noop as (Hbug & Hupdate & _ & Hreply & _).
  split; [|split].
  - apply Hbug. exists (Demo.nthBug 0 Demo.threaded). split; [left|]; reflexivity.
  - apply Hupdate. exists (Demo.nthUpdate 0 Demo.threaded). split; [left|]; reflexivity.
  - apply (Hreply Demo.noAI Demo.reply Demo.threaded 100 (Demo.nthBug 0 Demo.threaded));
      [reflexivity|reflexivity|].
    exists (Demo.nthUpdate 0 Demo.threaded). split; [left|]; reflexivity.
Defined.

(** C2, at the input where the code departs from it. The claim: every
    status write of the core sets [fixed], and only on a bug that is open.
    Here bug 1 is fixed, bugs 2 and 3 are open, the completion text matches
    neither of them, and the classifier answers with bug 1 and high
    confidence: [handleCompletion] writes [fixed] to bug 1 again, moving its
    [updated_at] from 6000 to 9000, and closes no open bug. The status of
    the bug stays [fixed] (see [fixed_stays_fixed]); what fails is that the
    write is made on a bug that is not open. *)
Lemma ai_match_rewrites_fixed_bug :
  accepted Demo.withAI Demo.oneClosed Demo.doneVague
  /\ classify (Message.content Demo.doneVague) = Completion
  /\ Message.reference Demo.doneVague = None
  /\ List.map Bug.id (getOpenBugs (db Demo.oneClosed)) = [3; 2]
  /\ findExactOrCloseMatch (completionText Demo.doneVague)
                           (contents (getOpenBugs (db Demo.oneClosed))) = None
  /\ option_map (fun b => (Bug.status b, Bug.updated_at b)) (getBugById (db Demo.oneClosed) 1)
     = Some (Fixed, 6000)
  /\ handleMessage Demo.withAI 9000 Demo.doneVague Demo.oneClosed
     = Done tt (mkBot (updateBugStatus 9000 (db Demo.oneClosed) 1 Fixed)
                      (recentMessages Demo.oneClosed) (requests Demo.oneClosed + 1))
  /\ option_map (fun b => (Bug.status b, Bug.updated_at b))
       (getBugById (db (final (handleMessage Demo.withAI 9000 Demo.doneVague Demo.oneClosed))) 1)
     = Some (Fixed, 9000).
Proof. repeat split; vm_compute; reflexivity. Qed.

(** C3, as amended. For a live message that the handler accepts and whose
    reply target resolves, directly or through a prior BugUpdate, to a
    tracked bug: when its text is Plain and its id is not yet an update, a
    BugUpdate is inserted on that bug; when its text is Plain and its id is
    already an update, nothing changes; when its text is a Completion marker
    and the bug is open, the bug is fixed afterwards; when its text is a
    new-issue marker, the message is handled as a new bug and no BugUpdate
    is inserted: unless a bug is already filed under its id (then the store
    stays as it is), one open bug made of the message is appended under the
    next row id and is found under the message's id, and the message is
    recorded in the cache of its channel with no bug. *)
Theorem live_reply_effects
    (e : Env) (now : Timestamp) (message : Message.t) (s : Bot)
    (refMessageId : Snowflake) (bug : Bug.t) :
  accepted e s message ->
  Message.reference message = Some refMessageId ->
  resolveReply (db s) refMessageId = Some bug ->
  (classify (Message.content message) = Plain ->
   ~ updateTracked (db s) (Message.id message) ->
   exists s',
     handleMessage e now message s = Done tt s'
     /\ db s' = withUpdate (db s) (updateOfMessage message (Bug.id bug))
     /\ exists u, In u (bug_updates (db s'))
                  /\ BugUpdate.discord_message_id u = Message.id message
                  /\ BugUpdate.bug_id u = Bug.id bug) /\
  (classify (Message.content message) = Plain ->
   updateTracked (db s) (Message.id message) ->
   handleMessage e now message s = Done tt s) /\
  (classify (Message.content message) = Completion ->
   Bug.status bug = Open ->
   exists s',
     handleMessage e now message s = Done tt s'
     /\ statusOf (db s') (Bug.id bug) = Some Fixed) /\
  (classify (Message.content message) = NewIssue ->
   exists s' channelName,
     handleMessage e now message s = Done tt s'
     /\ bug_updates (db s') = bug_updates (db s)
     /\ recorded s s' message None
     /\ (bugTracked (db s) (Message.id message) -> db s' = db s)
     /\ (~ bugTracked (db s) (Message.id message) ->
         db s' = withBug (db s) (bugOfMessage message channelName Open)
         /\ getBugByMessageId (db s') (Message.id message)
            = Some (Bug.with_id (bugs_seq (db s) + 1)
                                (bugOfMessage message channelName Open)))).
Proof.
  intros Hacc Href Hres.
  pose proof (resolveReply_bugExists _ _ _ Hres) as Hin.
  split; [|split; [|split]]; cycle 3.
  { intros Hc. apply classify_NewIssue in Hc. destruct Hacc as [Hb Hm].
    unfold handleMessage, createBug. rewrite Hb, Hm, Hc. simpl.
    match goal with
    | |- context [addBug ?d (bugOfMessage _ ?n _)] =>
        exists (addToRecentMessages (Message.channelId message) message None
                  (set_db (match addBug d (bugOfMessage message n Open) with
                           | Ok _ d' => d'
                           | Throw => d
                           end) s)), n;
        destruct (addBug_cases d (bugOfMessage message n Open)) as [[Htr Hadd]|[Hnew Hadd]];
        rewrite Hadd
    end; cbn [bind]; (split; [reflexivity|]); (split; [reflexivity|]);
      (split; [now apply addToRecentMessages_recorded|]); cbn [db set_db addToRecentMessages].
    - split; [reflexivity|]. intros Hno. contradiction.
    - split; [intros Hyes; contradiction|]. intros _. split; [reflexivity|].
      apply (getBugByMessageId_withBug (db s) (bugOfMessage message _ Open)). exact Hnew. }
  - intros Hc Hnew.
    rewrite (handleMessage_plain _ _ _ _ Hacc Hc), Href.
    unfold handleReply. rewrite Href, Hres.
    rewrite addBugUpdate_untracked; [|exact Hnew|now apply In_bugExists].
    simpl. eexists. split; [reflexivity|]. split; [reflexivity|].
    eexists. split; [apply List.in_or_app; right; left; reflexivity|].
    split; reflexivity.
  - intros Hc Hdup.
    rewrite (handleMessage_plain _ _ _ _ Hacc Hc), Href.
    unfold handleReply. rewrite Href, Hres.
    rewrite addBugUpdate_tracked by exact Hdup.
    simpl. now rewrite set_db_same.
  - intros Hc Hopen.
    rewrite (handleMessage_completion _ _ _ _ Hacc Hc).
    unfold handleCompletion. rewrite Href.
    rewrite (closeReferenced_resolved now _ _ _ Hres)
      by (unfold isOpen; now rewrite Hopen).
    eexists. split; [reflexivity|].
    simpl. now apply statusOf_markFixed, In_bugExists.
Qed.

Lemma live_reply_effects_witness :
  exists s',
    handleMessage Demo.noAI 6000 Demo.replyToReply
                  (Demo.run Demo.noAI 5000 [Demo.issue; Demo.reply] Demo.fresh)
    = Done tt s'
    /\ List.map (fun u => (BugUpdate.bug_id u, BugUpdate.discord_message_id u))
                (bug_updates (db s')) = [(1, 101); (1, 102)].
Proof.
  pose (s := Demo.run Demo.noAI 5000 [Demo.issue; Demo.reply] Demo.fresh).
  destruct (live_reply_effects Demo.noAI 6000 Demo.replyToReply s 101 (Demo.nthBug 0 s))
    as (Hplain & _); [split; reflexivity|reflexivity|reflexivity|].
  destruct Hplain as (s' & Hrun & Hdb & _); [reflexivity|..].
  - intros (u & Hin & Hid). vm_compute in Hin. destruct Hin as [<-|[]]. discriminate Hid.
  - exists s'. split; [exact Hrun|]. rewrite Hdb. reflexivity.
Defined.

(** C3 as stated fails on a reply that starts with the new-issue glyph: it
    resolves to bug 1, and the handler makes it bug 2 and inserts no
    update. *)
Lemma issue_marked_reply_inserts_no_update :
  accepted Demo.noAI Demo.tracked Demo.issueReply
  /\ Message.reference Demo.issueReply = Some 100
  /\ option_map Bug.id (resolveReply (db Demo.tracked) 100) = Some 1
  /\ bug_updates (db (final (handleMessage Demo.noAI 6000 Demo.issueReply Demo.tracked))) = []
  /\ List.map (fun b => (Bug.id b, Bug.discord_message_id b))
              (bugs (db (final (handleMessage Demo.noAI 6000 Demo.issueReply Demo.tracked))))
     = [(1, 100); (2, 105)].
Proof. repeat split; vm_compute; reflexivity. Qed.

(** The scenario of the specification, run live and through
    [scanChannelHistory]: live, the reply with the done glyph closes bug 1
    and is not appended to its thread; the channel-add scan closes the bug
    and appends the reply. *)
Example done_reply_is_not_appended :
  option_map Bug.id (resolveReply (db Demo.tracked) 100) = Some 1
  /\ bug_updates (db (final (handleMessage Demo.noAI 6000 Demo.doneReply Demo.tracked))) = []
  /\ statusOf (db (final (handleMessage Demo.noAI 6000 Demo.doneReply Demo.tracked))) 1
     = Some Fixed
  /\ List.map (fun u => (BugUpdate.bug_id u, BugUpdate.discord_message_id u))
       (bug_updates (stepDb (historyMessage 6000 (Js.lit "bugs") Demo.doneReply
                                            (mkHistoryStats 0 0) (db Demo.tracked))))
     = [(1, 104)].
Proof. repeat split; vm_compute; reflexivity. Qed.

(** C4, as amended. In a store that satisfies the constraints of the
    schema: a reply to the message of bug B resolves to B; a reply to an
    update U of bug B resolves to B provided the id of U is not also the
    message id of a bug (the lookup among bugs comes first), whatever the
    depth of U in the thread; and resolution returns none exactly when the
    referenced id is neither the message of a bug nor that of an update. *)
Theorem reply_resolves_to_thread_owner (d : Database) :
  db_wf d ->
  (forall B, In B (bugs d) -> resolveReply d (Bug.discord_message_id B) = Some B) /\
  (forall U B,
      In U (bug_updates d) -> In B (bugs d) -> BugUpdate.bug_id U = Bug.id B ->
      ~ bugTracked d (BugUpdate.discord_message_id U) ->
      resolveReply d (BugUpdate.discord_message_id U) = Some B) /\
  (forall refMessageId,
      resolveReply d refMessageId = None <->
      ~ bugTracked d refMessageId /\ ~ updateTracked d refMessageId).
Proof.
  intros Hwf. split; [|split].
  - intros B HB. unfold resolveReply, getBugByMessageId.
    now rewrite (find_unique Bug.discord_message_id (bugs d) B (wf_bug_message_unique d Hwf) HB).
  - intros U B HU HB Hown Hnot. unfold resolveReply.
    destruct (getBugByMessageId d (BugUpdate.discord_message_id U)) eqn:Hdirect.
    { exfalso. apply Hnot, bugTracked_find. congruence. }
    unfold getBugIdFromUpdateMessage.
    rewrite (find_unique BugUpdate.discord_message_id (bug_updates d) U
               (wf_update_message_unique d Hwf) HU).
    pose proof (wf_bug_ids d Hwf B HB) as Hid.
    destruct (BugUpdate.bug_id U =? 0) eqn:Hz; [apply Z.eqb_eq in Hz; lia|].
    unfold getBugById. rewrite Hown.
    apply (find_unique Bug.id (bugs d) B (wf_bug_id_unique d Hwf) HB).
  - intros ref. unfold resolveReply. split.
    + intros Hnone.
      destruct (getBugByMessageId d ref) eqn:Hdirect; [discriminate|].
      split; [rewrite bugTracked_find; congruence|].
      intros Htracked. apply updateTracked_find in Htracked.
      unfold getBugIdFromUpdateMessage in Hnone.
      destruct (List.find _ (bug_updates d)) as [u|] eqn:Hf; [|congruence].
      apply List.find_some in Hf as [Hin _].
      destruct (wf_update_owner d Hwf u Hin) as (b & Hb & Hid).
      pose proof (wf_bug_ids d Hwf b Hb) as Hrange.
      destruct (BugUpdate.bug_id u =? 0) eqn:Hz; [apply Z.eqb_eq in Hz; lia|].
      assert (bugExists d (BugUpdate.bug_id u)) as Hex by (exists b; auto).
      apply bugExists_find in Hex. contradiction.
    + intros [Hb Hu].
      destruct (getBugByMessageId d ref) eqn:Hdirect.
      { exfalso. apply Hb, bugTracked_find. congruence. }
      unfold getBugIdFromUpdateMessage.
      destruct (List.find _ (bug_updates d)) eqn:Hf; [|reflexivity].
      exfalso. apply Hu, updateTracked_find. congruence.
Qed.

Lemma reply_resolves_to_thread_owner_witness :
  resolveReply (db Demo.threaded) 102 = Some (Demo.nthBug 0 Demo.threaded)
  /\ List.map (fun u => (BugUpdate.bug_id u, BugUpdate.discord_message_id u))
              (bug_updates (db Demo.threaded)) = [(1, 101); (1, 102); (1, 103)].
Proof.
  split; [|reflexivity].
  assert (db_wf (db Demo.threaded)) as Hwf by (apply run_keeps_schema, fresh_schema).
  destruct (reply_resolves_to_thread_owner (db Demo.threaded) Hwf) as (_ & Hchain & _).
  apply (Hchain (Demo.nthUpdate 1 Demo.threaded) (Demo.nthBug 0 Demo.threaded)).
  - right. left. reflexivity.
  - left. reflexivity.
  - reflexivity.
  - intros (b & Hin & Hid). vm_compute in Hin. destruct Hin as [<-|[]]. discriminate Hid.
Defined.

(** C4 as stated fails once a reply that was appended to bug 1 has been
    edited into a new issue: its id is then both an update of bug 1 and the
    message of bug 2, a reply to it resolves to bug 2, and the thread is
    split between the two bugs. The store satisfies the schema. *)
Lemma edited_reply_splits_thread :
  db_wf (db Demo.edited)
  /\ (BugUpdate.bug_id (Demo.nthUpdate 0 Demo.edited),
      BugUpdate.discord_message_id (Demo.nthUpdate 0 Demo.edited)) = (1, 101)
  /\ In (Demo.nthUpdate 0 Demo.edited) (bug_updates (db Demo.edited))
  /\ option_map Bug.id (getBugById (db Demo.edited) 1) = Some 1
  /\ option_map Bug.id (resolveReply (db Demo.edited) 101) = Some 2
  /\ List.map (fun u => (BugUpdate.bug_id u, BugUpdate.discord_message_id u))
       (bug_updates (db (final (handleMessage Demo.noAI 6000 Demo.replyToReply Demo.edited))))
     = [(1, 101); (2, 102)].
Proof.
  split; [apply run_keeps_schema, fresh_schema|].
  repeat split; try (vm_compute; reflexivity). left. reflexivity.
Qed.

(** C5, as amended. For a standalone completion message, when an analyzer
    is configured: the open bug whose text contains the completion text
    (both in lower case) is closed without any request to the AI, provided
    no open bug ahead of it, most recently updated first, passes the text
    test of [findExactOrCloseMatch]. Nothing else is written. *)
Theorem text_match_closes_first_matching_bug
    (e : Env) (a : MessageAnalyzer) (now : Timestamp) (message : Message.t)
    (s : Bot) (preceding following : list Bug.t) (matched : Bug.t) :
  analyzer e = Some a ->
  accepted e s message ->
  classify (Message.content message) = Completion ->
  Message.reference message = None ->
  getOpenBugs (db s) = preceding ++ matched :: following ->
  Js.includes (Js.toLowerCase (Bug.content matched))
              (Js.trim (Js.toLowerCase (completionText message))) = true ->
  (forall b, In b preceding ->
             closeMatch (Js.trim (Js.toLowerCase (completionText message)))
                        (Bug.content b) = false) ->
  Bug.id matched <> 0 ->
  handleMessage e now message s = Done tt (markFixed now (Bug.id matched) s)
  /\ statusOf (db (markFixed now (Bug.id matched) s)) (Bug.id matched) = Some Fixed
  /\ requests (markFixed now (Bug.id matched) s) = requests s
  /\ recentMessages (markFixed now (Bug.id matched) s) = recentMessages s.
Proof.
  intros Ha Hacc Hc Href Hopen Hinc Hpre Hid.
  split; [|split; [|split; reflexivity]].
  - rewrite (handleMessage_completion _ _ _ _ Hacc Hc).
    unfold handleCompletion, matchStandalone. rewrite Href, Ha, Hopen.
    unfold findExactOrCloseMatch, completionText in *.
    rewrite (find_contents _ preceding following matched Hpre).
    + simpl. apply Z.eqb_neq in Hid. rewrite Hid.
      destruct preceding; reflexivity.
    + unfold closeMatch. now rewrite Hinc.
  - simpl. apply statusOf_markFixed, In_bugExists.
    apply (getOpenBugs_In (db s) matched). rewrite Hopen.
    apply List.in_or_app. right. now left.
Qed.

Lemma text_match_closes_first_matching_bug_witness :
  exists s',
    handleMessage Demo.withAI 9000 Demo.doneLogin Demo.twoOpen = Done tt s'
    /\ statusOf (db s') 1 = Some Fixed
    /\ statusOf (db s') 2 = Some Open
    /\ requests s' = requests Demo.twoOpen.
Proof.
  destruct (text_match_closes_first_matching_bug
              Demo.withAI Demo.alwaysBug1 9000 Demo.doneLogin Demo.twoOpen
              [Demo.nthBug 1 Demo.twoOpen] [] (Demo.nthBug 0 Demo.twoOpen))
    as (Hrun & Hfixed & Hreq & _);
    [reflexivity|split; reflexivity|reflexivity|reflexivity|reflexivity|
     vm_compute; reflexivity| |vm_compute; discriminate|].
  - intros b [<-|[]]. vm_compute. reflexivity.
  - eexists. split; [exact Hrun|]. split; [exact Hfixed|]. split; [|exact Hreq].
    vm_compute. reflexivity.
Defined.

(** The text test is a method of the analyzer and is run only when one is
    configured. Without one, a completion text found in exactly one of two
    open bugs, bug 2, closes nothing: the handler leaves the state as it
    was. *)
Lemma text_match_needs_analyzer :
  accepted Demo.noAI Demo.twoOpen Demo.doneExport
  /\ classify (Message.content Demo.doneExport) = Completion
  /\ Message.reference Demo.doneExport = None
  /\ List.map (fun b => (Bug.id b,
                         Js.includes (Js.toLowerCase (Bug.content b))
                                     (Js.toLowerCase (completionText Demo.doneExport))))
              (getOpenBugs (db Demo.twoOpen)) = [(2, true); (1, false)]
  /\ handleMessage Demo.noAI 9000 Demo.doneExport Demo.twoOpen = Done tt Demo.twoOpen
  /\ statusOf (db Demo.twoOpen) 2 = Some Open.
Proof. repeat split; vm_compute; reflexivity. Qed.

(** C5 as stated fails when a more recently updated bug passes the
    word-overlap test: the completion text is verbatim in exactly one open
    bug, bug 1, and bug 2, which holds the same three words in another
    order, is the one that is closed, by the text test and with no request
    to the AI. *)
Lemma word_overlap_wins_over_verbatim :
  analyzer Demo.withAI = Some Demo.alwaysBug1
  /\ accepted Demo.withAI Demo.reworded Demo.doneFix
  /\ classify (Message.content Demo.doneFix) = Completion
  /\ Message.reference Demo.doneFix = None
  /\ List.map (fun b => (Bug.id b,
                         Js.includes (Js.toLowerCase (Bug.content b))
                                     (Js.trim (Js.toLowerCase (completionText Demo.doneFix)))))
              (getOpenBugs (db Demo.reworded)) = [(2, false); (1, true)]
  /\ findExactOrCloseMatch (completionText Demo.doneFix)
                           (contents (getOpenBugs (db Demo.reworded))) = Some 2
  /\ handleMessage Demo.withAI 9000 Demo.doneFix Demo.reworded
     = Done tt (markFixed 9000 2 Demo.reworded)
  /\ List.map (fun b => (Bug.id b, Bug.status b))
              (bugs (db (markFixed 9000 2 Demo.reworded))) = [(1, Open); (2, Fixed)]
  /\ requests (markFixed 9000 2 Demo.reworded) = requests Demo.reworded.
Proof. repeat split; vm_compute; reflexivity. Qed.

(** Letters beyond Basic Latin are compared in lower case too: a completion
    text in capitals matches the bug written in small letters, and of two
    open bugs the one updated last that holds the text is the one closed. *)
Example text_match_lowers_every_letter :
  findExactOrCloseMatch
    [0xC9; 67; 82; 65; 78; 32; 67; 65; 83; 83; 0xC9]
    [(5, Js.PLAY ++ [32; 0xE9; 99; 114; 97; 110; 32; 99; 97; 115; 115; 0xE9])]
  = Some 5
  /\ findExactOrCloseMatch
       [0xE0; 98]
       [(2, Js.PLAY ++ [32; 0xC0; 66]);
        (1, Js.PLAY ++ Js.lit " fix " ++ [0xE0; 98] ++ Js.lit " please")]
     = Some 2
  /\ Js.toLowerCase [0x39F; 0x394; 0x39F; 0x3A3; 32; 0x3A3; 0x391; 0x130; 0xD801; 0xDC00]
     = [0x3BF; 0x3B4; 0x3BF; 0x3C2; 32; 0x3C3; 0x3B1; 0x69; 0x307; 0xD801; 0xDC28].
Proof. repeat split; vm_compute; reflexivity. Qed.

(** C6. With exactly one open bug, a live standalone completion message
    closes that bug, whatever the analyzer is or answers and whether or not
    one is configured: the handler ends with that bug fixed and nothing else
    written. The tier is medium: for a single candidate
    [matchCompletionToBug] answers with that bug and medium confidence,
    without a request to the AI. *)
Theorem only_open_bug_is_closed
    (e : Env) (now : Timestamp) (message : Message.t) (s : Bot) (only : Bug.t) :
  accepted e s message ->
  classify (Message.content message) = Completion ->
  Message.reference message = None ->
  getOpenBugs (db s) = [only] ->
  handleMessage e now message s = Done tt (markFixed now (Bug.id only) s)
  /\ statusOf (db (markFixed now (Bug.id only) s)) (Bug.id only) = Some Fixed
  /\ (forall a, matchCompletionToBug a (completionText message) (briefs [only])
                = (mkMatch (Some (Bug.id only)) Medium, 0%nat)).
Proof.
  intros Hacc Hc Href Hopen.
  split; [|split].
  - rewrite (handleMessage_completion _ _ _ _ Hacc Hc).
    unfold handleCompletion, matchStandalone. rewrite Href, Hopen.
    destruct (analyzer e) as [a|]; [|reflexivity].
    destruct (findExactOrCloseMatch_singleton
                (Js.trim (Js.stripFirstWs Js.CHECK (Message.content message))) only)
      as [-> | ->]; simpl.
    + destruct (Bug.id only =? 0) eqn:Hz; [|reflexivity].
      now rewrite bot_requests_add_0.
    + destruct (Bug.id only =? 0) eqn:Hz; now rewrite bot_requests_add_0.
  - simpl. apply statusOf_markFixed, In_bugExists.
    apply (getOpenBugs_In (db s) only). rewrite Hopen. now left.
  - reflexivity.
Qed.

Lemma only_open_bug_is_closed_witness :
  handleMessage Demo.noAI 9000 Demo.doneVague Demo.tracked
  = Done tt (markFixed 9000 1 Demo.tracked)
  /\ statusOf (db (markFixed 9000 1 Demo.tracked)) 1 = Some Fixed.
Proof.
  destruct (only_open_bug_is_closed Demo.noAI 9000 Demo.doneVague Demo.tracked
                                    (Demo.nthBug 0 Demo.tracked))
    as (Hrun & Hfixed & _);
    [split; reflexivity|reflexivity|reflexivity|reflexivity|].
  split; [exact Hrun|exact Hfixed].
Defined.

(** C7. In both history scans a Completion-marker message with no reply
    reference is skipped: the step leaves the store as it was (the backfill
    only counts the message and tracks its id for the watermark). And a
    step of either scan that takes a bug from open to fixed was made on a
    Completion-marker message that carries a reply reference. *)
Theorem standalone_completion_skipped_by_scans
    (now : Timestamp) (channelName : Js.str) (message : Message.t) (d : Database) :
  (classify (Message.content message) = Completion ->
   Message.reference message = None ->
   (forall st, scanMessage now channelName message st d = Next (seen message st) d) /\
   (forall st, historyMessage now channelName message st d = Next st d)) /\
  (forall d' i,
      (exists st, d' = stepDb (scanMessage now channelName message st d))
      \/ (exists st, d' = stepDb (historyMessage now channelName message st d)) ->
      statusOf d i = Some Open -> statusOf d' i = Some Fixed ->
      classify (Message.content message) = Completion
      /\ exists refMessageId, Message.reference message = Some refMessageId).
Proof.
  split.
  - intros Hc Href. apply classify_Completion in Hc as [Hn Hc].
    split; intros st.
    + unfold scanMessage. rewrite Hn, Hc, Href. now destruct (Message.author_bot message).
    + unfold historyMessage. rewrite Hn, Href. now destruct (Message.author_bot message).
  - intros d1 i Hr Hopen Hfixed.
    assert (statusOf d i = Some Fixed -> False) as Hcontra by congruence.
    assert (forall bug r0 d', addBug d bug = Ok r0 d' -> statusOf d' i = Some Fixed -> False)
      as Hbug.
    { intros bug r0 d' Ha Hf. pose proof (statusOf_addBug _ _ _ _ i Open Ha Hopen). congruence. }
    assert (forall u r0 d', addBugUpdate d u = Ok r0 d' -> statusOf d' i = Some Fixed -> False)
      as Hupd.
    { intros u r0 d' Ha Hf. rewrite (statusOf_addBugUpdate _ _ _ _ i Ha) in Hf. congruence. }
    destruct Hr as [[st ->]|[st ->]].
    + unfold scanMessage in Hfixed. rewrite classify_Completion.
      destruct (Message.author_bot message); [exfalso; eauto|].
      destruct (isNewBugReport (Message.content message)).
      { exfalso. destruct (addBug d _) as [[b|] d'|] eqn:Ha; simpl in Hfixed; eauto. }
      destruct (isCompletionMarker (Message.content message)).
      { destruct (Message.reference message) as [ref|]; [eauto|]. exfalso; eauto. }
      exfalso. destruct (Message.reference message) as [ref|]; [|eauto].
      destruct (resolveReply d ref) as [bug|]; [|eauto].
      destruct (addBugUpdate d _) as [[u|] d'|] eqn:Ha; simpl in Hfixed; eauto.
    + unfold historyMessage in Hfixed. rewrite classify_Completion.
      destruct (Message.author_bot message); [exfalso; eauto|].
      destruct (isNewBugReport (Message.content message)).
      { exfalso. destruct (addBug d _) as [[b|] d'|] eqn:Ha; simpl in Hfixed; eauto. }
      destruct (Message.reference message) as [ref|]; [|exfalso; eauto].
      destruct (isCompletionMarker (Message.content message)); [eauto|].
      exfalso. simpl in Hfixed. destruct (resolveReply d ref) as [bug|]; [|eauto].
      simpl in Hfixed.
      destruct (addBugUpdate d _) as [[u|] d'|] eqn:Ha; simpl in Hfixed; eauto.
Qed.

Lemma standalone_completion_skipped_by_scans_witness :
  scanMessage 9000 (Js.lit "bugs") Demo.doneVague noStats (db Demo.tracked)
  = Next (seen Demo.doneVague noStats) (db Demo.tracked)
  /\ historyMessage 9000 (Js.lit "bugs") Demo.doneVague (mkHistoryStats 0 0) (db Demo.tracked)
     = Next (mkHistoryStats 0 0) (db Demo.tracked).
Proof.
  destruct (standalone_completion_skipped_by_scans 9000 (Js.lit "bugs") Demo.doneVague
                                                   (db Demo.tracked)) as [Hskip _].
  destruct Hskip as [Hscan Hhistory]; [reflexivity|reflexivity|].
  split; [apply Hscan|apply Hhistory].
Defined.




(** C9. A Plain live message with no reply reference never makes the
    handler fail, and is attached to a bug only on a verdict of the
    classifier (shouldAdd with the id of one of the bugs it was offered); in
    every other case the store is left as it was. Either way the message
    is recorded in the cache of its channel: it is the newest entry there,
    with its id, author, text and time and with the bug it was attached to
    or none, behind the entries the channel had (the oldest is dropped when
    they were ten), and no other channel's cache changes. No analyzer, no
    open bug in the channel, and a failed or unparsable answer all give no
    verdict; a verdict always names one of the candidates. *)
Theorem ambient_message_attached_only_on_verdict
    (e : Env) (now : Timestamp) (message : Message.t) (s : Bot) :
  accepted e s message ->
  classify (Message.content message) = Plain ->
  Message.reference message = None ->
  (exists s',
     handleMessage e now message s = Done tt s'
     /\ (cachedOnly s s' message
         \/ exists bugId, verdict e s message = Some bugId
                          /\ attachedTo s s' message bugId)
     /\ (verdict e s message = None -> cachedOnly s s' message))
  /\ (analyzer e = None -> verdict e s message = None)
  /\ (candidates s message = [] -> verdict e s message = None)
  /\ (forall a, analyzer e = Some a ->
        ask_add a (Message.content message) (Message.author_username message)
                (briefs (candidates s message)) (recentContext s message) = Rejected
        \/ ask_add a (Message.content message) (Message.author_username message)
                   (briefs (candidates s message)) (recentContext s message) = NoJson ->
        verdict e s message = None)
  /\ (forall bugId, verdict e s message = Some bugId ->
        exists b, In b (candidates s message) /\ Bug.id b = bugId).
Proof.
  intros Hacc Hc Href.
  split; [|split; [|split; [|split]]].
  - rewrite (handleMessage_plain _ _ _ _ Hacc Hc), Href.
    apply handleContextMessage_spec.
  - unfold verdict. now intros ->.
  - unfold verdict. intros ->. now destruct (analyzer e).
  - intros a Ha Hfail. unfold verdict, shouldAddToBug. rewrite Ha.
    destruct (briefs (candidates s message)); [reflexivity|].
    destruct Hfail as [-> | ->]; reflexivity.
  - intros bugId. unfold verdict.
    destruct (analyzer e) as [a|]; [|discriminate].
    destruct (add_bugId _) as [j|]; [|discriminate].
    destruct (shouldAdd _); [|discriminate]. simpl.
    destruct (List.existsb _ _) eqn:Hex; [|discriminate].
    intros [= <-]. apply List.existsb_exists in Hex as (b & Hin & Hid).
    apply Z.eqb_eq in Hid. eauto.
Qed.

Lemma ambient_message_attached_only_on_verdict_witness :
  exists s',
    handleMessage Demo.withAI 9000 Demo.chatter Demo.twoOpen = Done tt s'
    /\ verdict Demo.withAI Demo.twoOpen Demo.chatter = Some 1
    /\ attachedTo Demo.twoOpen s' Demo.chatter 1.
Proof.
  destruct (ambient_message_attached_only_on_verdict Demo.withAI 9000 Demo.chatter Demo.twoOpen)
    as ((s' & Hrun & Hcases & _) & _);
    [split; reflexivity|reflexivity|reflexivity|].
  exists s'. split; [exact Hrun|]. split; [reflexivity|].
  destruct Hcases as [[Hdb _]|(bugId & Hv & Hatt)].
  - exfalso.
    assert (s' = final (handleMessage Demo.withAI 9000 Demo.chatter Demo.twoOpen)) as ->
      by (rewrite Hrun; reflexivity).
    apply (f_equal (fun d => length (bug_updates d))) in Hdb.
    vm_compute in Hdb. discriminate Hdb.
  - vm_compute in Hv. injection Hv as <-. exact Hatt.
Defined.

(** C10. In both history scans, a new-issue message from a human author
    whose reactions include the done emoji is inserted with status fixed:
    when the message was not tracked the step appends exactly one row, which
    is fixed; and no open row for that message is ever added by the step. *)
Theorem checked_issue_is_recorded_fixed
    (now : Timestamp) (channelName : Js.str) (message : Message.t) (d : Database) :
  Message.author_bot message = false ->
  classify (Message.content message) = NewIssue ->
  (exists r, In r (extractReactions message) /\ emoji r = Js.CHECK) ->
  (forall st, exists st' d',
      scanMessage now channelName message st d = Next st' d'
      /\ recordedFixed d d' (Message.id message)) /\
  (forall st, exists st' d',
      historyMessage now channelName message st d = Next st' d'
      /\ recordedFixed d d' (Message.id message)).
Proof.
  intros Hbot Hnew Hcheck. apply classify_NewIssue in Hnew.
  apply hasCheckReaction_In in Hcheck.
  assert (Hst : statusFromReactions message = Fixed)
    by (unfold statusFromReactions; now rewrite Hcheck).
  pose proof (addBug_recordedFixed d (bugOfMessage message channelName Fixed)) as Hrec.
  pose proof (addBug_never_throws d (bugOfMessage message channelName Fixed)) as Hnt.
  split; intros st.
  - unfold scanMessage. rewrite Hbot, Hnew, Hst.
    destruct (addBug d _) as [[b|] d'|] eqn:Ha; [| |contradiction];
      do 2 eexists; (split; [reflexivity|]); eapply Hrec; eauto.
  - unfold historyMessage. rewrite Hbot, Hnew, Hst.
    destruct (addBug d _) as [[b|] d'|] eqn:Ha; [| |contradiction];
      do 2 eexists; (split; [reflexivity|]); eapply Hrec; eauto.
Qed.

Lemma checked_issue_is_recorded_fixed_witness :
  exists st' d',
    scanMessage 9000 (Js.lit "bugs") Demo.checked noStats (db Demo.tracked) = Next st' d'
    /\ List.map (fun b => (Bug.discord_message_id b, Bug.status b)) (bugs d')
       = [(100, Open); (130, Fixed)].
Proof.
  destruct (checked_issue_is_recorded_fixed 9000 (Js.lit "bugs") Demo.checked (db Demo.tracked))
    as [Hscan _]; [reflexivity|reflexivity| |].
  - exists (mkReaction Js.CHECK 1 [Js.lit "bob"]). split; [left|]; reflexivity.
  - destruct (Hscan noStats) as (st' & d' & Hrun & Hrec).
    exists st', d'. split; [exact Hrun|].
    assert (d' = stepDb (scanMessage 9000 (Js.lit "bugs") Demo.checked noStats
                                     (db Demo.tracked))) as ->
      by (rewrite Hrun; reflexivity).
    reflexivity.
Defined.

(** * Further properties of the store and the handlers *)

(** ** Orderings *)

Section Orderings.
Context {A : Type} (key : A -> Z).

Lemma insertDesc_Permutation (x : A) (l : list A) :
  Permutation (insertDesc key x l) (x :: l).
Proof.
  induction l as [|y r IH]; simpl; [reflexivity|].
  destruct (key y <=? key x); [reflexivity|].
  rewrite IH. apply perm_swap.
Qed.

Lemma orderByDesc_Permutation (l : list A) : Permutation (orderByDesc key l) l.
Proof.
  induction l as [|x r IH]; simpl; [reflexivity|].
  rewrite insertDesc_Permutation. now constructor.
Qed.

Lemma insertAsc_Permutation (x : A) (l : list A) :
  Permutation (insertAsc key x l) (x :: l).
Proof.
  induction l as [|y r IH]; simpl; [reflexivity|].
  destruct (key x <=? key y); [reflexivity|].
  rewrite IH. apply perm_swap.
Qed.

Lemma orderByAsc_Permutation (l : list A) : Permutation (orderByAsc key l) l.
Proof.
  induction l as [|x r IH]; simpl; [reflexivity|].
  rewrite insertAsc_Permutation. now constructor.
Qed.

Lemma insertDesc_sorted (x : A) (l : list A) :
  StronglySorted (descending key) l -> StronglySorted (descending key) (insertDesc key x l).
Proof.
  induction 1 as [|y r Hr IH Hy]; simpl.
  - repeat constructor.
  - destruct (key y <=? key x) eqn:E.
    + apply Z.leb_le in E. constructor; [now constructor|].
      constructor; [exact E|].
      eapply Forall_impl; [exact Hy|]. unfold descending. intros; lia.
    + apply Z.leb_gt in E. constructor; [exact IH|].
      rewrite insertDesc_Permutation. constructor; [unfold descending; lia|exact Hy].
Qed.

Lemma orderByDesc_sorted (l : list A) : StronglySorted (descending key) (orderByDesc key l).
Proof.
  induction l as [|x r IH]; simpl; [constructor|]. now apply insertDesc_sorted.
Qed.

Lemma insertAsc_sorted (x : A) (l : list A) :
  StronglySorted (ascending key) l -> StronglySorted (ascending key) (insertAsc key x l).
Proof.
  induction 1 as [|y r Hr IH Hy]; simpl.
  - repeat constructor.
  - destruct (key x <=? key y) eqn:E.
    + apply Z.leb_le in E. constructor; [now constructor|].
      constructor; [exact E|].
      eapply Forall_impl; [exact Hy|]. unfold ascending. intros; lia.
    + apply Z.leb_gt in E. constructor; [exact IH|].
      rewrite insertAsc_Permutation. constructor; [unfold ascending; lia|exact Hy].
Qed.

Lemma orderByAsc_sorted (l : list A) : StronglySorted (ascending key) (orderByAsc key l).
Proof.
  induction l as [|x r IH]; simpl; [constructor|]. now apply insertAsc_sorted.
Qed.

End Orderings.

Lemma StronglySorted_take {A} (R : A -> A -> Prop) (n : nat) (l : list A) :
  StronglySorted R l -> StronglySorted R (take n l).
Proof.
  intros H. revert n. induction H as [|x r Hr IH Hx]; intros [|n]; simpl; try constructor.
  - apply IH.
  - rewrite Forall_forall in *. intros y Hy. apply Hx.
    rewrite <- (take_drop n r). apply elem_of_app. now left.
Qed.

Lemma StronglySorted_across {A} (R : A -> A -> Prop) (l1 l2 : list A) (a b : A) :
  StronglySorted R (l1 ++ l2) -> In a l1 -> In b l2 -> R a b.
Proof.
  induction l1 as [|x r IH]; simpl; [tauto|].
  intros H [->|Ha] Hb; inversion H as [|? ? Hr Hx]; subst.
  - rewrite Forall_forall in Hx. apply Hx, list_elem_of_In, in_or_app. now right.
  - now apply IH.
Qed.

(** ** Inserts and lookups *)

Lemma getBugById_fresh d i : db_wf d -> bugs_seq d < i -> getBugById d i = None.
Proof.
  intros Hwf Hlt. apply find_none_iff. intros b Hb.
  apply (wf_bug_ids d Hwf) in Hb. apply Z.eqb_neq. lia.
Qed.

Lemma find_snoc_other {A} (f : A -> bool) (l : list A) (x : A) :
  f x = false -> List.find f (l ++ [x]) = List.find f l.
Proof.
  intros Hx. destruct (List.find f l) eqn:E.
  - now apply find_app_some.
  - rewrite find_app_none by exact E. simpl. now rewrite Hx.
Qed.

(** X1. A bug inserted for a message that is not tracked yet gets the next row
    id, above every id in use; it is found again under its message id and
    under its row id, and no other lookup changes. *)
Theorem addBug_lookup_roundtrip (d : Database) (bug : Bug.t) :
  db_wf d ->
  ~ bugTracked d (Bug.discord_message_id bug) ->
  exists d',
    addBug d bug = Ok (Some (Bug.with_id (bugs_seq d + 1) bug)) d'
    /\ getBugByMessageId d' (Bug.discord_message_id bug)
       = Some (Bug.with_id (bugs_seq d + 1) bug)
    /\ getBugById d' (bugs_seq d + 1) = Some (Bug.with_id (bugs_seq d + 1) bug)
    /\ (forall b, In b (bugs d) -> Bug.id b < bugs_seq d + 1)
    /\ (forall m, m <> Bug.discord_message_id bug ->
                  getBugByMessageId d' m = getBugByMessageId d m)
    /\ (forall i, i <> bugs_seq d + 1 -> getBugById d' i = getBugById d i)
    /\ bug_updates d' = bug_updates d.
Proof.
  intros Hwf Hnew. exists (withBug d bug).
  assert (getBugById (withBug d bug) (bugs_seq d + 1)
          = Some (Bug.with_id (bugs_seq d + 1) bug)) as Hid.
  { unfold getBugById, withBug; simpl.
    rewrite find_app_none by (apply (getBugById_fresh d _ Hwf); lia).
    simpl. now rewrite Z.eqb_refl. }
  repeat match goal with |- _ /\ _ => split end.
  - destruct (addBug_cases d bug) as [[Htr _]|[_ ->]]; [contradiction|]. now rewrite Hid.
  - now apply getBugByMessageId_withBug.
  - exact Hid.
  - intros b Hb. apply (wf_bug_ids d Hwf) in Hb. lia.
  - intros m Hm. unfold getBugByMessageId, withBug; simpl.
    apply find_snoc_other. simpl. apply Z.eqb_neq. congruence.
  - intros i Hi. unfold getBugById, withBug; simpl.
    apply find_snoc_other. simpl. apply Z.eqb_neq. congruence.
  - reflexivity.
Qed.

Lemma addBug_lookup_roundtrip_witness :
  exists d',
    addBug (db Demo.tracked) Sample.report2 = Ok (Some (Bug.with_id 2 Sample.report2)) d'
    /\ getBugByMessageId d' 110 = Some (Bug.with_id 2 Sample.report2)
    /\ getBugById d' 2 = Some (Bug.with_id 2 Sample.report2).
Proof.
  destruct (addBug_lookup_roundtrip (db Demo.tracked) Sample.report2)
    as (d' & Hadd & Hmsg & Hid & _).
  - apply run_keeps_schema, fresh_schema.
  - intros (b & Hin & Hm). vm_compute in Hin. destruct Hin as [<-|[]]. discriminate Hm.
  - exists d'. split; [exact Hadd|]. split; [exact Hmsg|exact Hid].
Defined.

Lemma filter_snoc {A} (f : A -> bool) (l : list A) (x : A) :
  List.filter f (l ++ [x]) = List.filter f l ++ (if f x then [x] else []).
Proof. rewrite List.filter_app. reflexivity. Qed.

(** X2. An update inserted for a message that is not tracked yet, under a bug
    that exists, joins the thread of that bug and of no other: the message
    resolves to the bug, the thread gains exactly the stored row, and the
    bug's [updated_at] becomes the update's [created_at], whether that is
    later or earlier than the value it had. No other bug and no other
    thread changes. *)
Theorem addBugUpdate_joins_thread (d : Database) (update : BugUpdate.t) (owner : Bug.t) :
  db_wf d ->
  ~ updateTracked d (BugUpdate.discord_message_id update) ->
  getBugById d (BugUpdate.bug_id update) = Some owner ->
  exists d',
    addBugUpdate d update
    = Ok (Some (BugUpdate.with_id (bug_updates_seq d + 1) update)) d'
    /\ getBugIdFromUpdateMessage d' (BugUpdate.discord_message_id update)
       = Some (BugUpdate.bug_id update)
    /\ Permutation
         (getBugUpdates d' (BugUpdate.bug_id update))
         (BugUpdate.stored (BugUpdate.with_id (bug_updates_seq d + 1) update)
            :: getBugUpdates d (BugUpdate.bug_id update))
    /\ getBugById d' (BugUpdate.bug_id update)
       = Some (Bug.with_updated_at (BugUpdate.created_at update) owner)
    /\ (forall i, i <> BugUpdate.bug_id update ->
                  getBugById d' i = getBugById d i
                  /\ getBugUpdates d' i = getBugUpdates d i).
Proof.
  intros Hwf Hnew Howner. exists (withUpdate d update).
  assert (bugExists d (BugUpdate.bug_id update)) as Hex
    by (apply bugExists_find; congruence).
  assert (Bug.id owner = BugUpdate.bug_id update) as Hoid.
  { apply List.find_some in Howner as [_ H]. now apply Z.eqb_eq in H. }
  repeat match goal with |- _ /\ _ => split end.
  - now apply addBugUpdate_untracked.
  - unfold getBugIdFromUpdateMessage, withUpdate; simpl.
    rewrite find_app_none.
    + cbn. rewrite Z.eqb_refl.
      change (BugUpdate.bug_id (BugUpdate.stored _)) with (BugUpdate.bug_id update).
      destruct (BugUpdate.bug_id update =? 0) eqn:E; [|reflexivity].
      apply Z.eqb_eq in E. apply List.find_some in Howner as [Hin _].
      apply (wf_bug_ids d Hwf) in Hin. lia.
    + apply find_none_iff. intros u Hu. apply Z.eqb_neq. intros Heq.
      apply Hnew. now exists u.
  - unfold getBugUpdates, withUpdate; simpl.
    rewrite !orderByAsc_Permutation, filter_snoc. simpl. rewrite Z.eqb_refl.
    symmetry. apply Permutation_cons_append.
  - unfold getBugById, withUpdate; simpl. rewrite getBugById_touchBug.
    fold (getBugById d (BugUpdate.bug_id update)). rewrite Howner. simpl.
    now rewrite Hoid, Z.eqb_refl.
  - intros i Hi. split.
    + unfold getBugById, withUpdate; simpl. rewrite getBugById_touchBug.
      destruct (List.find _ (bugs d)) as [b|] eqn:E; [|reflexivity]. simpl.
      apply List.find_some in E as [_ E]. apply Z.eqb_eq in E.
      destruct (Bug.id b =? BugUpdate.bug_id update) eqn:E'; [|reflexivity].
      apply Z.eqb_eq in E'. congruence.
    + unfold getBugUpdates, withUpdate; simpl. rewrite filter_snoc. simpl.
      destruct (BugUpdate.bug_id update =? i) eqn:E; [apply Z.eqb_eq in E; congruence|].
      now rewrite app_nil_r.
Qed.

Lemma addBugUpdate_joins_thread_witness :
  exists d',
    addBugUpdate (db Demo.tracked) (updateOfMessage Demo.reply 1)
    = Ok (Some (BugUpdate.with_id 1 (updateOfMessage Demo.reply 1))) d'
    /\ getBugIdFromUpdateMessage d' 101 = Some 1
    /\ option_map Bug.updated_at (getBugById d' 1) = Some 1101.
Proof.
  destruct (addBugUpdate_joins_thread (db Demo.tracked) (updateOfMessage Demo.reply 1)
              (Demo.nthBug 0 Demo.tracked))
    as (d' & Hadd & Hres & _ & Howner & _).
  - apply run_keeps_schema, fresh_schema.
  - intros (u & Hin & _). destruct Hin.
  - reflexivity.
  - exists d'. split; [exact Hadd|]. split; [exact Hres|]. cbn in Howner.
    now rewrite Howner.
Defined.

(** ** Listings *)

(** X3. [getOpenBugs] lists exactly the open bugs, each as often as it is
    stored, the most recently updated first. *)
Theorem getOpenBugs_most_recent_first (d : Database) :
  Permutation (getOpenBugs d) (List.filter isOpen (bugs d))
  /\ StronglySorted (descending Bug.updated_at) (getOpenBugs d).
Proof.
  split; [apply orderByDesc_Permutation|apply orderByDesc_sorted].
Qed.

(** X4. [getRecentlyActiveBugs] lists open bugs of the channel only, at most
    [limit] of them and all of them when there are no more than [limit],
    the most recently updated first; a bug of the channel that is left
    out was not updated after any bug listed. *)
Theorem getRecentlyActiveBugs_top_of_channel (d : Database) (channelId : Snowflake)
    (limit : nat) :
  let pool := List.filter (fun b => (Bug.channel_id b =? channelId) && isOpen b) (bugs d) in
  let listed := getRecentlyActiveBugs d channelId limit in
  length listed = Nat.min limit (length pool)
  /\ (forall b, In b listed ->
                In b (bugs d) /\ Bug.channel_id b = channelId /\ Bug.status b = Open)
  /\ StronglySorted (descending Bug.updated_at) listed
  /\ (forall b r, In b pool -> ~ In b listed -> In r listed ->
                  Bug.updated_at b <= Bug.updated_at r).
Proof.
  intros pool listed. subst listed. unfold getRecentlyActiveBugs. fold isOpen.
  change (List.filter _ (bugs d)) with pool.
  set (sorted := orderByDesc Bug.updated_at pool).
  assert (Permutation sorted pool) as Hperm by apply orderByDesc_Permutation.
  assert (forall b, In b (take limit sorted) -> In b sorted) as Hsub.
  { intros b Hb. rewrite <- (take_drop limit sorted). apply in_or_app. now left. }
  repeat match goal with |- _ /\ _ => split end.
  - rewrite length_take. now rewrite (Permutation_length Hperm).
  - intros b Hb. apply Hsub in Hb.
    apply (Permutation_in _ Hperm), List.filter_In in Hb as [Hin Hb].
    apply andb_true_iff in Hb as [Hc Ho].
    split; [exact Hin|]. split; [now apply Z.eqb_eq|now apply Status_eqb_eq].
  - apply StronglySorted_take, orderByDesc_sorted.
  - intros b r Hb Hout Hr.
    apply (Permutation_in _ (Permutation_sym Hperm)) in Hb.
    rewrite <- (take_drop limit sorted) in Hb. apply in_app_or in Hb as [Hb|Hb];
      [contradiction|].
    apply (StronglySorted_across (descending Bug.updated_at)
             (take limit sorted) (drop limit sorted) r b); try assumption.
    rewrite take_drop. apply orderByDesc_sorted.
Qed.

(** X5. The thread of a bug, as [getBugUpdates] returns it, holds exactly the
    stored updates of that bug, the oldest first. *)
Theorem getBugUpdates_oldest_first (d : Database) (bugId : Z) :
  Permutation (getBugUpdates d bugId)
              (List.filter (fun u => BugUpdate.bug_id u =? bugId) (bug_updates d))
  /\ StronglySorted (ascending BugUpdate.created_at) (getBugUpdates d bugId)
  /\ (forall u, In u (getBugUpdates d bugId) <->
                In u (bug_updates d) /\ BugUpdate.bug_id u = bugId).
Proof.
  repeat match goal with |- _ /\ _ => split end.
  - apply orderByAsc_Permutation.
  - apply orderByAsc_sorted.
  - intros u. unfold getBugUpdates.
    rewrite In_orderByAsc, List.filter_In, Z.eqb_eq. reflexivity.
Qed.

(** X6. [getAllBugs] returns bugs that pass every filter given, the most
    recently created first. With a positive limit it returns that many of
    them, or all when there are fewer; with no limit, and also with a limit
    of zero or below, it returns every bug that passes. *)
Theorem getAllBugs_filters_then_limits (d : Database) (options : BugQuery) :
  let passing := List.filter (selected options) (bugs d) in
  let rows := getAllBugs d options in
  (forall b, In b rows -> In b (bugs d) /\ selected options b = true)
  /\ StronglySorted (descending Bug.created_at) rows
  /\ match query_limit options with
     | Some n => if 0 <? n
                 then length rows = Nat.min (Z.to_nat n) (length passing)
                      /\ (forall b r, In b passing -> ~ In b rows -> In r rows ->
                                      Bug.created_at b <= Bug.created_at r)
                 else Permutation rows passing
     | None => Permutation rows passing
     end.
Proof.
  intros passing rows. subst rows. unfold getAllBugs.
  change (List.filter _ (bugs d)) with passing.
  set (sorted := orderByDesc Bug.created_at passing).
  assert (Permutation sorted passing) as Hperm by apply orderByDesc_Permutation.
  assert (StronglySorted (descending Bug.created_at) sorted) as Hsorted
    by apply orderByDesc_sorted.
  assert (forall b, In b sorted -> In b (bugs d) /\ selected options b = true) as Hin.
  { intros b Hb. now apply (Permutation_in _ Hperm), List.filter_In in Hb. }
  assert (forall P : Prop, P = Permutation sorted passing ->
            (forall b, In b sorted -> In b (bugs d) /\ selected options b = true)
            /\ StronglySorted (descending Bug.created_at) sorted /\ P) as Hall.
  { intros P ->. split; [exact Hin|]. split; assumption. }
  destruct (query_limit options) as [n|]; [|now apply Hall].
  destruct (n =? 0) eqn:E0.
  { apply Z.eqb_eq in E0. subst n. now apply Hall. }
  destruct (n <? 0) eqn:E1.
  { apply Z.ltb_lt in E1. replace (0 <? n) with false by (symmetry; apply Z.ltb_ge; lia).
    now apply Hall. }
  apply Z.eqb_neq in E0. apply Z.ltb_ge in E1.
  replace (0 <? n) with true by (symmetry; apply Z.ltb_lt; lia).
  repeat match goal with |- _ /\ _ => split end.
  - intros b Hb. apply Hin. rewrite <- (take_drop (Z.to_nat n) sorted).
    apply in_or_app. now left.
  - now apply StronglySorted_take.
  - rewrite length_take. now rewrite (Permutation_length Hperm).
  - intros b r Hb Hout Hr.
    apply (Permutation_in _ (Permutation_sym Hperm)) in Hb.
    rewrite <- (take_drop (Z.to_nat n) sorted) in Hb.
    apply in_app_or in Hb as [Hb|Hb]; [contradiction|].
    apply (StronglySorted_across (descending Bug.created_at)
             (take (Z.to_nat n) sorted) (drop (Z.to_nat n) sorted) r b); try assumption.
    now rewrite take_drop.
Qed.

Lemma getAllBugs_filters_then_limits_witness :
  length (getAllBugs (db Sample.board) (mkBugQuery None None None (Some 0))) = 3%nat
  /\ length (getAllBugs (db Sample.board) (mkBugQuery None None None (Some 2))) = 2%nat.
Proof.
  split.
  - destruct (getAllBugs_filters_then_limits (db Sample.board)
                (mkBugQuery None None None (Some 0))) as (_ & _ & Hall).
    cbn [query_limit Z.ltb Z.compare] in Hall.
    rewrite (Permutation_length Hall). vm_compute. reflexivity.
  - destruct (getAllBugs_filters_then_limits (db Sample.board)
                (mkBugQuery None None None (Some 2))) as (_ & _ & Hsome).
    cbn [query_limit Z.ltb Z.compare] in Hsome.
    destruct Hsome as [-> _]. vm_compute. reflexivity.
Defined.

(** ** Deletion *)

Lemma find_filter_implied {A} (f p : A -> bool) (l : list A) :
  (forall x, f x = true -> p x = true) ->
  List.find f (List.filter p l) = List.find f l.
Proof.
  intros Himp. induction l as [|x r IH]; simpl; [reflexivity|].
  destruct (f x) eqn:Ef.
  - rewrite (Himp x Ef). simpl. now rewrite Ef.
  - destruct (p x); simpl; [rewrite Ef|]; exact IH.
Qed.

Lemma find_filter_excluded {A} (f p : A -> bool) (l : list A) :
  (forall x, f x = true -> p x = false) ->
  List.find f (List.filter p l) = None.
Proof.
  intros Hex. apply find_none_iff. intros x Hx.
  apply List.filter_In in Hx as [_ Hp].
  destruct (f x) eqn:Ef; [|reflexivity]. rewrite (Hex x Ef) in Hp. discriminate.
Qed.

Lemma find_filter_kept {A} (f p : A -> bool) (l : list A) (x : A) :
  List.find f l = Some x -> p x = true -> List.find f (List.filter p l) = Some x.
Proof.
  intros Hfind Hp. induction l as [|y r IH]; simpl in *; [discriminate|].
  destruct (f y) eqn:Ef.
  - injection Hfind as ->. rewrite Hp. simpl. now rewrite Ef.
  - destruct (p y); simpl; [rewrite Ef|]; now apply IH.
Qed.

Lemma filter_filter_implied {A} (f p : A -> bool) (l : list A) :
  (forall x, f x = true -> p x = true) ->
  List.filter f (List.filter p l) = List.filter f l.
Proof.
  intros Himp. induction l as [|x r IH]; simpl; [reflexivity|].
  destruct (f x) eqn:Ef.
  - rewrite (Himp x Ef). simpl. now rewrite Ef, IH.
  - destruct (p x); simpl; [rewrite Ef|]; exact IH.
Qed.

Lemma filter_filter_excluded {A} (f p : A -> bool) (l : list A) :
  (forall x, f x = true -> p x = false) ->
  List.filter f (List.filter p l) = [].
Proof.
  intros Hex. induction l as [|x r IH]; simpl; [reflexivity|].
  destruct (p x) eqn:Ep; [|exact IH]. simpl.
  destruct (f x) eqn:Ef; [|exact IH]. rewrite (Hex x Ef) in Ep. discriminate.
Qed.

Lemma filter_length_split {A} (p : A -> bool) (l : list A) :
  (length (List.filter p l) + length (List.filter (fun x => negb (p x)) l))%nat = length l.
Proof.
  induction l as [|x r IH]; simpl; [reflexivity|].
  destruct (p x); simpl; lia.
Qed.

Lemma filter_all {A} (p : A -> bool) (l : list A) :
  (forall x, In x l -> p x = true) -> List.filter p l = l.
Proof.
  induction l as [|x r IH]; simpl; intros H; [reflexivity|].
  rewrite (H x) by now left. f_equal. apply IH. intros; apply H. now right.
Qed.

Lemma NoDup_map_filter {A B} (key : A -> B) (p : A -> bool) (l : list A) :
  NoDup (List.map key l) -> NoDup (List.map key (List.filter p l)).
Proof.
  induction l as [|x r IH]; simpl; intros H; [constructor|].
  apply NoDup_cons in H as [Hx Hr]. destruct (p x); simpl; [|now apply IH].
  apply NoDup_cons. split; [|now apply IH].
  intros Hin. apply Hx. apply list_elem_of_In in Hin. apply list_elem_of_In.
  apply List.in_map_iff in Hin as (y & Hy & Hin). apply List.in_map_iff.
  exists y. split; [exact Hy|]. now apply List.filter_In in Hin.
Qed.

Lemma NoDup_list_filter {A} (p : A -> bool) (l : list A) :
  NoDup l -> NoDup (List.filter p l).
Proof.
  intros H. rewrite <- (List.map_id (List.filter p l)).
  apply NoDup_map_filter. now rewrite List.map_id.
Qed.

Lemma unique_key {A} (key : A -> Z) (l : list A) (x y : A) :
  NoDup (List.map key l) -> In x l -> In y l -> key x = key y -> x = y.
Proof.
  intros Hnd Hx Hy Hk.
  pose proof (find_unique key l x Hnd Hx) as Fx.
  pose proof (find_unique key l y Hnd Hy) as Fy.
  rewrite Hk in Fx. congruence.
Qed.

(** Rows may leave both tables together as long as no update that stays
    loses its bug. *)
Lemma db_wf_delete (keepBug : Bug.t -> bool) (keepUpdate : BugUpdate.t -> bool) d :
  db_wf d ->
  (forall u b, In u (bug_updates d) -> keepUpdate u = true ->
               In b (bugs d) -> Bug.id b = BugUpdate.bug_id u -> keepBug b = true) ->
  db_wf (mkDb (List.filter keepBug (bugs d)) (bugs_seq d)
              (List.filter keepUpdate (bug_updates d)) (bug_updates_seq d)
              (scan_state d) (monitored_channels d) (foreign_keys d)).
Proof.
  intros Hwf Hkeep.
  destruct Hwf as [Hseq Hids Hidu Hmsgu Huseq Huids Huidu Humsgu Howner].
  constructor; simpl; try assumption.
  - intros b Hb. apply List.filter_In in Hb as [Hb _]. auto.
  - now apply NoDup_map_filter.
  - now apply NoDup_map_filter.
  - intros u Hu. apply List.filter_In in Hu as [Hu _]. auto.
  - now apply NoDup_map_filter.
  - now apply NoDup_map_filter.
  - intros u Hu. apply List.filter_In in Hu as [Hu Hk].
    destruct (Howner u Hu) as (b & Hb & Hid).
    exists b. split; [|exact Hid]. apply List.filter_In. split; [exact Hb|].
    now apply (Hkeep u b).
Qed.

Lemma db_wf_deleteBug d bugId : db_wf d -> db_wf (snd (deleteBug d bugId)).
Proof.
  intros Hwf. unfold deleteBug. destruct (getBugById d bugId); [|exact Hwf]. simpl.
  apply db_wf_delete; [exact Hwf|].
  intros u b _ Hu _ Hid. now rewrite Hid.
Qed.

Lemma deleteBugsByChannel_store maxVariables d channelId n d' :
  deleteBugsByChannel maxVariables d channelId = Ok n d' ->
  d' = mkDb (List.filter (fun b => negb (Bug.channel_id b =? channelId)) (bugs d))
            (bugs_seq d)
            (List.filter
               (fun u => negb (List.existsb (Z.eqb (BugUpdate.bug_id u))
                                 (List.map Bug.id
                                    (List.filter (fun b => Bug.channel_id b =? channelId)
                                                 (bugs d)))))
               (bug_updates d))
            (bug_updates_seq d) (scan_state d) (monitored_channels d) (foreign_keys d).
Proof.
  unfold deleteBugsByChannel.
  destruct (List.filter (fun b => Bug.channel_id b =? channelId) (bugs d))
    as [|b0 doomed] eqn:E.
  - intros [= _ <-]. simpl.
    rewrite !filter_all; [now destruct d|reflexivity|].
    intros b Hb. destruct (Bug.channel_id b =? channelId) eqn:Ec; [|reflexivity].
    assert (In b (List.filter (fun b => Bug.channel_id b =? channelId) (bugs d))) as Hin
      by (apply List.filter_In; auto).
    rewrite E in Hin. destruct Hin.
  - cbn [List.map]. destruct (_ <? _)%nat; [discriminate|]. now intros [= _ <-].
Qed.

Lemma deleteBugsByChannel_count maxVariables d channelId n d' :
  deleteBugsByChannel maxVariables d channelId = Ok n d' ->
  n = Z.of_nat (length (List.filter (fun b => Bug.channel_id b =? channelId) (bugs d))).
Proof.
  unfold deleteBugsByChannel.
  pose proof (filter_length_split (fun b => Bug.channel_id b =? channelId) (bugs d)) as H.
  destruct (List.filter (fun b => Bug.channel_id b =? channelId) (bugs d)) as [|b0 r].
  - now intros [= <- _].
  - cbn [List.map]. destruct (_ <? _)%nat; [discriminate|]. intros [= <- _]. lia.
Qed.

Lemma deleteBugsByChannel_throws maxVariables d channelId :
  deleteBugsByChannel maxVariables d channelId = Throw <->
  Nat.lt maxVariables
         (length (List.filter (fun b => Bug.channel_id b =? channelId) (bugs d))).
Proof.
  unfold deleteBugsByChannel.
  destruct (List.filter (fun b => Bug.channel_id b =? channelId) (bugs d)) as [|b0 r].
  - simpl. split; [discriminate|lia].
  - cbn [List.map length]. rewrite length_map.
    destruct (maxVariables <? S (length r))%nat eqn:E.
    + apply Nat.ltb_lt in E. tauto.
    + apply Nat.ltb_ge in E. split; [discriminate|lia].
Qed.

Lemma db_wf_deleteBugsByChannel maxVariables d channelId n d' :
  db_wf d -> deleteBugsByChannel maxVariables d channelId = Ok n d' -> db_wf d'.
Proof.
  intros Hwf Hdel. rewrite (deleteBugsByChannel_store _ _ _ _ _ Hdel).
  apply db_wf_delete; [exact Hwf|].
  intros u b _ Hu Hb Hid.
  destruct (Bug.channel_id b =? channelId) eqn:Ec; [|reflexivity].
  apply negb_true_iff in Hu.
  rewrite (existsb_In_true _ _ (Bug.id b)) in Hu; [discriminate| |].
  - apply List.in_map, List.filter_In. auto.
  - apply Z.eqb_eq. congruence.
Qed.

Lemma getBugById_deleteBug d bugId : getBugById (snd (deleteBug d bugId)) bugId = None.
Proof.
  unfold deleteBug. destruct (getBugById d bugId) eqn:E; [|exact E].
  unfold getBugById; simpl. apply find_filter_excluded.
  intros x Hx. now rewrite Hx.
Qed.

(** X7. [deleteBug] on an id that is not stored answers [false] and leaves the
    store alone. On a stored bug it answers [true]; afterwards neither the
    bug nor any update of its thread is found, and no message resolves to
    it any more, while every other bug keeps its row, its thread and the
    message it is found under. *)
Theorem deleteBug_removes_bug_and_thread (d : Database) (bugId : Z) :
  match getBugById d bugId with
  | None => deleteBug d bugId = (false, d)
  | Some _ =>
      exists d',
        deleteBug d bugId = (true, d')
        /\ getBugById d' bugId = None
        /\ getBugUpdates d' bugId = []
        /\ (forall m, getBugIdFromUpdateMessage d' m <> Some bugId)
        /\ (forall i, i <> bugId ->
                      getBugById d' i = getBugById d i
                      /\ getBugUpdates d' i = getBugUpdates d i)
        /\ (forall m b, getBugByMessageId d m = Some b -> Bug.id b <> bugId ->
                        getBugByMessageId d' m = Some b)
  end.
Proof.
  unfold deleteBug. destruct (getBugById d bugId) as [b0|] eqn:E; [|reflexivity].
  eexists. split; [reflexivity|].
  repeat match goal with |- _ /\ _ => split end.
  - unfold getBugById; simpl. apply find_filter_excluded.
    intros x Hx. now rewrite Hx.
  - unfold getBugUpdates; simpl. rewrite filter_filter_excluded; [reflexivity|].
    intros x Hx. now rewrite Hx.
  - intros m. unfold getBugIdFromUpdateMessage; simpl.
    destruct (List.find _ _) as [u|] eqn:Eu; [|discriminate].
    apply List.find_some in Eu as [Hin _]. apply List.filter_In in Hin as [_ Hne].
    apply negb_true_iff, Z.eqb_neq in Hne.
    destruct (BugUpdate.bug_id u =? 0); congruence.
  - intros i Hi. split.
    + unfold getBugById; simpl. apply find_filter_implied.
      intros x Hx. apply Z.eqb_eq in Hx. apply negb_true_iff, Z.eqb_neq. congruence.
    + unfold getBugUpdates; simpl. f_equal. apply filter_filter_implied.
      intros x Hx. apply Z.eqb_eq in Hx. apply negb_true_iff, Z.eqb_neq. congruence.
  - intros m b Hb Hid. unfold getBugByMessageId; simpl.
    apply find_filter_kept; [exact Hb|]. now apply negb_true_iff, Z.eqb_neq.
Qed.

Lemma deleteBug_removes_bug_and_thread_witness :
  exists d',
    deleteBug (db Sample.board) 1 = (true, d')
    /\ getBugUpdates d' 1 = []
    /\ getBugIdFromUpdateMessage d' 101 = None
    /\ getBugIdFromUpdateMessage d' 301 = Some 2.
Proof.
  pose proof (deleteBug_removes_bug_and_thread (db Sample.board) 1) as H.
  assert (getBugById (db Sample.board) 1 = Some (Demo.nthBug 0 Sample.board)) as E
    by (vm_compute; reflexivity).
  rewrite E in H. destruct H as (d' & Hdel & _ & Hthread & _).
  exists d'. split; [exact Hdel|]. split; [exact Hthread|].
  vm_compute in Hdel. injection Hdel as <-. split; vm_compute; reflexivity.
Defined.

Lemma addBug_untracked d bug :
  db_wf d -> ~ bugTracked d (Bug.discord_message_id bug) ->
  addBug d bug = Ok (Some (Bug.with_id (bugs_seq d + 1) bug)) (withBug d bug).
Proof.
  intros Hwf Hnew.
  destruct (addBug_cases d bug) as [[Htr _]|[_ ->]]; [contradiction|]. f_equal.
  unfold getBugById, withBug; simpl.
  rewrite find_app_none by (apply (getBugById_fresh d _ Hwf); lia).
  simpl. now rewrite Z.eqb_refl.
Qed.

(** X8. Row ids are not reused. Once a bug is deleted its message can be filed
    again ([addBug] no longer answers [null] for it), and the bug it
    becomes gets an id above the one deleted: what was recorded under the
    old id, an update's [bug_id] or a link of the dashboard, never comes to
    name the new bug. *)
Theorem deleted_message_is_filed_under_new_id (d : Database) (bugId : Z) (old bug : Bug.t) :
  db_wf d ->
  getBugById d bugId = Some old ->
  Bug.discord_message_id bug = Bug.discord_message_id old ->
  addBug d bug = Ok None d
  /\ exists d',
       addBug (snd (deleteBug d bugId)) bug
       = Ok (Some (Bug.with_id (bugs_seq d + 1) bug)) d'
       /\ bugId < bugs_seq d + 1
       /\ getBugById d' bugId = None
       /\ getBugByMessageId d' (Bug.discord_message_id old)
          = Some (Bug.with_id (bugs_seq d + 1) bug).
Proof.
  intros Hwf Hold Hmsg.
  pose proof (List.find_some _ _ Hold) as [Hin Hid]. apply Z.eqb_eq in Hid.
  split.
  { apply addBug_tracked. exists old. split; [exact Hin|congruence]. }
  pose proof (db_wf_deleteBug d bugId Hwf) as Hwf'.
  assert (~ bugTracked (snd (deleteBug d bugId)) (Bug.discord_message_id bug)) as Hnew.
  { unfold deleteBug. rewrite Hold. simpl. intros (b & Hb & Hm). simpl in Hb.
    apply List.filter_In in Hb as [Hb Hne]. apply negb_true_iff, Z.eqb_neq in Hne.
    apply Hne. rewrite <- Hid. f_equal.
    apply (unique_key Bug.discord_message_id (bugs d));
      [apply (wf_bug_message_unique d Hwf)|assumption|assumption|congruence]. }
  assert (bugs_seq (snd (deleteBug d bugId)) = bugs_seq d) as Hseq.
  { unfold deleteBug. now rewrite Hold. }
  exists (withBug (snd (deleteBug d bugId)) bug).
  repeat match goal with |- _ /\ _ => split end.
  - rewrite <- Hseq. now apply addBug_untracked.
  - apply (wf_bug_ids d Hwf) in Hin. lia.
  - unfold getBugById, withBug. cbn [bugs]. rewrite find_snoc_other.
    + apply getBugById_deleteBug.
    + simpl. apply Z.eqb_neq. apply (wf_bug_ids d Hwf) in Hin. lia.
  - rewrite <- Hmsg, <- Hseq. now apply getBugByMessageId_withBug.
Qed.

Lemma deleted_message_is_filed_under_new_id_witness :
  addBug (db Demo.threaded) Sample.report1 = Ok None (db Demo.threaded)
  /\ exists d',
       addBug (snd (deleteBug (db Demo.threaded) 1)) Sample.report1
       = Ok (Some (Bug.with_id 2 Sample.report1)) d'
       /\ getBugById d' 1 = None.
Proof.
  destruct (deleted_message_is_filed_under_new_id (db Demo.threaded) 1
              (Demo.nthBug 0 Demo.threaded) Sample.report1)
    as (Hdup & d' & Hadd & _ & Hgone & _).
  - apply run_keeps_schema, fresh_schema.
  - reflexivity.
  - reflexivity.
  - split; [exact Hdup|]. exists d'. split; [exact Hadd|exact Hgone].
Defined.

(** X9. [deleteBugsByChannel] deletes the bugs of the channel with their
    threads and answers how many bugs that was; bugs of other channels keep
    their rows and threads, and scan positions stay as they were, the one
    of the channel included. When the channel has more bugs than a
    statement takes parameters the call throws and deletes nothing. *)
Theorem deleteBugsByChannel_clears_channel (maxVariables : nat) (d : Database)
    (channelId : Snowflake) :
  db_wf d ->
  let doomed := List.filter (fun b => Bug.channel_id b =? channelId) (bugs d) in
  if (maxVariables <? length doomed)%nat
  then deleteBugsByChannel maxVariables d channelId = Throw
  else
    exists d',
      deleteBugsByChannel maxVariables d channelId = Ok (Z.of_nat (length doomed)) d'
      /\ (forall b, In b (bugs d') <-> In b (bugs d) /\ Bug.channel_id b <> channelId)
      /\ (forall b, In b doomed ->
                    getBugById d' (Bug.id b) = None /\ getBugUpdates d' (Bug.id b) = [])
      /\ (forall b, In b (bugs d) -> Bug.channel_id b <> channelId ->
                    getBugById d' (Bug.id b) = Some b
                    /\ getBugUpdates d' (Bug.id b) = getBugUpdates d (Bug.id b))
      /\ scan_state d' = scan_state d.
Proof.
  intros Hwf doomed.
  assert (forall b b', In b (bugs d) -> In b' doomed -> Bug.id b = Bug.id b' ->
                       Bug.channel_id b = channelId) as Hsame.
  { intros b b' Hb Hb' Hid. apply List.filter_In in Hb' as [Hin Hc].
    apply Z.eqb_eq in Hc. rewrite <- Hc. f_equal.
    apply (unique_key Bug.id (bugs d)); auto. apply (wf_bug_id_unique d Hwf). }
  destruct (maxVariables <? length doomed)%nat eqn:Emax.
  { apply deleteBugsByChannel_throws. now apply Nat.ltb_lt. }
  destruct (deleteBugsByChannel maxVariables d channelId) as [n d'|] eqn:Hdel.
  2: { apply deleteBugsByChannel_throws, Nat.ltb_lt in Hdel. fold doomed in Hdel.
       congruence. }
  rewrite (deleteBugsByChannel_count _ _ _ _ _ Hdel). fold doomed.
  exists d'. split; [reflexivity|].
  rewrite (deleteBugsByChannel_store _ _ _ _ _ Hdel). fold doomed.
  repeat match goal with |- _ /\ _ => split end.
  - intros b. cbn [bugs]. rewrite List.filter_In, negb_true_iff, Z.eqb_neq. reflexivity.
  - intros b Hb. split.
    + unfold getBugById. cbn [bugs]. apply find_none_iff. intros x Hx.
      apply List.filter_In in Hx as [Hx Hc]. apply negb_true_iff, Z.eqb_neq in Hc.
      apply Z.eqb_neq. intros Hid. apply Hc. now apply (Hsame x b).
    + unfold getBugUpdates. cbn [bug_updates].
      rewrite filter_filter_excluded; [reflexivity|].
      intros u Hu. apply Z.eqb_eq in Hu. apply negb_false_iff.
      apply existsb_In_true with (x := Bug.id b); [now apply List.in_map|].
      now apply Z.eqb_eq.
  - intros b Hb Hc. split.
    + unfold getBugById. cbn [bugs]. apply find_filter_kept.
      * apply (find_unique Bug.id); [apply (wf_bug_id_unique d Hwf)|exact Hb].
      * now apply negb_true_iff, Z.eqb_neq.
    + unfold getBugUpdates. cbn [bug_updates]. f_equal. apply filter_filter_implied.
      intros u Hu. apply Z.eqb_eq in Hu. apply negb_true_iff.
      destruct (List.existsb _ _) eqn:Eex; [|reflexivity]. exfalso.
      apply List.existsb_exists in Eex as (i & Hi & Heq). apply Z.eqb_eq in Heq.
      apply List.in_map_iff in Hi as (b' & Hid & Hb').
      apply Hc. apply (Hsame b b'); [exact Hb|exact Hb'|congruence].
  - reflexivity.
Qed.

Lemma deleteBugsByChannel_clears_channel_witness :
  exists d',
    deleteBugsByChannel 999 (db Sample.board) Demo.channel = Ok 2 d'
    /\ getBugById d' 1 = None
    /\ option_map Bug.discord_message_id (getBugById d' 2) = Some 300
    /\ List.map BugUpdate.discord_message_id (getBugUpdates d' 2) = [301].
Proof.
  assert (db_wf (db Sample.both)) as Hboth
    by (constructor; simpl; try lia; try constructor; intros ? []).
  pose proof (deleteBugsByChannel_clears_channel 999 (db Sample.board) Demo.channel
                (run_keeps_schema Demo.noAI 5000 _ Sample.both Hboth)) as H.
  cbv zeta in H.
  remember (Nat.ltb 999 (length (List.filter (fun b => Bug.channel_id b =? Demo.channel)
                                             (bugs (db Sample.board))))) as fits eqn:Efits.
  vm_compute in Efits. subst fits.
  destruct H as (d' & Hdel & _).
  vm_compute in Hdel. injection Hdel as <-.
  eexists. repeat split; vm_compute; reflexivity.
Defined.

(** ** Edits *)

Lemma map_unless {A} (f : A -> bool) (g : A -> A) (l : list A) :
  (forall x, In x l -> f x = false) -> List.map (fun x => if f x then g x else x) l = l.
Proof.
  induction l as [|x r IH]; simpl; intros H; [reflexivity|].
  rewrite (H x) by now left. f_equal. apply IH. intros; apply H. now right.
Qed.

Lemma set_bugs_same d : set_bugs (bugs d) d = d.
Proof. now destruct d. Qed.

Lemma updateBug_missing now d bugId updates :
  getBugById d bugId = None -> updateBug now d bugId updates = (None, d).
Proof.
  intros E. unfold updateBug.
  rewrite map_unless by now apply find_none_iff.
  rewrite set_bugs_same, E.
  now destruct (edit_content updates), (edit_type updates), (edit_status updates).
Qed.

Lemma updateBug_found now d bugId updates b :
  getBugById d bugId = Some b -> fst (updateBug now d bugId updates) <> None.
Proof.
  intros E. unfold updateBug.
  assert (forall g : Bug.t -> Bug.t,
             (forall x, Bug.id (g x) = Bug.id x) ->
             getBugById (set_bugs (List.map g (bugs d)) d) bugId <> None) as Hget.
  { intros g Hg. unfold getBugById. cbn [bugs set_bugs].
    rewrite find_map_preserving by (intros x; now rewrite Hg).
    fold (getBugById d bugId). now rewrite E. }
  destruct (edit_content updates), (edit_type updates), (edit_status updates);
    cbn [fst]; try (apply Hget; intros x; now destruct (Bug.id x =? bugId)).
  congruence.
Qed.

(** X10. An admin edit replaces the fields it gives and stamps [updated_at];
    the fields it leaves out, the thread and every other bug stay as they
    were. This is the one statement through which a fixed bug goes back to
    open. An edit with no field writes nothing, and an edit of an id that
    is not stored answers [null] without touching the store. *)
Theorem updateBug_edits_given_fields (now : Timestamp) (d : Database) (bugId : Z)
    (updates : BugEdit) :
  match getBugById d bugId with
  | None => updateBug now d bugId updates = (None, d)
  | Some b =>
      exists d',
        updateBug now d bugId updates
        = (Some (match updates with
                 | mkBugEdit None None None => b
                 | _ => applyEdit now updates b
                 end), d')
        /\ (updates = mkBugEdit None None None -> d' = d)
        /\ statusOf d' bugId = Some (default (Bug.status b) (edit_status updates))
        /\ (forall i, i <> bugId -> getBugById d' i = getBugById d i)
        /\ bug_updates d' = bug_updates d
        /\ List.map Bug.id (bugs d') = List.map Bug.id (bugs d)
  end.
Proof.
  set (g := fun b => if Bug.id b =? bugId then applyEdit now updates b else b).
  assert (forall i, getBugById (set_bugs (List.map g (bugs d)) d) i
                    = option_map g (getBugById d i)) as Hget.
  { intros i. unfold getBugById. cbn [bugs set_bugs].
    apply find_map_preserving. intros x. unfold g. now destruct (Bug.id x =? bugId). }
  destruct (getBugById d bugId) as [b|] eqn:E.
  - assert (g b = applyEdit now updates b) as Hgb.
    { unfold g. apply List.find_some in E as [_ ->]. reflexivity. }
    assert (forall i, i <> bugId ->
                      getBugById (set_bugs (List.map g (bugs d)) d) i = getBugById d i) as Hoth.
    { intros i Hi. rewrite Hget. destruct (getBugById d i) as [x|] eqn:Ex; [|reflexivity].
      simpl. unfold g. apply List.find_some in Ex as [_ Ex]. apply Z.eqb_eq in Ex.
      destruct (Bug.id x =? bugId) eqn:Ei; [|reflexivity].
      apply Z.eqb_eq in Ei. congruence. }
    assert (List.map Bug.id (List.map g (bugs d)) = List.map Bug.id (bugs d)) as Hids.
    { apply map_map_key. intros x. unfold g. now destruct (Bug.id x =? bugId). }
    unfold updateBug.
    destruct updates as [[c|] [ty|] [st|]]; cbn [edit_content edit_type edit_status];
      fold g;
      try (eexists; split; [rewrite Hget, E; simpl; rewrite Hgb; reflexivity|];
           split; [discriminate|]; split;
           [unfold statusOf; rewrite Hget, E; simpl; rewrite Hgb; reflexivity|];
           split; [exact Hoth|]; split; [reflexivity|exact Hids]).
    exists d. rewrite E. unfold statusOf. rewrite E. now repeat split.
  - now apply updateBug_missing.
Qed.

Lemma updateBug_edits_given_fields_witness :
  statusOf (db Demo.oneClosed) 1 = Some Fixed
  /\ exists d',
       snd (updateBug 9000 (db Demo.oneClosed) 1 (mkBugEdit None None (Some Open))) = d'
       /\ statusOf d' 1 = Some Open
       /\ option_map Bug.updated_at (getBugById d' 1) = Some 9000.
Proof.
  split; [vm_compute; reflexivity|].
  pose proof (updateBug_edits_given_fields 9000 (db Demo.oneClosed) 1
                (mkBugEdit None None (Some Open))) as H.
  assert (getBugById (db Demo.oneClosed) 1 = Some (Demo.nthBug 0 Demo.oneClosed)) as E
    by (vm_compute; reflexivity).
  rewrite E in H. destruct H as (d' & Hedit & _ & Hstatus & _).
  exists d'. rewrite Hedit. split; [reflexivity|]. split; [exact Hstatus|].
  vm_compute in Hedit. injection Hedit as <-. vm_compute. reflexivity.
Defined.

Lemma db_wf_updateBug now d bugId updates : db_wf d -> db_wf (snd (updateBug now d bugId updates)).
Proof.
  intros Hwf. unfold updateBug.
  destruct (edit_content updates), (edit_type updates), (edit_status updates);
    cbn [snd]; try exact Hwf;
    apply db_wf_map_bugs; try exact Hwf; intros x; now destruct (Bug.id x =? bugId).
Qed.

(** ** Statistics *)

Lemma length_getAllBugs d st ty :
  length (getAllBugs d (mkBugQuery st ty None None))
  = length (List.filter (selected (mkBugQuery st ty None None)) (bugs d)).
Proof. unfold getAllBugs. simpl. apply Permutation_length, orderByDesc_Permutation. Qed.

(** X11. Every counter of [getStats] is the number of bugs that [getAllBugs]
    lists under the same status and type; the open and the fixed counters
    add up to the totals, and so do those of bugs and of requests. *)
Theorem getStats_counts_listings (d : Database) :
  (forall st ty, counter st ty (getStats d)
                 = Z.of_nat (length (getAllBugs d (mkBugQuery st ty None None))))
  /\ (forall ty, counter None ty (getStats d)
                 = counter (Some Open) ty (getStats d)
                   + counter (Some Fixed) ty (getStats d))
  /\ (forall st, counter st None (getStats d)
                 = counter st (Some TBug) (getStats d)
                   + counter st (Some TRequest) (getStats d)).
Proof.
  assert (forall st ty, counter st ty (getStats d)
                        = Z.of_nat (length (getAllBugs d (mkBugQuery st ty None None))))
    as Hcount.
  { intros st ty. rewrite length_getAllBugs. unfold counter, getStats, sumWhen, selected.
    cbn [query_status query_type query_channelId Stats.all Stats.bugs Stats.requests
         Stats.total Stats.open Stats.fixed].
    destruct st as [[|]|], ty as [[|]|]; cbn [Stats.total Stats.open Stats.fixed];
      try (rewrite filter_all by reflexivity; reflexivity);
      do 2 f_equal; apply List.filter_ext; intros b;
      now rewrite ?andb_true_r, ?andb_true_l, 1?andb_comm. }
  split; [exact Hcount|].
  assert (forall (p q : Bug.t -> bool),
             Z.of_nat (length (List.filter p (bugs d)))
             = Z.of_nat (length (List.filter (fun b => p b && q b) (bugs d)))
               + Z.of_nat (length (List.filter (fun b => p b && negb (q b)) (bugs d))))
    as Hsplit.
  { intros p q. induction (bugs d) as [|b r IH]; simpl; [reflexivity|].
    destruct (p b), (q b); simpl; lia. }
  split.
  - intros ty. rewrite !Hcount, !length_getAllBugs.
    rewrite (Hsplit _ (fun b => Status_eqb (Bug.status b) Open)). f_equal; do 2 f_equal;
      apply List.filter_ext; intros b; unfold selected; simpl;
      destruct (Bug.status b), ty as [[|]|], (Bug.type b); reflexivity.
  - intros st. rewrite !Hcount, !length_getAllBugs.
    rewrite (Hsplit _ (fun b => BugType_eqb (Bug.type b) TBug)). f_equal; do 2 f_equal;
      apply List.filter_ext; intros b; unfold selected; simpl;
      destruct (Bug.type b), st as [[|]|], (Bug.status b); reflexivity.
Qed.

Lemma getStats_counts_listings_witness :
  counter None None (getStats (db Demo.oneClosed)) = 3
  /\ counter (Some Open) None (getStats (db Demo.oneClosed)) = 2
  /\ counter (Some Fixed) (Some TBug) (getStats (db Demo.oneClosed)) = 1.
Proof.
  destruct (getStats_counts_listings (db Demo.oneClosed)) as (Hlist & _).
  rewrite !Hlist. repeat split.
Defined.

Lemma count_after_edit (p : Bug.t -> bool) (g : Bug.t -> Bug.t) (l : list Bug.t) (b : Bug.t) :
  NoDup (List.map Bug.id l) -> In b l ->
  Z.of_nat (length (List.filter p
                      (List.map (fun x => if Bug.id x =? Bug.id b then g x else x) l)))
  = Z.of_nat (length (List.filter p l))
    - (if p b then 1 else 0) + (if p (g b) then 1 else 0).
Proof.
  induction l as [|x r IH]; simpl; intros Hnd Hin; [destruct Hin|].
  apply NoDup_cons in Hnd as [Hx Hr].
  destruct (Bug.id x =? Bug.id b) eqn:E.
  - apply Z.eqb_eq in E.
    assert (x = b) as ->.
    { destruct Hin as [|Hin]; [assumption|]. exfalso. apply Hx. rewrite E.
      apply list_elem_of_In. now apply List.in_map. }
    rewrite map_unless.
    + destruct (p b), (p (g b)); simpl; lia.
    + intros y Hy. apply Z.eqb_neq. intros Hid. apply Hx. rewrite <- Hid.
      apply list_elem_of_In. now apply List.in_map.
  - destruct Hin as [->|Hin]; [rewrite Z.eqb_refl in E; discriminate|].
    specialize (IH Hr Hin). destruct (p x); simpl; lia.
Qed.

(** X12. Closing an open bug moves one unit from the open counter to the fixed
    counter, overall and for the bug's type; the totals stay. *)
Theorem closing_moves_one_from_open_to_fixed (now : Timestamp) (d : Database) (b : Bug.t) :
  db_wf d ->
  In b (bugs d) ->
  Bug.status b = Open ->
  let before := getStats d in
  let after := getStats (updateBugStatus now d (Bug.id b) Fixed) in
  forall ty, counter None ty after = counter None ty before
             /\ (ty = None \/ ty = Some (Bug.type b) ->
                 counter (Some Open) ty after = counter (Some Open) ty before - 1
                 /\ counter (Some Fixed) ty after = counter (Some Fixed) ty before + 1).
Proof.
  intros Hwf Hin Hopen before after ty. subst before after.
  pose proof (wf_bug_id_unique d Hwf) as Hnd.
  assert (forall p : Bug.t -> bool,
             sumWhen p (updateBugStatus now d (Bug.id b) Fixed)
             = sumWhen p d - (if p b then 1 else 0)
               + (if p (Bug.with_status Fixed now b) then 1 else 0)) as Hcount.
  { intros p. unfold sumWhen, updateBugStatus. cbn [bugs set_bugs].
    now apply count_after_edit. }
  assert (length (bugs (updateBugStatus now d (Bug.id b) Fixed)) = length (bugs d)) as Hlen.
  { unfold updateBugStatus. cbn [bugs set_bugs]. apply length_map. }
  unfold counter, getStats.
  cbn [Stats.all Stats.bugs Stats.requests Stats.total Stats.open Stats.fixed].
  rewrite !Hcount, Hlen. cbn [Bug.with_status Bug.status Bug.type]. rewrite Hopen.
  split.
  - destruct ty as [[|]|]; cbn [Stats.total]; destruct (Bug.type b); simpl; lia.
  - intros [->| ->]; [|destruct (Bug.type b)]; cbn [Stats.open Stats.fixed]; simpl; lia.
Qed.

Lemma closing_moves_one_from_open_to_fixed_witness :
  counter (Some Open) None (getStats (updateBugStatus 6000 (db Demo.twoOpen) 1 Fixed)) = 1
  /\ counter (Some Fixed) None (getStats (updateBugStatus 6000 (db Demo.twoOpen) 1 Fixed)) = 1.
Proof.
  destruct (closing_moves_one_from_open_to_fixed 6000 (db Demo.twoOpen)
              (Demo.nthBug 0 Demo.twoOpen)) with (ty := @None BugType) as [_ H].
  - apply run_keeps_schema, fresh_schema.
  - now left.
  - reflexivity.
  - destruct H as [Hopen Hfixed]; [now left|]. split; [exact Hopen|exact Hfixed].
Defined.

(** ** Monitored channels *)

Lemma isChannelMonitored_In d channelId :
  isChannelMonitored d channelId = true <-> In channelId (monitored_channels d).
Proof.
  unfold isChannelMonitored. rewrite List.existsb_exists. split.
  - intros (c & Hc & E). apply Z.eqb_eq in E. now subst.
  - intros H. exists channelId. split; [exact H|apply Z.eqb_refl].
Qed.

Lemma isChannelMonitored_iff d d' channelId :
  (In channelId (monitored_channels d') <-> In channelId (monitored_channels d)) ->
  isChannelMonitored d' channelId = isChannelMonitored d channelId.
Proof.
  intros H. destruct (isChannelMonitored d channelId) eqn:E.
  - apply isChannelMonitored_In. apply H. now apply isChannelMonitored_In.
  - destruct (isChannelMonitored d' channelId) eqn:E'; [|reflexivity].
    apply isChannelMonitored_In, H, isChannelMonitored_In in E'. congruence.
Qed.

Lemma db_wf_set_monitored_channels cs d : db_wf d -> db_wf (set_monitored_channels cs d).
Proof. intros []. now constructor. Qed.

Lemma db_wf_addMonitoredChannel d channelId :
  db_wf d -> db_wf (snd (addMonitoredChannel d channelId)).
Proof.
  intros Hwf. unfold addMonitoredChannel. destruct (List.existsb _ _); [exact Hwf|].
  now apply db_wf_set_monitored_channels.
Qed.

Lemma db_wf_removeMonitoredChannel d channelId :
  db_wf d -> db_wf (snd (removeMonitoredChannel d channelId)).
Proof. intros Hwf. now apply db_wf_set_monitored_channels. Qed.

Lemma monitored_channel_facts d channelId :
  fst (removeMonitoredChannel d channelId) = isChannelMonitored d channelId
  /\ isChannelMonitored (snd (removeMonitoredChannel d channelId)) channelId = false.
Proof.
  unfold removeMonitoredChannel, isChannelMonitored. cbn [fst snd monitored_channels
    set_monitored_channels].
  set (other := fun c => negb (c =? channelId)).
  set (same := fun c => c =? channelId).
  set (l := monitored_channels d). split.
  - pose proof (filter_length_split same l) as Hsplit.
    change (fun x => negb (same x)) with other in Hsplit.
    destruct (List.existsb same l) eqn:E.
    + apply Nat.ltb_lt. apply List.existsb_exists in E as (c & Hc & Ec).
      assert (In c (List.filter same l)) as Hin by (apply List.filter_In; auto).
      assert (0 < length (List.filter same l))%nat as Hpos
        by (destruct (List.filter same l); [destruct Hin|simpl; lia]).
      clearbody l other same. unfold Snowflake in *. lia.
    + apply Nat.ltb_ge. rewrite filter_all; [unfold Snowflake in *; lia|].
      intros c Hc. unfold other. apply negb_true_iff.
      destruct (c =? channelId) eqn:Ec; [|reflexivity].
      rewrite <- E. symmetry. now apply existsb_In_true with (x := c).
  - apply not_true_is_false. rewrite List.existsb_exists.
    intros (c & Hc & Ec). apply List.filter_In in Hc as [_ Hc].
    unfold other, same in *. rewrite Ec in Hc. discriminate.
Qed.

(** X13. Adding a channel makes it monitored and answers whether it was new;
    adding it again answers [false] and changes nothing. Removing it
    answers whether it was monitored; afterwards it is not. Neither
    touches another channel, a bug or an update, and the list of channels
    never holds one twice. *)
Theorem monitored_channel_roundtrip (d : Database) (channelId : Snowflake) :
  let added := addMonitoredChannel d channelId in
  let removed := removeMonitoredChannel d channelId in
  fst added = negb (isChannelMonitored d channelId)
  /\ isChannelMonitored (snd added) channelId = true
  /\ addMonitoredChannel (snd added) channelId = (false, snd added)
  /\ fst removed = isChannelMonitored d channelId
  /\ isChannelMonitored (snd removed) channelId = false
  /\ removeMonitoredChannel (snd (removeMonitoredChannel (snd added) channelId)) channelId
     = (false, snd (removeMonitoredChannel (snd added) channelId))
  /\ (forall c, c <> channelId ->
                isChannelMonitored (snd added) c = isChannelMonitored d c
                /\ isChannelMonitored (snd removed) c = isChannelMonitored d c)
  /\ (NoDup (monitored_channels d) ->
      NoDup (monitored_channels (snd added)) /\ NoDup (monitored_channels (snd removed)))
  /\ bugs (snd added) = bugs d /\ bug_updates (snd added) = bug_updates d
  /\ bugs (snd removed) = bugs d /\ bug_updates (snd removed) = bug_updates d.
Proof.
  intros added removed. subst added removed.
  set (other := fun c => negb (c =? channelId)).
  set (same := fun c => c =? channelId).
  assert (forall l, Nat.ltb (length (List.filter other l)) (length l)
                    = List.existsb same l) as Hshort.
  { intros l.
    apply (proj1 (monitored_channel_facts (set_monitored_channels l d) channelId)). }
  assert (forall l, List.existsb same (List.filter other l) = false) as Hgone.
  { intros l.
    apply (proj2 (monitored_channel_facts (set_monitored_channels l d) channelId)). }
  assert (forall c l, c <> channelId ->
                      List.existsb (fun c0 => c0 =? c) (List.filter other l)
                      = List.existsb (fun c0 => c0 =? c) l) as Hkeep.
  { intros c l Hc. induction l as [|x r IH]; simpl; [reflexivity|].
    unfold other at 1. destruct (x =? channelId) eqn:Ex; simpl; rewrite IH; [|reflexivity].
    apply Z.eqb_eq in Ex. subst x.
    destruct (channelId =? c) eqn:Ec; [apply Z.eqb_eq in Ec; congruence|reflexivity]. }
  assert (forall c l, c <> channelId ->
                      List.existsb (fun c0 => c0 =? c) (l ++ [channelId])
                      = List.existsb (fun c0 => c0 =? c) l) as Hsnoc.
  { intros c l Hc. rewrite List.existsb_app. simpl.
    destruct (channelId =? c) eqn:Ec; [apply Z.eqb_eq in Ec; congruence|].
    now rewrite !orb_false_r. }
  assert (forall d0, removeMonitoredChannel d0 channelId
                     = (isChannelMonitored d0 channelId,
                        set_monitored_channels
                          (List.filter other (monitored_channels d0)) d0)) as Hremove.
  { intros d0. unfold removeMonitoredChannel, isChannelMonitored. fold other same.
    now rewrite Hshort. }
  rewrite !Hremove. unfold addMonitoredChannel, isChannelMonitored. fold same.
  destruct (List.existsb same (monitored_channels d)) eqn:E;
    cbn [fst snd monitored_channels set_monitored_channels bugs bug_updates negb].
  - rewrite E, Hgone. repeat match goal with |- _ /\ _ => split end;
      try reflexivity;
      try (f_equal; unfold set_monitored_channels; cbn; f_equal;
           now apply filter_filter_implied).
    + intros c Hc. split; [reflexivity|now apply Hkeep].
    + intros Hnd. split; [exact Hnd|now apply NoDup_list_filter].
  - rewrite Hgone, List.existsb_app. cbn [List.existsb]. unfold same at 2 4.
    rewrite Z.eqb_refl, !orb_true_r.
    repeat match goal with |- _ /\ _ => split end;
      repeat rewrite Hgone;
      try reflexivity;
      try (f_equal; unfold set_monitored_channels; cbn; f_equal;
           now apply filter_filter_implied).
    + intros c Hc. split; [now apply Hsnoc|now apply Hkeep].
    + intros Hnd. split; [|now apply NoDup_list_filter].
      apply NoDup_snoc; [exact Hnd|]. intros Hin.
      rewrite (existsb_In_true same _ channelId Hin) in E; [discriminate|].
      apply Z.eqb_refl.
Qed.

Lemma monitored_channel_roundtrip_witness :
  addMonitoredChannel (snd (addMonitoredChannel (db Sample.unlisted) Sample.side)) Sample.side
  = (false, snd (addMonitoredChannel (db Sample.unlisted) Sample.side))
  /\ isChannelMonitored
       (snd (removeMonitoredChannel (db Sample.both) Sample.side)) Demo.channel = true.
Proof.
  split.
  - apply (monitored_channel_roundtrip (db Sample.unlisted) Sample.side).
  - destruct (monitored_channel_roundtrip (db Sample.both) Sample.side)
      as (_ & _ & _ & _ & _ & _ & Hother & _).
    destruct (Hother Demo.channel) as [_ ->]; [discriminate|reflexivity].
Defined.

(** X14. Deleting bugs, editing a bug and changing the list of channels keep
    the constraints of the schema. *)
Theorem admin_statements_keep_schema (now : Timestamp) (d : Database) :
  db_wf d ->
  (forall bugId, db_wf (snd (deleteBug d bugId)))
  /\ (forall maxVariables channelId n d',
         deleteBugsByChannel maxVariables d channelId = Ok n d' -> db_wf d')
  /\ (forall bugId updates, db_wf (snd (updateBug now d bugId updates)))
  /\ (forall channelId, db_wf (snd (addMonitoredChannel d channelId))
                        /\ db_wf (snd (removeMonitoredChannel d channelId))).
Proof.
  intros Hwf. repeat match goal with |- _ /\ _ => split end.
  - intros bugId. now apply db_wf_deleteBug.
  - intros maxVariables channelId n d'. now apply db_wf_deleteBugsByChannel.
  - intros bugId updates. now apply db_wf_updateBug.
  - intros channelId.
    split; [now apply db_wf_addMonitoredChannel|now apply db_wf_removeMonitoredChannel].
Qed.

Lemma admin_statements_keep_schema_witness :
  db_wf (snd (deleteBug (db Demo.threaded) 1))
  /\ db_wf (snd (updateBug 6000 (db Demo.threaded) 1 (mkBugEdit None None (Some Fixed)))).
Proof.
  destruct (admin_statements_keep_schema 6000 (db Demo.threaded)) as (Hdel & _ & Hedit & _).
  - apply run_keeps_schema, fresh_schema.
  - split; [apply Hdel|apply Hedit].
Defined.

(** ** What the statements of the core leave alone *)

Lemma write_monitored_channels d d' :
  write d d' -> monitored_channels d' = monitored_channels d.
Proof.
  intros [d0 bug r d1 H|d0 update r d1 _ H| | | |]; try reflexivity.
  - unfold addBug in H. destruct (List.existsb _ _); now injection H as _ <-.
  - unfold addBugUpdate in H. destruct (List.existsb _ _); [now injection H as _ <-|].
    destruct (_ && _); [discriminate|]. now injection H as _ <-.
Qed.

Lemma writes_monitored_channels d d' :
  writes d d' -> monitored_channels d' = monitored_channels d.
Proof.
  induction 1 as [|d1 d2 d3 H _ IH]; [reflexivity|].
  rewrite IH. now apply write_monitored_channels.
Qed.

Lemma appendOnly_refl d : appendOnly d d.
Proof. split; exists []; now rewrite app_nil_r. Qed.

Lemma appendOnly_trans d1 d2 d3 : appendOnly d1 d2 -> appendOnly d2 d3 -> appendOnly d1 d3.
Proof.
  intros [[a1 H1] [u1 G1]] [[a2 H2] [u2 G2]]. split.
  - exists (a1 ++ a2). now rewrite H2, H1, app_assoc.
  - exists (u1 ++ u2). now rewrite G2, G1, app_assoc.
Qed.

Lemma appendOnly_map_bugs (g : Bug.t -> Bug.t) d :
  (forall b, report (g b) = report b) -> appendOnly d (set_bugs (List.map g (bugs d)) d).
Proof.
  intros Hg. split; exists []; rewrite app_nil_r; [|reflexivity].
  cbn [bugs set_bugs]. rewrite List.map_map. apply List.map_ext. exact Hg.
Qed.

Lemma write_appendOnly d d' : write d d' -> appendOnly d d'.
Proof.
  intros [d0 bug r d1 H|d0 update r d1 _ H|now0 d0 bugId|d0 messageId rs|d0 messageId rs|].
  - unfold addBug in H. destruct (List.existsb _ _); injection H as _ <-;
      [apply appendOnly_refl|].
    split; cbn [bugs bug_updates]; [|exists []; now rewrite app_nil_r].
    eexists. now rewrite List.map_app.
  - unfold addBugUpdate in H. destruct (List.existsb _ _);
      [injection H as _ <-; apply appendOnly_refl|].
    destruct (_ && _); [discriminate|]. injection H as _ <-.
    split; cbn [bugs bug_updates].
    + exists []. rewrite app_nil_r. unfold touchBug. rewrite List.map_map.
      apply List.map_ext. intros b. now destruct (Bug.id b =? _).
    + eexists. now rewrite List.map_app.
  - apply appendOnly_map_bugs. intros b. now destruct (Bug.id b =? bugId).
  - apply appendOnly_map_bugs. intros b. now destruct (Bug.discord_message_id b =? messageId).
  - split; exists []; rewrite app_nil_r; [reflexivity|].
    cbn [bug_updates updateUpdateReactions set_bug_updates]. rewrite List.map_map.
    apply List.map_ext. intros u. now destruct (BugUpdate.discord_message_id u =? messageId).
  - split; exists []; now rewrite app_nil_r.
Qed.

Lemma writes_appendOnly d d' : writes d d' -> appendOnly d d'.
Proof.
  induction 1 as [|d1 d2 d3 H _ IH]; [apply appendOnly_refl|].
  eapply appendOnly_trans; [apply write_appendOnly; exact H|exact IH].
Qed.

(** X15. The core keeps its history: through live messages, reactions added or
    removed, the reaction sync, both scans and the save at shutdown, no bug
    and no update is deleted or moved, and of a row that is stored nothing
    changes but the status, [updated_at] and the reactions of a bug and the
    reactions of an update. The live handler, besides, never lets an
    exception escape. *)
Theorem core_keeps_its_history (e : Env) (now : Timestamp) (s : Bot) :
  (forall message, exists s', handleMessage e now message s = Done tt s'
                              /\ appendOnly (db s) (db s'))
  /\ (forall emojiName channelId messageId,
         appendOnly (db s) (db (onMessageReactionAdd e now emojiName channelId messageId s)))
  /\ (forall channelId messageId,
         appendOnly (db s) (db (onMessageReactionRemove e channelId messageId s)))
  /\ appendOnly (db s) (db (syncReactionsOnOpenBugs e now s))
  /\ (forall channelId maxMessages,
         appendOnly (db s) (db (snd (scanChannelHistory e now channelId maxMessages s))))
  /\ (forall fuel opts s',
         scanExistingMessages fuel e now opts s = Some s' -> appendOnly (db s) (db s'))
  /\ appendOnly (db s) (db (saveCurrentPosition e now s)).
Proof.
  repeat match goal with |- _ /\ _ => split end.
  - intros message. destruct (handleMessage_writes e now message s) as (s' & H & Hw).
    exists s'. split; [exact H|now apply writes_appendOnly].
  - intros. apply writes_appendOnly, onMessageReactionAdd_writes.
  - intros. apply writes_appendOnly, onMessageReactionRemove_writes.
  - apply writes_appendOnly, syncReactionsOnOpenBugs_writes.
  - intros. apply writes_appendOnly, scanChannelHistory_writes.
  - intros fuel opts s' H. eapply writes_appendOnly, scanExistingMessages_writes, H.
  - apply writes_appendOnly, saveCurrentPosition_writes.
Qed.

Lemma core_keeps_its_history_witness :
  exists s', handleMessage Demo.noAI 6000 Demo.doneReply Demo.threaded = Done tt s'
             /\ List.map (fun b => (Bug.id b, Bug.content b)) (bugs (db s'))
                = List.map (fun b => (Bug.id b, Bug.content b)) (bugs (db Demo.threaded))
             /\ statusOf (db s') 1 = Some Fixed.
Proof.
  destruct (core_keeps_its_history Demo.noAI 6000 Demo.threaded) as (Hmessage & _).
  destruct (Hmessage Demo.doneReply) as (s' & Hdone & _).
  exists s'. split; [exact Hdone|]. vm_compute in Hdone. injection Hdone as <-.
  split; reflexivity.
Defined.

(** ** The channel commands *)

Lemma isMonitoredChannel_stored e d channelId :
  monitored_channels d <> [] ->
  isMonitoredChannel e d channelId = isChannelMonitored d channelId.
Proof.
  intros Hne. unfold isMonitoredChannel, getMonitoredChannelIds, getAllMonitoredChannelIds,
    isChannelMonitored.
  destruct (monitored_channels d) as [|c r] eqn:E; [congruence|].
  assert (forall l, List.existsb (Z.eqb channelId) l
                    = List.existsb (fun c => c =? channelId) l) as Hsym.
  { intros l. induction l as [|x l IH]; simpl; [reflexivity|].
    now rewrite IH, Z.eqb_sym. }
  destruct (config_channelIds e); apply Hsym.
Qed.

(** X16. A bot whose store lists no channel runs on the channels of its
    configuration. The first [/addchannel] ends that: the channel added is
    then the only one monitored, and a message in any other channel, one
    of the configuration included, is dropped. *)
Theorem first_added_channel_replaces_configured (e : Env) (now : Timestamp)
    (channelId guildId : Snowflake) (s : Bot) :
  getAllMonitoredChannelIds (db s) = [] ->
  exists stats s',
    handleAddChannel e now (mkInteraction (Some channelId) (Some guildId) true) s
    = Done (NowMonitoring stats) s'
    /\ getMonitoredChannelIds e (db s') = [channelId]
    /\ (forall message, Message.channelId message <> channelId ->
                        handleMessage e now message s' = Done tt s').
Proof.
  unfold getAllMonitoredChannelIds. intros Hnone.
  unfold handleAddChannel, addMonitoredChannel.
  cbn [option_channel interaction_guildId delivered]. rewrite Hnone. cbn [List.existsb app].
  set (s1 := set_db _ s).
  pose proof (scanChannelHistory_writes e now channelId 300 s1) as Hw.
  destruct (scanChannelHistory e now channelId 300 s1) as [stats s'] eqn:Escan.
  cbn [snd] in Hw. apply writes_monitored_channels in Hw. cbn in Hw.
  assert (getMonitoredChannelIds e (db s') = [channelId]) as Hmon.
  { unfold getMonitoredChannelIds, getAllMonitoredChannelIds. rewrite Hw.
    now destruct (config_channelIds e). }
  exists stats, s'. split; [reflexivity|]. split; [exact Hmon|].
  intros message Hother. unfold handleMessage, isMonitoredChannel. rewrite Hmon.
  cbn [List.existsb]. destruct (Message.author_bot message); [reflexivity|].
  destruct (Message.channelId message =? channelId) eqn:E; [|reflexivity].
  apply Z.eqb_eq in E. contradiction.
Qed.

Lemma first_added_channel_replaces_configured_witness :
  isMonitoredChannel Sample.envOnly (db Sample.unlisted) Demo.channel = true
  /\ exists stats s',
       handleAddChannel Sample.envOnly 5000
         (mkInteraction (Some Sample.side) (Some 1) true) Sample.unlisted
       = Done (NowMonitoring stats) s'
       /\ handleMessage Sample.envOnly 5000 Demo.issue s' = Done tt s'.
Proof.
  split; [reflexivity|].
  destruct (first_added_channel_replaces_configured Sample.envOnly 5000 Sample.side 1
              Sample.unlisted) as (stats & s' & Hadd & _ & Hdrop); [reflexivity|].
  exists stats, s'. split; [exact Hadd|]. apply Hdrop. discriminate.
Defined.

(** X17. [/removechannel] takes the channel off the stored list and keeps
    every bug, update and scan position. The channel is still monitored
    afterwards in one case: the stored list is empty now and the channel is
    one of the configuration, which applies again. *)
Theorem removed_channel_falls_back_to_configuration (e : Env) (channelId : Snowflake)
    (guildId : option Snowflake) (s : Bot) :
  exists s',
    handleRemoveChannel (mkInteraction (Some channelId) guildId true) s
    = Done (if isChannelMonitored (db s) channelId
            then StoppedMonitoring else WasNotMonitored) s'
    /\ bugs (db s') = bugs (db s)
    /\ bug_updates (db s') = bug_updates (db s)
    /\ scan_state (db s') = scan_state (db s)
    /\ isChannelMonitored (db s') channelId = false
    /\ (isMonitoredChannel e (db s') channelId = true <->
        getAllMonitoredChannelIds (db s') = []
        /\ exists channelIds, config_channelIds e = Some channelIds
                              /\ In channelId channelIds).
Proof.
  pose proof (monitored_channel_facts (db s) channelId) as (Hfst & Hgone).
  unfold handleRemoveChannel. cbn [option_channel delivered].
  destruct (removeMonitoredChannel (db s) channelId) as [success d] eqn:E.
  cbn [fst snd] in *. subst success.
  assert (bugs d = bugs (db s) /\ bug_updates d = bug_updates (db s)
          /\ scan_state d = scan_state (db s)) as (Hb & Hu & Hs).
  { unfold removeMonitoredChannel in E. injection E as _ <-. now repeat split. }
  exists (set_db d s). unfold reply. cbn [delivered db set_db].
  split; [now destruct (isChannelMonitored (db s) channelId)|].
  repeat match goal with |- _ /\ _ => split end; try assumption.
  split.
  - intros Hmon. unfold getAllMonitoredChannelIds.
    destruct (monitored_channels d) as [|c r] eqn:El.
    + split; [reflexivity|].
      unfold isMonitoredChannel, getMonitoredChannelIds, getAllMonitoredChannelIds in Hmon.
      rewrite El in Hmon. destruct (config_channelIds e) as [ids|]; [|discriminate].
      exists ids. split; [reflexivity|].
      apply List.existsb_exists in Hmon as (x & Hx & Ex). apply Z.eqb_eq in Ex. now subst.
    + rewrite isMonitoredChannel_stored in Hmon by congruence. congruence.
  - intros (Hnone & ids & Hcfg & Hin).
    unfold isMonitoredChannel, getMonitoredChannelIds. rewrite Hnone, Hcfg.
    apply existsb_In_true with (x := channelId); [exact Hin|apply Z.eqb_refl].
Qed.

Lemma removed_channel_falls_back_to_configuration_witness :
  exists s',
    handleRemoveChannel (mkInteraction (Some Demo.channel) (Some 1) true) Demo.fresh
    = Done StoppedMonitoring s'
    /\ isChannelMonitored (db s') Demo.channel = false
    /\ isMonitoredChannel Sample.envOnly (db s') Demo.channel = true.
Proof.
  destruct (removed_channel_falls_back_to_configuration Sample.envOnly Demo.channel
              (Some 1) Demo.fresh) as (s' & Hreply & _ & _ & _ & Hgone & Hiff).
  exists s'. split; [exact Hreply|]. split; [exact Hgone|].
  apply Hiff. split.
  - vm_compute in Hreply. now injection Hreply as <-.
  - exists [Demo.channel]. split; [reflexivity|now left].
Defined.

(** X18. [/deletechannel] takes the channel off the stored list, deletes its
    bugs and says how many they were. Afterwards the channel is listed
    with no bug; its scan position and the cache of recent messages are
    kept. When the channel has more bugs than a statement takes
    parameters, the command fails with the channel already off the list
    and every bug still stored. *)
Theorem handleDeleteChannel_forgets_channel (maxVariables : nat) (channelId : Snowflake)
    (guildId : option Snowflake) (s : Bot) :
  let doomed := List.filter (fun b => Bug.channel_id b =? channelId) (bugs (db s)) in
  let interaction := mkInteraction (Some channelId) guildId true in
  exists s',
    isChannelMonitored (db s') channelId = false
    /\ scan_state (db s') = scan_state (db s)
    /\ recentMessages s' = recentMessages s
    /\ if (maxVariables <? length doomed)%nat
       then handleDeleteChannel maxVariables interaction s = Raised s'
            /\ bugs (db s') = bugs (db s)
            /\ bug_updates (db s') = bug_updates (db s)
       else handleDeleteChannel maxVariables interaction s
            = Done (if isChannelMonitored (db s) channelId || (0 <? Z.of_nat (length doomed))
                    then RemovedAndDeleted (Z.of_nat (length doomed))
                    else NothingRecorded) s'
            /\ getAllBugs (db s') (mkBugQuery None None (Some channelId) None) = []
            /\ (forall b, In b (bugs (db s')) <->
                          In b (bugs (db s)) /\ Bug.channel_id b <> channelId).
Proof.
  intros doomed interaction. subst interaction.
  pose proof (monitored_channel_facts (db s) channelId) as (Hfst & Hgone).
  unfold handleDeleteChannel. cbn [option_channel].
  destruct (removeMonitoredChannel (db s) channelId) as [wasMonitored d] eqn:E.
  cbn [fst snd] in *. subst wasMonitored.
  assert (d = set_monitored_channels (monitored_channels d) (db s)) as Hd.
  { unfold removeMonitoredChannel in E. now injection E as _ <-. }
  assert (bugs d = bugs (db s)) as Hb by now rewrite Hd.
  destruct (deleteBugsByChannel maxVariables d channelId) as [n d'|] eqn:Hdel.
  - pose proof (deleteBugsByChannel_count _ _ _ _ _ Hdel) as Hn.
    rewrite Hb in Hn. fold doomed in Hn. subst n.
    assert (~ (maxVariables < length doomed)%nat) as Hfits.
    { intros Hlt. unfold doomed in Hlt. rewrite <- Hb in Hlt.
      apply deleteBugsByChannel_throws in Hlt. congruence. }
    apply Nat.ltb_nlt in Hfits. rewrite Hfits.
    pose proof (deleteBugsByChannel_store _ _ _ _ _ Hdel) as Hstore.
    exists (set_db d' s). unfold reply. cbn [delivered db set_db recentMessages].
    rewrite Hstore, Hb.
    repeat match goal with |- _ /\ _ => split end; try reflexivity.
    + exact Hgone.
    + now rewrite Hd.
    + unfold getAllBugs, selected.
      cbn [query_status query_type query_channelId query_limit bugs andb].
      rewrite filter_filter_excluded; [reflexivity|].
      intros b Hc. now rewrite Hc.
    + intros b. cbn [bugs]. rewrite List.filter_In, negb_true_iff, Z.eqb_neq. reflexivity.
  - apply deleteBugsByChannel_throws in Hdel. rewrite Hb in Hdel. fold doomed in Hdel.
    apply Nat.ltb_lt in Hdel. rewrite Hdel.
    exists (set_db d s). cbn [db set_db recentMessages].
    repeat match goal with |- _ /\ _ => split end; try reflexivity; try assumption;
      now rewrite Hd.
Qed.

Lemma handleDeleteChannel_forgets_channel_witness :
  exists s',
    handleDeleteChannel 999 (mkInteraction (Some Demo.channel) (Some 1) true) Sample.board
    = Done (RemovedAndDeleted 2) s'
    /\ getAllBugs (db s') (mkBugQuery None None (Some Demo.channel) None) = []
    /\ length (getAllBugs (db s') (mkBugQuery None None (Some Sample.side) None)) = 1%nat.
Proof.
  destruct (handleDeleteChannel_forgets_channel 999 Demo.channel (Some 1) Sample.board)
    as (s' & _ & _ & _ & H).
  change (_ <? _)%nat with false in H. cbv iota in H.
  destruct H as (Hreply & Hnone & _).
  exists s'. split; [exact Hreply|]. split; [exact Hnone|].
  vm_compute in Hreply. now injection Hreply as <-.
Defined.

(** ** The cache of recent messages *)

Lemma addToRecentMessages_recent channelId message bugId s :
  recentMessages (addToRecentMessages channelId message bugId s)
  = recentMessages (addToRecentMessages channelId message bugId
                      (mkBot (db s) (recentMessages s) 0)).
Proof. reflexivity. Qed.

Lemma addToRecentMessages_bounded channelId message bugId s :
  cacheBounded s -> cacheBounded (addToRecentMessages channelId message bugId s).
Proof.
  intros Hb c recent. unfold addToRecentMessages. cbn [recentMessages].
  destruct (decide (c = channelId)) as [->|Hne].
  - rewrite lookup_insert_eq. intros [= <-].
    assert (length (default [] (recentMessages s !! channelId)) <= MAX_RECENT_MESSAGES)%nat
      as Hold.
    { destruct (recentMessages s !! channelId) as [l|] eqn:E; [now apply (Hb channelId)|].
      simpl. lia. }
    destruct (_ <? _)%nat eqn:E.
    + rewrite length_drop, length_app. cbn [length]. lia.
    + apply Nat.ltb_ge in E. exact E.
  - rewrite lookup_insert_ne by congruence. apply Hb.
Qed.

(** What the live handler does to the cache: nothing, or one
    [addToRecentMessages] of the message it handled. *)
Lemma handleMessage_cache e now message s :
  recentMessages (final (handleMessage e now message s)) = recentMessages s
  \/ exists bugId,
       recentMessages (final (handleMessage e now message s))
       = recentMessages (addToRecentMessages (Message.channelId message) message bugId s).
Proof.
  unfold handleMessage, createBug, handleCompletion, matchStandalone, handleReply,
    handleContextMessage, bind, markFixed.
  repeat break_match; cbn [final recentMessages set_db]; eauto.
Qed.

(** X19. A channel's cache of recent messages never grows beyond ten: started
    within the bound, it is within the bound after every message handled. *)
Theorem recent_cache_stays_bounded (e : Env) (now : Timestamp) (message : Message.t)
    (s : Bot) :
  cacheBounded s -> cacheBounded (final (handleMessage e now message s)).
Proof.
  intros Hb. destruct (handleMessage_cache e now message s) as [H|[bugId H]];
    intros c recent; rewrite H; [apply Hb|].
  now apply addToRecentMessages_bounded.
Qed.

Lemma recent_cache_stays_bounded_witness :
  option_map (List.map recent_id) (recentMessages Sample.crowded !! Demo.channel)
  = Some [401; 402; 403; 404; 405; 406; 407; 408; 409; 410]
  /\ cacheBounded (final (handleMessage Demo.noAI 5000 (Sample.note 11) Sample.crowded))
  /\ option_map (List.map recent_id)
       (recentMessages (final (handleMessage Demo.noAI 5000 (Sample.note 11) Sample.crowded))
          !! Demo.channel)
     = Some [402; 403; 404; 405; 406; 407; 408; 409; 410; 411].
Proof.
  split; [vm_compute; reflexivity|]. split; [|vm_compute; reflexivity].
  apply recent_cache_stays_bounded. unfold Sample.crowded, Demo.run.
  generalize (List.map Sample.note [1; 2; 3; 4; 5; 6; 7; 8; 9; 10]) as ms.
  assert (cacheBounded Demo.fresh) as Hfresh.
  { intros channelId recent H. unfold Demo.fresh in H. cbn [recentMessages] in H.
    rewrite lookup_empty in H. discriminate H. }
  revert Hfresh. generalize Demo.fresh as s. intros s Hs ms. revert s Hs.
  induction ms as [|m ms IH]; intros s Hs; [exact Hs|].
  cbn [List.fold_left]. apply IH. now apply recent_cache_stays_bounded.
Defined.

(** ** Markers *)

Lemma trimStart_white (ws s : Js.str) :
  forallb Js.isWhite ws = true -> Js.trimStart (ws ++ s) = Js.trimStart s.
Proof.
  induction ws as [|c r IH]; simpl; [reflexivity|].
  intros H. apply andb_true_iff in H as [Hc Hr]. rewrite Hc. now apply IH.
Qed.

Lemma trimStart_all_white (ws : Js.str) :
  forallb Js.isWhite ws = true -> Js.trimStart ws = [].
Proof.
  intros H. rewrite <- (app_nil_r ws). now rewrite trimStart_white.
Qed.

Lemma trimStart_app (s t : Js.str) :
  Js.trimStart (s ++ t)
  = match Js.trimStart s with
    | [] => Js.trimStart t
    | kept => kept ++ t
    end.
Proof.
  induction s as [|c r IH]; simpl; [now destruct (Js.trimStart t)|].
  destruct (Js.isWhite c); [exact IH|reflexivity].
Qed.

Lemma forallb_rev {A} (p : A -> bool) (l : list A) :
  forallb p (rev l) = forallb p l.
Proof.
  induction l as [|x r IH]; simpl; [reflexivity|].
  rewrite forallb_app, IH. simpl. rewrite andb_true_r. apply andb_comm.
Qed.

Lemma trimEnd_white (s ws : Js.str) :
  forallb Js.isWhite ws = true -> Js.trimEnd (s ++ ws) = Js.trimEnd s.
Proof.
  intros H. unfold Js.trimEnd. rewrite rev_app_distr, trimStart_white; [reflexivity|].
  now rewrite forallb_rev.
Qed.

Lemma trim_padding (before after content : Js.str) :
  forallb Js.isWhite before = true -> forallb Js.isWhite after = true ->
  Js.trim (before ++ content ++ after) = Js.trim content.
Proof.
  intros Hb Ha. unfold Js.trim. rewrite trimStart_white by exact Hb.
  rewrite trimStart_app. destruct (Js.trimStart content) as [|c r] eqn:E.
  - now rewrite trimStart_all_white.
  - now apply trimEnd_white.
Qed.

Lemma includes_unit (s : Js.str) (k : Z) :
  Js.includes s [k] = List.existsb (Z.eqb k) s.
Proof.
  induction s as [|c r IH]; simpl; [reflexivity|].
  rewrite IH. destruct r; simpl; now rewrite andb_true_r.
Qed.

Lemma existsb_trimStart (k : Z) (s : Js.str) :
  Js.isWhite k = false ->
  List.existsb (Z.eqb k) (Js.trimStart s) = List.existsb (Z.eqb k) s.
Proof.
  intros Hk. induction s as [|c r IH]; simpl; [reflexivity|].
  destruct (Js.isWhite c) eqn:E; [|reflexivity].
  rewrite IH. destruct (k =? c) eqn:Ek; [|reflexivity].
  apply Z.eqb_eq in Ek. congruence.
Qed.

Lemma existsb_rev {A} (p : A -> bool) (l : list A) :
  List.existsb p (rev l) = List.existsb p l.
Proof.
  induction l as [|x r IH]; simpl; [reflexivity|].
  rewrite List.existsb_app, IH. simpl. rewrite orb_false_r. apply orb_comm.
Qed.

Lemma startsWith_app (s p : Js.str) :
  Js.startsWith s p = true -> exists rest, s = p ++ rest.
Proof.
  revert s. induction p as [|a p IH]; intros s H; [now exists s|].
  destruct s as [|b s]; [discriminate|]. simpl in H.
  apply andb_true_iff in H as [Hab H]. apply Z.eqb_eq in Hab. subst b.
  destruct (IH s H) as [rest ->]. now exists rest.
Qed.

(** X20. White space around a text changes neither test: a text padded on
    both sides is classified like the text itself. The done glyph counts
    wherever it stands in the text, and a text that starts with the
    new-issue glyph is a new issue even when it also holds the done
    glyph. *)
Theorem markers_ignore_padding (before after content : Js.str) :
  forallb Js.isWhite before = true ->
  forallb Js.isWhite after = true ->
  classify (before ++ content ++ after) = classify content
  /\ isCompletionMarker content = Js.includes content Js.CHECK
  /\ (Js.startsWith content Js.PLAY = true ->
      classify (before ++ content ++ after) = NewIssue).
Proof.
  intros Hb Ha.
  assert (classify (before ++ content ++ after) = classify content) as Hsame.
  { unfold classify, isNewBugReport, isCompletionMarker. now rewrite trim_padding. }
  repeat match goal with |- _ /\ _ => split end.
  - exact Hsame.
  - unfold isCompletionMarker, Js.CHECK, Js.trim, Js.trimEnd.
    rewrite !includes_unit, existsb_rev, existsb_trimStart, existsb_rev, existsb_trimStart;
      reflexivity.
  - intros Hplay. rewrite Hsame. apply classify_NewIssue. unfold isNewBugReport, Js.trim.
    apply startsWith_app in Hplay as [rest ->]. unfold Js.PLAY. cbn [app Js.trimStart].
    change (Js.isWhite 9654) with false. cbn iota.
    unfold Js.trimEnd. cbn [rev]. rewrite <- !app_assoc. cbn [app].
    rewrite trimStart_app.
    destruct (Js.trimStart (rev rest)) as [|x k] eqn:E; [reflexivity|].
    rewrite (rev_app_distr (x :: k)).
    change (rev [65039; 9654]) with [9654; 65039].
    destruct (rev (x :: k)); reflexivity.
Qed.

Lemma markers_ignore_padding_witness :
  classify (Js.lit "  " ++ Message.content Demo.issue ++ Js.lit " ") = NewIssue.
Proof.
  destruct (markers_ignore_padding (Js.lit "  ") (Js.lit " ") (Message.content Demo.issue))
    as (_ & _ & Hissue); [reflexivity|reflexivity|].
  apply Hissue. reflexivity.
Defined.

(** ** Snowflakes *)

(** X21. The cursor made of a date orders like the date and keeps it in the
    bits above the 22 lowest. A message whose id is above the cursor of
    [date] was not created before [date], and every message created after
    the millisecond of [date] has its id above the cursor. *)
Theorem dateToSnowflake_cuts_at_date (date : Timestamp) :
  (forall later, date < later <-> dateToSnowflake date < dateToSnowflake later)
  /\ Z.shiftr (dateToSnowflake date) 22 + DISCORD_EPOCH = date
  /\ (forall messageId, dateToSnowflake date < messageId ->
                        date <= Z.shiftr messageId 22 + DISCORD_EPOCH)
  /\ (forall messageId, date < Z.shiftr messageId 22 + DISCORD_EPOCH ->
                        dateToSnowflake date < messageId).
Proof.
  unfold dateToSnowflake.
  assert (0 < 2 ^ 22) as Hpos by reflexivity.
  repeat match goal with |- _ /\ _ => split end.
  - intros later. rewrite !Z.shiftl_mul_pow2 by lia. nia.
  - rewrite Z.shiftr_shiftl_l by lia. simpl. rewrite Z.shiftl_0_r. lia.
  - intros messageId. rewrite Z.shiftl_mul_pow2, Z.shiftr_div_pow2 by lia. intros H.
    assert (date - DISCORD_EPOCH <= messageId / 2 ^ 22); [|lia].
    apply Z.div_le_lower_bound; lia.
  - intros messageId. rewrite Z.shiftl_mul_pow2, Z.shiftr_div_pow2 by lia. intros H.
    pose proof (Z.mul_div_le messageId (2 ^ 22) Hpos). nia.
Qed.

Lemma dateToSnowflake_cuts_at_date_witness :
  dateToSnowflake 1700000000000 < dateToSnowflake 1700000000001
  /\ Z.shiftr (dateToSnowflake 1700000000000) 22 + DISCORD_EPOCH = 1700000000000.
Proof.
  destruct (dateToSnowflake_cuts_at_date 1700000000000) as (Hlater & Hback & _).
  split; [|exact Hback]. apply Hlater. reflexivity.
Defined.

(** ** Reactions *)

Lemma statusOf_updateBugReactions d messageId rs i :
  statusOf (updateBugReactions d messageId rs) i = statusOf d i.
Proof.
  apply statusOf_map_bugs; intros b; now destruct (Bug.discord_message_id b =? messageId).
Qed.

Lemma statusOf_updateUpdateReactions d messageId rs i :
  statusOf (updateUpdateReactions d messageId rs) i = statusOf d i.
Proof. reflexivity. Qed.

Lemma report_updateBugReactions d messageId rs :
  List.map (Bug.with_reactions []) (bugs (updateBugReactions d messageId rs))
  = List.map (Bug.with_reactions []) (bugs d).
Proof.
  cbn [bugs updateBugReactions set_bugs]. rewrite List.map_map. apply List.map_ext.
  intros b. now destruct (Bug.discord_message_id b =? messageId).
Qed.

Lemma posting_updateUpdateReactions d messageId rs :
  List.map posting (bug_updates (updateUpdateReactions d messageId rs))
  = List.map posting (bug_updates d).
Proof.
  cbn [bug_updates updateUpdateReactions set_bug_updates]. rewrite List.map_map.
  apply List.map_ext. intros u. now destruct (BugUpdate.discord_message_id u =? messageId).
Qed.

Lemma updateReactionsIn_cases e messageId channelIds d :
  updateReactionsIn e messageId channelIds d = d
  \/ (exists rs, updateReactionsIn e messageId channelIds d
                 = updateBugReactions d messageId rs)
  \/ (exists rs, updateReactionsIn e messageId channelIds d
                 = updateUpdateReactions d messageId rs).
Proof.
  induction channelIds as [|c r IH]; simpl; [now left|].
  destruct (channels_fetch (client e) c); [|exact IH].
  destruct (messages_fetch (client e) c messageId); [|exact IH].
  destruct (getBugByMessageId d messageId); eauto.
Qed.

(** X22. Taking a reaction away rewrites stored reactions and nothing else: no
    status changes (a bug closed by a done reaction stays fixed when the
    reaction is removed), no row is added or dropped, and apart from the
    reactions every bug and update reads as before. *)
Theorem reaction_removal_rewrites_reactions_only (e : Env) (channelId messageId : Snowflake)
    (s : Bot) :
  let s' := onMessageReactionRemove e channelId messageId s in
  (forall bugId, statusOf (db s') bugId = statusOf (db s) bugId)
  /\ List.map (Bug.with_reactions []) (bugs (db s'))
     = List.map (Bug.with_reactions []) (bugs (db s))
  /\ List.map posting (bug_updates (db s')) = List.map posting (bug_updates (db s))
  /\ recentMessages s' = recentMessages s.
Proof.
  unfold onMessageReactionRemove, updateMessageReactions.
  destruct (isMonitoredChannel e (db s) channelId); cbn zeta; [|now repeat split].
  cbn [db set_db recentMessages].
  destruct (updateReactionsIn_cases e messageId (getMonitoredChannelIds e (db s)) (db s))
    as [->|[[rs ->]|[rs ->]]].
  - now repeat split.
  - split; [intros; apply statusOf_updateBugReactions|].
    split; [apply report_updateBugReactions|]. now split.
  - split; [reflexivity|]. split; [reflexivity|].
    split; [apply posting_updateUpdateReactions|reflexivity].
Qed.

Lemma reaction_removal_rewrites_reactions_only_witness :
  statusOf
    (db (onMessageReactionRemove Sample.reacted Demo.channel 100 Demo.oneClosed)) 1
  = Some Fixed.
Proof.
  destruct (reaction_removal_rewrites_reactions_only Sample.reacted Demo.channel 100
              Demo.oneClosed) as (Hstatus & _).
  now rewrite Hstatus.
Defined.



(** ** Reaction sync *)

Lemma appendOnly_bugExists d d' i : appendOnly d d' -> bugExists d i -> bugExists d' i.
Proof.
  intros [[added H] _] (b & Hb & Hid).
  assert (In (report b) (List.map report (bugs d'))) as Hin.
  { rewrite H. apply in_or_app. left. now apply List.in_map. }
  apply List.in_map_iff in Hin as (b' & Hrep & Hb'). exists b'. split; [exact Hb'|].
  rewrite <- Hid. change (Bug.id (report b') = Bug.id (report b)). now rewrite Hrep.
Qed.

Lemma appendOnly_update d d' u :
  appendOnly d d' -> In u (bug_updates d) ->
  exists u', In u' (bug_updates d')
             /\ BugUpdate.bug_id u' = BugUpdate.bug_id u
             /\ BugUpdate.discord_message_id u' = BugUpdate.discord_message_id u.
Proof.
  intros [_ [added H]] Hu.
  assert (In (posting u) (List.map posting (bug_updates d'))) as Hin.
  { rewrite H. apply in_or_app. left. now apply List.in_map. }
  apply List.in_map_iff in Hin as (u' & Hpost & Hu'). exists u'. split; [exact Hu'|].
  split.
  - change (BugUpdate.bug_id (posting u') = BugUpdate.bug_id (posting u)). now rewrite Hpost.
  - change (BugUpdate.discord_message_id (posting u')
            = BugUpdate.discord_message_id (posting u)). now rewrite Hpost.
Qed.

Lemma fold_syncBug_writes e now l d :
  writes d (List.fold_left (fun d bug => syncBug e now bug d) l d).
Proof.
  revert d. induction l as [|b r IH]; intros d; simpl; [constructor|].
  eapply writes_trans; [apply syncBug_writes|apply IH].
Qed.

Lemma syncUpdates_closes e now bug updates d u updateMessage :
  bugExists d (Bug.id bug) ->
  In u updates ->
  messages_fetch (client e) (Bug.channel_id bug) (BugUpdate.discord_message_id u)
  = Some updateMessage ->
  hasCheckReaction (extractReactions updateMessage) = true ->
  statusOf (syncUpdates e now bug updates d) (Bug.id bug) = Some Fixed.
Proof.
  intros Hex Hin Hfetch Hcheck. revert d Hex.
  induction updates as [|u0 r IH]; intros d Hex; [destruct Hin|]. simpl.
  destruct (messages_fetch (client e) (Bug.channel_id bug)
                           (BugUpdate.discord_message_id u0)) as [m0|] eqn:E0.
  - destruct (hasCheckReaction (extractReactions m0)) eqn:C0.
    + rewrite statusOf_updateUpdateReactions. now apply statusOf_markFixed.
    + destruct Hin as [->|Hin]; [congruence|]. apply IH; [exact Hin|exact Hex].
  - destruct Hin as [->|Hin]; [congruence|]. now apply IH.
Qed.

Lemma syncBug_closes e now bug d channel :
  bugExists d (Bug.id bug) ->
  channels_fetch (client e) (Bug.channel_id bug) = Some channel ->
  isTextBased channel = true ->
  (exists bugMessage,
      messages_fetch (client e) (Bug.channel_id bug) (Bug.discord_message_id bug)
      = Some bugMessage
      /\ hasCheckReaction (extractReactions bugMessage) = true)
  \/ (exists u updateMessage,
         In u (bug_updates d) /\ BugUpdate.bug_id u = Bug.id bug
         /\ messages_fetch (client e) (Bug.channel_id bug) (BugUpdate.discord_message_id u)
            = Some updateMessage
         /\ hasCheckReaction (extractReactions updateMessage) = true) ->
  statusOf (syncBug e now bug d) (Bug.id bug) = Some Fixed.
Proof.
  intros Hex Hch Htext Hcheck. unfold syncBug. rewrite Hch, Htext. cbn [negb].
  assert (forall d0 u updateMessage,
             bugExists d0 (Bug.id bug) ->
             bug_updates d0 = bug_updates d ->
             In u (bug_updates d) -> BugUpdate.bug_id u = Bug.id bug ->
             messages_fetch (client e) (Bug.channel_id bug) (BugUpdate.discord_message_id u)
             = Some updateMessage ->
             hasCheckReaction (extractReactions updateMessage) = true ->
             statusOf (syncUpdates e now bug (getBugUpdates d0 (Bug.id bug)) d0) (Bug.id bug)
             = Some Fixed) as Hthread.
  { intros d0 u m Hex0 Hsame Hu Hid Hf Hc.
    apply (syncUpdates_closes e now bug _ d0 u m); try assumption.
    apply In_orderByAsc, List.filter_In. rewrite Hsame. split; [exact Hu|].
    now apply Z.eqb_eq. }
  destruct (messages_fetch (client e) (Bug.channel_id bug) (Bug.discord_message_id bug))
    as [bugMessage|] eqn:Eb.
  - destruct (hasCheckReaction (extractReactions bugMessage)) eqn:Cb.
    + rewrite statusOf_updateBugReactions. now apply statusOf_markFixed.
    + destruct Hcheck as [(m & [= <-] & Hc)|(u & m & Hu & Hid & Hf & Hc)]; [congruence|].
      apply (Hthread _ u m); try assumption; [|reflexivity].
      apply bugExists_map; [|exact Hex].
      intros b. now destruct (Bug.discord_message_id b =? _).
  - destruct Hcheck as [(m & [=] & _)|(u & m & Hu & Hid & Hf & Hc)].
    now apply (Hthread _ u m).
Qed.

(** X24. The reaction sync closes every open bug that can be checked and bears
    a done reaction, on its own message or on a message of its thread:
    when the bug's channel is fetched as a text channel and one of those
    messages is fetched with the reaction, the bug is fixed once the sync
    is over. *)
Theorem reaction_sync_closes_checked_bugs (e : Env) (now : Timestamp) (s : Bot)
    (bug : Bug.t) (channel : TextChannel) :
  In bug (getOpenBugs (db s)) ->
  channels_fetch (client e) (Bug.channel_id bug) = Some channel ->
  isTextBased channel = true ->
  (exists bugMessage,
      messages_fetch (client e) (Bug.channel_id bug) (Bug.discord_message_id bug)
      = Some bugMessage
      /\ hasCheckReaction (extractReactions bugMessage) = true)
  \/ (exists u updateMessage,
         In u (bug_updates (db s)) /\ BugUpdate.bug_id u = Bug.id bug
         /\ messages_fetch (client e) (Bug.channel_id bug) (BugUpdate.discord_message_id u)
            = Some updateMessage
         /\ hasCheckReaction (extractReactions updateMessage) = true) ->
  statusOf (db (syncReactionsOnOpenBugs e now s)) (Bug.id bug) = Some Fixed.
Proof.
  intros Hin Hch Htext Hcheck. unfold syncReactionsOnOpenBugs. cbn [db set_db].
  assert (bugExists (db s) (Bug.id bug)) as Hex.
  { apply getOpenBugs_In in Hin as [Hin _]. now apply In_bugExists. }
  apply List.in_split in Hin as (l1 & l2 & ->).
  rewrite List.fold_left_app. cbn [List.fold_left].
  set (d1 := List.fold_left (fun d bug => syncBug e now bug d) l1 (db s)).
  assert (writes (db s) d1) as Hw by apply fold_syncBug_writes.
  apply writes_appendOnly in Hw.
  eapply writes_keep_fixed; [apply fold_syncBug_writes|].
  apply (syncBug_closes e now bug d1 channel); try assumption.
  - now apply (appendOnly_bugExists (db s)).
  - destruct Hcheck as [H|(u & m & Hu & Hid & Hf & Hc)]; [now left|right].
    destruct (appendOnly_update _ _ u Hw Hu) as (u' & Hu' & Hid' & Hmsg).
    exists u', m. rewrite Hid', Hmsg. auto.
Qed.

Lemma reaction_sync_closes_checked_bugs_witness :
  statusOf (db Demo.tracked) 1 = Some Open
  /\ statusOf (db (syncReactionsOnOpenBugs Sample.reacted 6000 Demo.tracked)) 1 = Some Fixed.
Proof.
  split; [reflexivity|].
  apply (reaction_sync_closes_checked_bugs Sample.reacted 6000 Demo.tracked
           (Demo.nthBug 0 Demo.tracked) (mkChannel (Js.lit "bugs") true)).
  - now left.
  - reflexivity.
  - reflexivity.
  - left. exists Sample.issueChecked. split; reflexivity.
Defined.

(** ** What the scans count *)

Lemma addBug_result d bug r d' :
  addBug d bug = Ok r d' ->
  (r = None /\ d' = d) \/ (exists b, r = Some b /\ d' = withBug d bug).
Proof.
  unfold addBug. destruct (List.existsb _ _); intros [= <- <-]; [now left|right].
  fold (withBug d bug).
  destruct (getBugById (withBug d bug) (bugs_seq d + 1)) as [b|] eqn:E; [now exists b|].
  exfalso. unfold getBugById in E.
  pose proof (proj1 (find_none_iff _ _) E (Bug.with_id (bugs_seq d + 1) bug)) as H.
  cbn in H. rewrite Z.eqb_refl in H. discriminate H.
  apply in_or_app. right. now left.
Qed.

Lemma addBugUpdate_result d update r d' :
  addBugUpdate d update = Ok r d' ->
  (r = None /\ d' = d) \/ (exists u, r = Some u /\ d' = withUpdate d update).
Proof.
  destruct (addBugUpdate_cases d update) as [->|[->| ->]].
  - intros [= <- <-]. now left.
  - discriminate.
  - intros [= <- <-]. right. now eexists.
Qed.

Lemma length_withBug d bug :
  Z.of_nat (length (bugs (withBug d bug))) = Z.of_nat (length (bugs d)) + 1
  /\ bug_updates (withBug d bug) = bug_updates d.
Proof. split; [|reflexivity]. cbn [bugs withBug]. rewrite length_app. simpl. lia. Qed.

Lemma length_withUpdate d update :
  length (bugs (withUpdate d update)) = length (bugs d)
  /\ Z.of_nat (length (bug_updates (withUpdate d update)))
     = Z.of_nat (length (bug_updates d)) + 1.
Proof.
  split; cbn [bugs bug_updates withUpdate].
  - unfold touchBug. apply length_map.
  - rewrite length_app. simpl. lia.
Qed.

Lemma length_updateBugStatus now d bugId st :
  length (bugs (updateBugStatus now d bugId st)) = length (bugs d)
  /\ bug_updates (updateBugStatus now d bugId st) = bug_updates d.
Proof. split; [|reflexivity]. cbn [bugs updateBugStatus set_bugs]. apply length_map. Qed.

(** One turn of [scanChannelHistory]: the counters move with the rows. *)
Lemma historyMessage_counts now channelName message st d :
  let r := historyMessage now channelName message st d in
  Z.of_nat (length (bugs (stepDb r))) - h_bugs (stepStats r)
  = Z.of_nat (length (bugs d)) - h_bugs st
  /\ Z.of_nat (length (bug_updates (stepDb r))) - h_updates (stepStats r)
     = Z.of_nat (length (bug_updates d)) - h_updates st
  /\ h_bugs st <= h_bugs (stepStats r)
  /\ h_updates st <= h_updates (stepStats r).
Proof.
  unfold historyMessage.
  destruct (Message.author_bot message); [cbn; lia|].
  destruct (isNewBugReport (Message.content message)).
  - destruct (addBug d _) as [r d'|] eqn:E; [|cbn; lia].
    apply addBug_result in E as [[-> ->]|(b & -> & ->)]; cbn [stepDb stepStats h_bugs h_updates].
    + lia.
    + destruct (length_withBug d (bugOfMessage message channelName
                                    (statusFromReactions message))) as [H1 H2].
      rewrite H1, H2. lia.
  - destruct (Message.reference message) as [refMessageId|]; [|cbn; lia].
    destruct (resolveReply d refMessageId) as [bug|]; [|cbn; lia].
    set (d1 := if isCompletionMarker (Message.content message) && isOpen bug
               then updateBugStatus now d (Bug.id bug) Fixed else d).
    assert (length (bugs d1) = length (bugs d) /\ bug_updates d1 = bug_updates d) as [L1 L2].
    { subst d1. destruct (_ && _); [apply length_updateBugStatus|now split]. }
    destruct (addBugUpdate d1 _) as [r d'|] eqn:E;
      [|cbn [stepDb stepStats]; rewrite L1, L2; lia].
    apply addBugUpdate_result in E as [[-> ->]|(u & -> & ->)];
      cbn [stepDb stepStats h_bugs h_updates].
    + rewrite L1, L2. lia.
    + destruct (length_withUpdate d1 (updateOfMessage message (Bug.id bug))) as [H1 H2].
      rewrite H1, H2, L1, L2. lia.
Qed.

Lemma forEach_history_counts now channelName messages st d :
  let r := forEach (historyMessage now channelName) messages st d in
  Z.of_nat (length (bugs (stepDb r))) - h_bugs (stepStats r)
  = Z.of_nat (length (bugs d)) - h_bugs st
  /\ Z.of_nat (length (bug_updates (stepDb r))) - h_updates (stepStats r)
     = Z.of_nat (length (bug_updates d)) - h_updates st
  /\ h_bugs st <= h_bugs (stepStats r)
  /\ h_updates st <= h_updates (stepStats r).
Proof.
  revert st d. induction messages as [|m ms IH]; intros st d; cbn zeta; simpl; [lia|].
  pose proof (historyMessage_counts now channelName m st d) as H. cbn zeta in H.
  destruct (historyMessage now channelName m st d) as [st1 d1|st1 d1];
    cbn [stepDb stepStats] in *; [|exact H].
  specialize (IH st1 d1). cbn zeta in IH. lia.
Qed.

Lemma historyPages_counts fuel e now channelId channelName maxMessages total lastMessageId
    st d :
  let r := historyPages fuel e now channelId channelName maxMessages total lastMessageId
             st d in
  Z.of_nat (length (bugs (snd r))) - h_bugs (fst r) = Z.of_nat (length (bugs d)) - h_bugs st
  /\ Z.of_nat (length (bug_updates (snd r))) - h_updates (fst r)
     = Z.of_nat (length (bug_updates d)) - h_updates st
  /\ h_bugs st <= h_bugs (fst r)
  /\ h_updates st <= h_updates (fst r).
Proof.
  revert total lastMessageId st d.
  induction fuel as [|fuel IH]; intros total lastMessageId st d; cbn zeta; simpl; [lia|].
  destruct (total <? maxMessages); [|simpl; lia].
  destruct (messages_before _ _ _ _) as [[|m ms]|]; try (simpl; lia).
  pose proof (forEach_history_counts now channelName (sortOldestFirst (m :: ms)) st d) as H.
  cbn zeta in H.
  destruct (forEach _ (sortOldestFirst (m :: ms)) st d) as [st1 d1|st1 d1];
    cbn [stepDb stepStats fst snd] in *; [|exact H].
  destruct (_ <? _); [exact H|].
  specialize (IH (total + Z.of_nat (length (m :: ms)))
                 (option_map Message.id (head (sortOldestFirst (m :: ms)))) st1 d1).
  cbn zeta in IH. lia.
Qed.

(** X25. The counts that [scanChannelHistory] reports are the rows it added:
    the totals that [getStats] and [getTotalUpdateCount] give after the
    scan are those from before plus the two counts. *)
Theorem scanChannelHistory_counts_rows_added (e : Env) (now : Timestamp)
    (channelId : Snowflake) (maxMessages : Z) (s : Bot) :
  let r := scanChannelHistory e now channelId maxMessages s in
  counter None None (getStats (db (snd r)))
  = counter None None (getStats (db s)) + h_bugs (fst r)
  /\ getTotalUpdateCount (db (snd r)) = getTotalUpdateCount (db s) + h_updates (fst r)
  /\ 0 <= h_bugs (fst r)
  /\ 0 <= h_updates (fst r).
Proof.
  unfold counter, getStats, getTotalUpdateCount. cbn [Stats.all Stats.total].
  unfold scanChannelHistory.
  destruct (channels_fetch (client e) channelId) as [channel|]; [|simpl; lia].
  destruct (isTextBased channel); [|simpl; lia]. cbn [negb].
  pose proof (historyPages_counts (Z.to_nat maxMessages) e now channelId
                (channel_name channel) maxMessages 0 None (mkHistoryStats 0 0) (db s)) as H.
  cbn zeta in H.
  destruct (historyPages _ _ _ _ _ _ _ _ _ _) as [st d].
  cbn [fst snd db set_db h_bugs h_updates] in *. lia.
Qed.

Lemma scanChannelHistory_counts_rows_added_witness :
  fst (scanChannelHistory Sample.archive 7000 Demo.channel 300 Demo.fresh)
  = mkHistoryStats 1 2
  /\ counter None None
       (getStats (db (snd (scanChannelHistory Sample.archive 7000 Demo.channel 300
                             Demo.fresh)))) = 1
  /\ getTotalUpdateCount
       (db (snd (scanChannelHistory Sample.archive 7000 Demo.channel 300 Demo.fresh))) = 2.
Proof.
  split; [reflexivity|].
  destruct (scanChannelHistory_counts_rows_added Sample.archive 7000 Demo.channel 300
              Demo.fresh) as (Hbugs & Hupdates & _).
  split; [exact Hbugs|exact Hupdates].
Defined.

Lemma closeReferenced_closes_open now d messageId d' :
  closeReferenced now d messageId = Some d' ->
  exists b, In b (bugs d) /\ Bug.status b = Open
            /\ d' = updateBugStatus now d (Bug.id b) Fixed.
Proof.
  unfold closeReferenced.
  assert (forall b i, getBugById d i = Some b -> In b (bugs d) /\ Bug.id b = i) as Hid.
  { intros b i H. apply List.find_some in H as [Hin H]. split; [exact Hin|].
    now apply Z.eqb_eq. }
  assert (match getBugIdFromUpdateMessage d messageId with
          | Some bugId =>
              match getBugById d bugId with
              | Some relatedBug =>
                  if isOpen relatedBug then Some (updateBugStatus now d bugId Fixed)
                  else None
              | None => None
              end
          | None => None
          end = Some d' ->
          exists b, In b (bugs d) /\ Bug.status b = Open
                    /\ d' = updateBugStatus now d (Bug.id b) Fixed) as Hvia.
  { destruct (getBugIdFromUpdateMessage d messageId) as [bugId|]; [|discriminate].
    destruct (getBugById d bugId) as [b|] eqn:E; [|discriminate].
    destruct (isOpen b) eqn:Eo; [|discriminate]. intros [= <-].
    destruct (Hid b bugId E) as [Hin <-]. exists b.
    split; [exact Hin|]. split; [now apply Status_eqb_eq|reflexivity]. }
  destruct (getBugByMessageId d messageId) as [b|] eqn:E; [|exact Hvia].
  destruct (isOpen b) eqn:Eo; [|exact Hvia]. intros [= <-].
  apply List.find_some in E as [Hin _]. exists b.
  split; [exact Hin|]. split; [now apply Status_eqb_eq|reflexivity].
Qed.

Lemma sumWhen_map (p : Bug.t -> bool) (g : Bug.t -> Bug.t) d :
  (forall b, p (g b) = p b) -> sumWhen p (set_bugs (List.map g (bugs d)) d) = sumWhen p d.
Proof.
  intros Hg. unfold sumWhen. cbn [bugs set_bugs]. f_equal.
  induction (bugs d) as [|b r IH]; simpl; [reflexivity|].
  rewrite Hg. destruct (p b); simpl; now rewrite IH.
Qed.

Lemma fixed_withBug d bug :
  counter (Some Fixed) None (getStats (withBug d bug))
  = counter (Some Fixed) None (getStats d)
    + (if Status_eqb (Bug.status bug) Fixed then 1 else 0).
Proof.
  unfold counter, getStats, sumWhen. cbn [Stats.all Stats.fixed bugs withBug].
  rewrite filter_snoc, length_app. cbn [Bug.status Bug.with_id].
  destruct (Status_eqb (Bug.status bug) Fixed); simpl; lia.
Qed.

Lemma fixed_withUpdate d update :
  counter (Some Fixed) None (getStats (withUpdate d update))
  = counter (Some Fixed) None (getStats d).
Proof.
  unfold counter, getStats. cbn [Stats.all Stats.fixed].
  apply (sumWhen_map _ (fun b => if Bug.id b =? BugUpdate.bug_id update
                                 then Bug.with_updated_at (BugUpdate.created_at update) b
                                 else b) d).
  intros b. now destruct (Bug.id b =? _).
Qed.

Lemma fixed_closing now d b :
  db_wf d -> In b (bugs d) -> Bug.status b = Open ->
  counter (Some Fixed) None (getStats (updateBugStatus now d (Bug.id b) Fixed))
  = counter (Some Fixed) None (getStats d) + 1.
Proof.
  intros Hwf Hin Hopen. unfold counter, getStats, sumWhen.
  cbn [Stats.all Stats.fixed bugs updateBugStatus set_bugs].
  rewrite count_after_edit by (try apply (wf_bug_id_unique d Hwf); assumption).
  cbn [Bug.status Bug.with_status]. rewrite Hopen. simpl. lia.
Qed.

Lemma triple_eq (a a' b b' c c' : Z) :
  a = a' -> b = b' -> c = c' -> (a, b, c) = (a', b', c').
Proof. now intros -> -> ->. Qed.

Lemma scanMessage_balance now channelName message st d :
  db_wf d ->
  balance (stepStats (scanMessage now channelName message st d))
          (stepDb (scanMessage now channelName message st d))
  = balance st d.
Proof.
  intros Hwf. unfold scanMessage, balance.
  destruct (Message.author_bot message); [reflexivity|].
  destruct (isNewBugReport (Message.content message)).
  - destruct (addBug d _) as [r d'|] eqn:E; [|reflexivity].
    apply addBug_result in E as [[-> ->]|(b & -> & ->)]; [reflexivity|].
    cbn [stepDb stepStats seen foundBug bugsFound updatesFound bugsFixed].
    destruct (length_withBug d (bugOfMessage message channelName
                                  (statusFromReactions message))) as [H1 H2].
    rewrite H1, H2, fixed_withBug. cbn [Bug.status bugOfMessage]. unfold statusFromReactions.
    destruct (hasCheckReaction (extractReactions message)); cbn [Status_eqb];
      (apply triple_eq; lia).
  - destruct (isCompletionMarker (Message.content message)).
    + destruct (Message.reference message) as [refMessageId|]; [|reflexivity].
      destruct (closeReferenced now d refMessageId) as [d'|] eqn:E; [|reflexivity].
      apply closeReferenced_closes_open in E as (b & Hin & Hopen & ->).
      cbn [stepDb stepStats seen foundFixed bugsFound updatesFound bugsFixed].
      destruct (length_updateBugStatus now d (Bug.id b) Fixed) as [H1 H2].
      rewrite H1, H2, fixed_closing by assumption. apply triple_eq; lia.
    + destruct (Message.reference message) as [refMessageId|]; [|reflexivity].
      destruct (resolveReply d refMessageId) as [bug|]; [|reflexivity].
      destruct (addBugUpdate d _) as [r d'|] eqn:E; [|reflexivity].
      apply addBugUpdate_result in E as [[-> ->]|(u & -> & ->)]; [reflexivity|].
      cbn [stepDb stepStats seen foundUpdate bugsFound updatesFound bugsFixed].
      destruct (length_withUpdate d (updateOfMessage message (Bug.id bug))) as [H1 H2].
      rewrite H1, H2, fixed_withUpdate. apply triple_eq; lia.
Qed.

Lemma forEach_scan_balance now channelName messages st d :
  db_wf d ->
  balance (stepStats (forEach (scanMessage now channelName) messages st d))
          (stepDb (forEach (scanMessage now channelName) messages st d))
  = balance st d
  /\ db_wf (stepDb (forEach (scanMessage now channelName) messages st d)).
Proof.
  revert st d. induction messages as [|m ms IH]; intros st d Hwf; simpl; [now split|].
  pose proof (scanMessage_balance now channelName m st d Hwf) as H.
  pose proof (writes_db_wf _ _ (scanMessage_writes now channelName m st d) Hwf) as Hwf1.
  destruct (scanMessage now channelName m st d) as [st1 d1|st1 d1];
    cbn [stepDb stepStats] in *; [|now split].
  rewrite <- H. now apply IH.
Qed.

Lemma scanPages_balance fuel e now channelId channelName afterId st d r :
  db_wf d ->
  scanPages fuel e now channelId channelName afterId st d = Some r ->
  balance (stepStats r) (stepDb r) = balance st d.
Proof.
  revert afterId st d.
  induction fuel as [|fuel IH]; intros afterId st d Hwf; simpl; [discriminate|].
  destruct (messages_after _ _ _) as [[|m ms]|]; try (now intros [= <-]).
  destruct (forEach_scan_balance now channelName (sortOldestFirst (m :: ms)) st d Hwf)
    as [Hbal Hwf1].
  destruct (forEach _ (sortOldestFirst (m :: ms)) st d) as [st1 d1|st1 d1];
    cbn [stepDb stepStats] in *; [|now intros [= <-]].
  destruct (_ <? _)%nat; [now intros [= <-]|].
  intros H. rewrite <- Hbal. eapply IH; eassumption.
Qed.

(** X26. The counters of a scan of a channel by [scanExistingMessages] are
    what the scan did to the store: the total of [getStats] grew by
    [bugsFound], that of [getTotalUpdateCount] by [updatesFound], and the
    number of fixed bugs by [bugsFixed]. This also holds of a scan that an
    exception cut short. *)
Theorem scanPages_counts_rows_added (fuel : nat) (e : Env) (now : Timestamp)
    (channelId : Snowflake) (channelName : Js.str) (afterId : option Snowflake)
    (d : Database) (r : Step ScanStats) :
  db_wf d ->
  scanPages fuel e now channelId channelName afterId noStats d = Some r ->
  counter None None (getStats (stepDb r))
  = counter None None (getStats d) + bugsFound (stepStats r)
  /\ getTotalUpdateCount (stepDb r) = getTotalUpdateCount d + updatesFound (stepStats r)
  /\ counter (Some Fixed) None (getStats (stepDb r))
     = counter (Some Fixed) None (getStats d) + bugsFixed (stepStats r).
Proof.
  intros Hwf Hscan. pose proof (scanPages_balance _ _ _ _ _ _ _ _ _ Hwf Hscan) as H.
  unfold getTotalUpdateCount.
  change (counter None None (getStats (stepDb r)))
    with (Z.of_nat (length (bugs (stepDb r)))).
  change (counter None None (getStats d)) with (Z.of_nat (length (bugs d))).
  unfold balance in H. cbn [noStats bugsFound updatesFound bugsFixed] in H.
  apply pair_equal_spec in H as [H H3]. apply pair_equal_spec in H as [H1 H2]. lia.
Qed.

Lemma scanPages_counts_rows_added_witness :
  exists r,
    scanPages 5 Sample.archive 7000 Demo.channel (Js.lit "bugs") None noStats (db Demo.fresh)
    = Some r
    /\ (bugsFound (stepStats r), updatesFound (stepStats r), bugsFixed (stepStats r))
       = (1, 1, 1)
    /\ counter None None (getStats (stepDb r)) = 1
    /\ getTotalUpdateCount (stepDb r) = 1
    /\ counter (Some Fixed) None (getStats (stepDb r)) = 1.
Proof.
  pose (r := default (Next noStats (db Demo.fresh))
               (scanPages 5 Sample.archive 7000 Demo.channel (Js.lit "bugs") None noStats
                          (db Demo.fresh))).
  exists r. split; [reflexivity|]. split; [reflexivity|].
  destruct (scanPages_counts_rows_added 5 Sample.archive 7000 Demo.channel (Js.lit "bugs")
              None (db Demo.fresh) r fresh_schema eq_refl) as (Hb & Hu & Hf).
  rewrite Hb, Hu, Hf. repeat split.
Defined.

(** ** A done message with no text *)

Lemma startsWith_nil (s : Js.str) : Js.startsWith s [] = true.
Proof. now destruct s. Qed.

Lemma includes_nil (s : Js.str) : Js.includes s [] = true.
Proof. destruct s; simpl; now rewrite ?startsWith_nil. Qed.

(** X27. With an analyzer configured, a standalone done message that holds
    nothing but the glyph and white space closes the open bug that was
    updated last, whatever the other open bugs are: the empty text is a
    substring of every bug's text, so the text match takes the first
    candidate, and the AI collaborator is not asked. *)
Theorem bare_done_message_closes_latest_bug (e : Env) (now : Timestamp)
    (a : MessageAnalyzer) (message : Message.t) (s : Bot) (latest : Bug.t)
    (others : list Bug.t) :
  analyzer e = Some a ->
  Message.reference message = None ->
  completionText message = [] ->
  getOpenBugs (db s) = latest :: others ->
  Bug.id latest <> 0 ->
  handleCompletion e now message s = Done tt (markFixed now (Bug.id latest) s).
Proof.
  intros Ha Href Htext Hopen Hid.
  unfold handleCompletion, matchStandalone. rewrite Href, Hopen, Ha.
  fold (completionText message). rewrite Htext.
  unfold findExactOrCloseMatch, contents. cbn [List.map List.find snd fst Js.toLowerCase].
  change (Js.trim []) with (@nil Z). unfold closeMatch at 1. rewrite includes_nil.
  cbn [orb option_map fst truthy].
  destruct (Bug.id latest =? 0) eqn:E; [apply Z.eqb_eq in E; contradiction|reflexivity].
Qed.

Lemma bare_done_message_closes_latest_bug_witness :
  handleCompletion Demo.withAI 6000 Sample.bare Demo.twoOpen
  = Done tt (markFixed 6000 2 Demo.twoOpen).
Proof.
  apply (bare_done_message_closes_latest_bug Demo.withAI 6000 Demo.alwaysBug1 Sample.bare
           Demo.twoOpen (Demo.nthBug 1 Demo.twoOpen) [Demo.nthBug 0 Demo.twoOpen]);
    try reflexivity.
  discriminate.
Defined.

(** ** The save at shutdown *)

Lemma savePosition_other e now c channelId d :
  c <> channelId ->
  getScanState (savePosition e now c d) channelId = getScanState d channelId.
Proof.
  intros Hne. unfold savePosition, getScanState.
  destruct (channels_fetch (client e) c) as [channel|]; [|reflexivity].
  destruct (isTextBased channel); [|reflexivity]. cbn [negb].
  destruct (messages_last (client e) c) as [[m|]|]; try reflexivity.
  cbn [scan_state saveScanState]. now rewrite lookup_insert_ne.
Qed.

Lemma savePosition_rows e now c d :
  bugs (savePosition e now c d) = bugs d
  /\ bug_updates (savePosition e now c d) = bug_updates d.
Proof.
  unfold savePosition.
  destruct (channels_fetch (client e) c) as [channel|]; [|now split].
  destruct (isTextBased channel); [|now split]. cbn [negb].
  now destruct (messages_last (client e) c) as [[m|]|].
Qed.

(** X28. At shutdown every monitored channel that is fetched as a text channel
    and whose latest message is fetched has that message's id stored as
    its scan position, whatever was stored before. A channel that is not
    monitored, or for which one of the fetches fails or finds no message,
    keeps the position it had. No bug and no update is touched. *)
Theorem saveCurrentPosition_records_latest_message (e : Env) (now : Timestamp) (s : Bot) :
  (forall channelId channel lastMessage,
      In channelId (getMonitoredChannelIds e (db s)) ->
      channels_fetch (client e) channelId = Some channel ->
      isTextBased channel = true ->
      messages_last (client e) channelId = Some (Some lastMessage) ->
      getScanState (db (saveCurrentPosition e now s)) channelId
      = Some (Message.id lastMessage, now))
  /\ (forall channelId,
         ~ In channelId (getMonitoredChannelIds e (db s))
         \/ (forall channel lastMessage,
                channels_fetch (client e) channelId = Some channel ->
                isTextBased channel = true ->
                messages_last (client e) channelId <> Some (Some lastMessage)) ->
         getScanState (db (saveCurrentPosition e now s)) channelId
         = getScanState (db s) channelId)
  /\ bugs (db (saveCurrentPosition e now s)) = bugs (db s)
  /\ bug_updates (db (saveCurrentPosition e now s)) = bug_updates (db s).
Proof.
  unfold saveCurrentPosition. cbn [db set_db].
  generalize (getMonitoredChannelIds e (db s)). intros l.
  repeat match goal with |- _ /\ _ => split end.
  - intros channelId channel lastMessage Hin Hch Htext Hlast.
    assert (forall d, getScanState (savePosition e now channelId d) channelId
                      = Some (Message.id lastMessage, now)) as Hsave.
    { intros d. unfold savePosition, getScanState. rewrite Hch, Htext, Hlast.
      cbn [negb scan_state saveScanState]. apply lookup_insert_eq. }
    assert (forall d, In channelId l
                      \/ getScanState d channelId = Some (Message.id lastMessage, now) ->
                      getScanState
                        (List.fold_left (fun d c => savePosition e now c d) l d) channelId
                      = Some (Message.id lastMessage, now)) as Hfold.
    { clear Hin. induction l as [|c r IH]; intros d Hor; simpl.
      - now destruct Hor as [[]|H].
      - apply IH. destruct (decide (c = channelId)) as [->|Hne].
        + right. apply Hsave.
        + destruct Hor as [[Heq|Hin']|H]; [congruence|now left|].
          right. now rewrite savePosition_other. }
    apply Hfold. now left.
  - intros channelId Hor.
    assert (forall d c, In c l -> c = channelId ->
                        savePosition e now c d = d) as Hnone.
    { intros d c Hc ->. destruct Hor as [Hout|Hfail]; [contradiction|].
      unfold savePosition.
      destruct (channels_fetch (client e) channelId) as [channel|]; [|reflexivity].
      destruct (isTextBased channel) eqn:Et; [|reflexivity]. cbn [negb].
      destruct (messages_last (client e) channelId) as [[m|]|] eqn:Em; try reflexivity.
      now destruct (Hfail channel m). }
    clear Hor. revert Hnone. generalize (db s).
    induction l as [|c r IH]; intros d Hnone; simpl; [reflexivity|].
    rewrite IH by (intros; apply Hnone; [now right|assumption]).
    destruct (decide (c = channelId)) as [->|Hne].
    + rewrite Hnone; [reflexivity|now left|reflexivity].
    + now apply savePosition_other.
  - generalize (db s). induction l as [|c r IH]; intros d; simpl; [reflexivity|].
    rewrite IH. apply savePosition_rows.
  - generalize (db s). induction l as [|c r IH]; intros d; simpl; [reflexivity|].
    rewrite IH. apply savePosition_rows.
Qed.

Lemma saveCurrentPosition_records_latest_message_witness :
  getScanState (db (saveCurrentPosition Demo.busy 9000 Demo.fresh)) Demo.channel
  = Some (200, 9000)
  /\ getScanState (db (saveCurrentPosition Demo.busy 9000 Demo.fresh)) Sample.side = None.
Proof.
  destruct (saveCurrentPosition_records_latest_message Demo.busy 9000 Demo.fresh)
    as (Hsaved & Hkept & _).
  split.
  - apply (Hsaved Demo.channel (mkChannel (Js.lit "bugs") true) Demo.bye);
      [now left|reflexivity|reflexivity|reflexivity].
  - rewrite Hkept; [reflexivity|]. left. intros [H|[]]. discriminate H.
Defined.

(** ** The routes that write *)

Lemma updateBugStatus_missing now d bugId st :
  getBugById d bugId = None -> updateBugStatus now d bugId st = d.
Proof.
  intros E. unfold updateBugStatus.
  rewrite map_unless by now apply find_none_iff. apply set_bugs_same.
Qed.

Lemma updateBug_none now d bugId updates :
  fst (updateBug now d bugId updates) = None -> snd (updateBug now d bugId updates) = d.
Proof.
  destruct (getBugById d bugId) as [b|] eqn:E.
  - intros H. now destruct (updateBug_found now d bugId updates b E).
  - now rewrite updateBug_missing.
Qed.

(** X29. A request that one of the writing routes answers with an error
    writes nothing. The two admin routes refuse every request without the
    admin password once one is configured, whatever else the request
    bears; the status route also lets the bot's bearer secret in. With no
    admin password configured all three take any request. The status
    route answers success for an id that is not stored, having written
    nothing. *)
Theorem refused_requests_write_nothing (config : ServerConfig) (now : Timestamp)
    (req : Request) (d : Database) :
  (refused (fst (patchBugStatus config now req d)) = true ->
   snd (patchBugStatus config now req d) = d)
  /\ (refused (fst (putAdminBug config now req d)) = true ->
      snd (putAdminBug config now req d) = d)
  /\ (refused (fst (deleteAdminBug config req d)) = true ->
      snd (deleteAdminBug config req d) = d)
  /\ (checkAdminAuth config req = false ->
      putAdminBug config now req d = (Unauthorized, d)
      /\ deleteAdminBug config req d = (Unauthorized, d)
      /\ (isBotAuthed config req = false ->
          patchBugStatus config now req d = (Unauthorized, d)))
  /\ (checkAdminAuth config req = true <->
      configured (adminPassword config) = None
      \/ configured (adminPassword config) = x_admin_password req)
  /\ (forall status bugId,
         checkAdminAuth config req = true \/ isBotAuthed config req = true ->
         statusOfField (body_status req) = Some status ->
         params_id req = Some bugId ->
         getBugById d bugId = None ->
         patchBugStatus config now req d = (Success, d)).
Proof.
  repeat match goal with |- _ /\ _ => split end.
  - unfold patchBugStatus. destruct (_ && _); [reflexivity|].
    destruct (statusOfField (body_status req)); [discriminate|reflexivity].
  - unfold putAdminBug. destruct (negb _); [reflexivity|].
    destruct (body_content req) as [[c|]|]; try reflexivity;
      try (destruct (Js.trim c); [reflexivity|]);
      destruct (body_type req), (typeOfField _); try reflexivity;
      destruct (body_status req), (statusOfField _); try reflexivity;
      destruct (params_id req) as [bugId|]; try reflexivity;
      match goal with
      | |- context [updateBug now d bugId ?edit] =>
          pose proof (updateBug_none now d bugId edit) as Hnone;
          destruct (updateBug now d bugId edit) as [[found|] d']
      end; cbn [fst snd] in *; try discriminate; intros _; now apply Hnone.
  - unfold deleteAdminBug. destruct (negb _); [reflexivity|].
    destruct (params_id req) as [bugId|]; [|reflexivity].
    unfold deleteBug. destruct (getBugById d bugId); [discriminate|reflexivity].
  - intros Hno. unfold putAdminBug, deleteAdminBug, patchBugStatus. rewrite Hno.
    split; [reflexivity|]. split; [reflexivity|]. now intros ->.
  - unfold checkAdminAuth, headerIs.
    destruct (configured (adminPassword config)) as [pw|]; [|tauto].
    destruct (x_admin_password req) as [given|].
    + rewrite Js_eqb_eq. split; [intros ->; now right|]. intros [|[=]]; congruence.
    + split; [discriminate|]. intros [|]; discriminate.
  - intros status bugId Hauth Hstatus Hid Hnone. unfold patchBugStatus.
    rewrite Hstatus, Hid, updateBugStatus_missing by exact Hnone.
    destruct Hauth as [-> | ->]; [now rewrite andb_false_r|reflexivity].
Qed.

Lemma refused_requests_write_nothing_witness :
  patchBugStatus Sample.locked 9000 Sample.reopen (db Demo.oneClosed)
  = (Unauthorized, db Demo.oneClosed)
  /\ putAdminBug Sample.locked 9000 Sample.reopen (db Demo.oneClosed)
     = (Unauthorized, db Demo.oneClosed)
  /\ fst (patchBugStatus (mkServerConfig None None None) 9000 Sample.reopen
            (db Demo.oneClosed)) = Success.
Proof.
  destruct (refused_requests_write_nothing Sample.locked 9000 Sample.reopen
              (db Demo.oneClosed)) as (_ & _ & _ & Hlocked & _).
  destruct Hlocked as (Hput & _ & Hpatch); [reflexivity|].
  split; [now apply Hpatch|]. split; [exact Hput|reflexivity].
Defined.
